(** * Terrain quadtree and heightfield store: a shallow embedding

    The C++ sources embedded here are [QuadTree.cpp] / [QuadTree.h]
    (class [QuadTree], structs [TerrainNode] and [BoundingBoxAABB]), the
    implementation file of class [Terrain] (declared in [Terrain.h]), the
    per-frame code of [TerrainApp.cpp] (frustum planes, object constants,
    draw loop, keyboard, fallback height texture) and the height fetch of
    the terrain shader.

    C++ [float] is kept abstract behind the interface [Scalar]: every
    program definition is written once, against the interface, and is
    interpreted either by IEEE-754 binary32 (instance [binary32], built on
    the standard library's [SpecFloat], round-to-nearest-even) or by exact
    rational arithmetic (instance [exactQ]).  Structural results are proved
    for every interpretation; concrete executions and the results that
    depend on rounding, overflow, infinities or NaN use [binary32]; the
    results stated in exact arithmetic are proved for [exactQ]. *)

From Stdlib Require Import ZArith List Bool Lia QArith Qround Lqa.
From Stdlib Require Import Floats.SpecFloat Strings.Byte.
From Stdlib Require Strings.String.
Import ListNotations.

Set Implicit Arguments.
Local Open Scope Z_scope.

(** ** Machine integers *)

Module Int.

(** [int] is 32-bit two's complement, [UINT] is 32-bit unsigned. *)
Definition int_min : Z := - 2 ^ 31.
Definition int_max : Z := 2 ^ 31 - 1.

Definition wrap_int (n : Z) : Z := (n + 2 ^ 31) mod 2 ^ 32 - 2 ^ 31.
Definition wrap_uint (n : Z) : Z := n mod 2 ^ 32.

Definition in_int (n : Z) : bool := (int_min <=? n) && (n <=? int_max).

(** A float-to-int conversion whose value does not fit is undefined in
    C++; the x86 conversion instruction yields [INT_MIN] there, which is
    what is modelled. *)
Definition of_float_value (n : Z) : Z := if in_int n then n else int_min.

End Int.

(** ** The [float] interface *)

Class Scalar (F : Type) : Type := {
  of_Z : Z -> F;                   (* (float)i for an integer i *)
  of_ratio : Z -> positive -> F;   (* the literal closest to n/d *)
  fadd : F -> F -> F;
  fsub : F -> F -> F;
  fmul : F -> F -> F;
  fdiv : F -> F -> F;
  fneg : F -> F;
  flt : F -> F -> bool;            (* a < b *)
  fle : F -> F -> bool;            (* a <= b *)
  ffloor : F -> F;                 (* std::floor *)
  to_int : F -> Z                  (* (int)x, truncation toward zero *)
}.

Class ScalarSqrt (F : Type) : Type := {
  fsqrt : F -> F                   (* std::sqrt *)
}.

Declare Scope scalar_scope.
Delimit Scope scalar_scope with F.
Infix "+" := fadd : scalar_scope.
Infix "-" := fsub : scalar_scope.
Infix "*" := fmul : scalar_scope.
Infix "/" := fdiv : scalar_scope.
Infix "<?" := flt : scalar_scope.
Infix "<=?" := fle : scalar_scope.
Notation "a >? b" := (flt b a) : scalar_scope.
Notation "a >=? b" := (fle b a) : scalar_scope.

Section ScalarDerived.
Context {F : Type} `{Scalar F}.

(** [std::max(a, b)] is [(a < b) ? b : a]; [std::min(a, b)] is
    [(b < a) ? b : a]. *)
Definition fmax (a b : F) : F := if flt a b then b else a.
Definition fmin (a b : F) : F := if flt b a then b else a.

End ScalarDerived.

(** ** IEEE-754 binary32 *)

Module B32.

Definition prec : Z := 24.
Definition emax : Z := 128.

Definition t : Type := spec_float.

Definition of_Z (n : Z) : t := binary_normalize prec emax n 0 false.

Definition add : t -> t -> t := SFadd prec emax.
Definition sub : t -> t -> t := SFsub prec emax.
Definition mul : t -> t -> t := SFmul prec emax.
Definition div : t -> t -> t := SFdiv prec emax.
Definition sqrt : t -> t := SFsqrt prec emax.
Definition ltb : t -> t -> bool := SFltb.
Definition leb : t -> t -> bool := SFleb.

(** Correctly rounded quotient of two exactly representable integers. *)
Definition of_ratio (n : Z) (d : positive) : t := div (of_Z n) (of_Z (Zpos d)).

(** The integer part of a finite value, rounded toward minus infinity
    ([floorZ]) or toward zero ([truncZ]). *)
Definition floorZ (s : bool) (m : positive) (e : Z) : Z :=
  let v := cond_Zopp s (Zpos m) in
  match e with
  | Zneg p => Z.shiftr v (Zpos p)
  | _ => Z.shiftl v e
  end.

Definition truncZ (s : bool) (m : positive) (e : Z) : Z :=
  match e with
  | Zneg p => cond_Zopp s (Z.shiftr (Zpos m) (Zpos p))
  | _ => cond_Zopp s (Z.shiftl (Zpos m) e)
  end.

Definition floor (x : t) : t :=
  match x with
  | S754_finite s m e =>
      if 0 <=? e then x else binary_normalize prec emax (floorZ s m e) 0 s
  | _ => x
  end.

Definition to_int (x : t) : Z :=
  match x with
  | S754_zero _ => 0
  | S754_finite s m e =>
      if e <=? 32 then Int.of_float_value (truncZ s m e) else Int.int_min
  | _ => Int.int_min
  end.

End B32.

#[export] Instance binary32 : Scalar B32.t := {
  of_Z := B32.of_Z;
  of_ratio := B32.of_ratio;
  fadd := B32.add;
  fsub := B32.sub;
  fmul := B32.mul;
  fdiv := B32.div;
  fneg := SFopp;
  flt := B32.ltb;
  fle := B32.leb;
  ffloor := B32.floor;
  to_int := B32.to_int
}.

#[export] Instance binary32_sqrt : ScalarSqrt B32.t := {
  fsqrt := B32.sqrt
}.

(** ** Exact rational arithmetic *)

Module Exact.

Definition ltb (a b : Q) : bool := negb (Qle_bool b a).

(** Truncation toward zero. *)
Definition truncZ (a : Q) : Z := Z.quot (Qnum a) (Zpos (Qden a)).

Definition to_int (a : Q) : Z := Int.of_float_value (truncZ a).

End Exact.

(** [Q] has no rounding, overflow, infinity or NaN, and its quotient by
    zero is 0 where binary32 yields an infinity or a NaN: a result for
    [exactQ] is a result about the code in exact arithmetic only, and
    those that divide by the terrain size assume it is not zero. *)
#[export] Instance exactQ : Scalar Q := {
  of_Z := inject_Z;
  of_ratio := Qmake;
  fadd := Qplus;
  fsub := Qminus;
  fmul := Qmult;
  fdiv := Qdiv;
  fneg := Qopp;
  flt := Exact.ltb;
  fle := Qle_bool;
  ffloor := fun a => inject_Z (Qfloor a);
  to_int := Exact.to_int
}.

(** ** DirectXMath value types *)

Record XMFLOAT3 (F : Type) : Type := mkFloat3 { f3x : F; f3y : F; f3z : F }.
Record XMFLOAT4 (F : Type) : Type := mkFloat4 { f4x : F; f4y : F; f4z : F; f4w : F }.

Arguments mkFloat3 {F} _ _ _.
Arguments mkFloat4 {F} _ _ _ _.

(** A small option monad for the partial operations. *)
Definition obind {A B : Type} (m : option A) (k : A -> option B) : option B :=
  match m with
  | Some a => k a
  | None => None
  end.

Notation "'do' p <- m ; k" := (obind m (fun p => k))
  (at level 10, p pattern, m at level 100, k at level 200).

(** ** QuadTree.h / QuadTree.cpp *)

Module QT.

Record BoundingBoxAABB (F : Type) : Type := mkAABB {
  Center : XMFLOAT3 F;
  Extents : XMFLOAT3 F
}.

(** [struct TerrainNode] without its [Children] array; the array is the
    recursive part and lives in [NodePtr]. *)
Record TerrainNode (F : Type) : Type := mkTerrainNode {
  nodeX : F;
  nodeZ : F;
  Size : F;
  LODLevel : Z;
  MaxLOD : Z;
  Bounds : BoundingBoxAABB F;
  MinY : F;
  MaxY : F;
  IsLeaf : bool;
  IsVisible : bool;
  ObjectCBIndex : Z
}.

(** [std::unique_ptr<TerrainNode>]: empty, or owning a node together with
    its [Children[0..3]]. *)
Inductive NodePtr (F : Type) : Type :=
| Null : NodePtr F
| Node (d : TerrainNode F) (c0 c1 c2 c3 : NodePtr F) : NodePtr F.

Arguments Null {F}.
Arguments Node {F} _ _ _ _ _.

Record QuadTree (F : Type) : Type := mkQuadTree {
  mRoot : NodePtr F;
  mTerrainSize : F;
  mMinNodeSize : F;
  mMaxLODLevels : Z;
  mLODDistances : list F;
  mVisibleNodeCount : Z;
  mTotalNodeCount : Z;
  mNextObjectCBIndex : Z
}.

(** A node handle ([TerrainNode*]) is the sequence of child indices that
    leads to the node from the root. *)
Definition Handle : Type := list nat.

Section Operations.
Context {F : Type} {SF : Scalar F} {SQ : ScalarSqrt F}.
Local Open Scope scalar_scope.

Definition set_IsVisible (b : bool) (n : TerrainNode F) : TerrainNode F :=
  mkTerrainNode (nodeX n) (nodeZ n) (Size n) (LODLevel n) (MaxLOD n)
    (Bounds n) (MinY n) (MaxY n) (IsLeaf n) b (ObjectCBIndex n).

Definition set_LODLevel (l : Z) (n : TerrainNode F) : TerrainNode F :=
  mkTerrainNode (nodeX n) (nodeZ n) (Size n) l (MaxLOD n)
    (Bounds n) (MinY n) (MaxY n) (IsLeaf n) (IsVisible n) (ObjectCBIndex n).

Definition set_ObjectCBIndex (i : Z) (n : TerrainNode F) : TerrainNode F :=
  mkTerrainNode (nodeX n) (nodeZ n) (Size n) (LODLevel n) (MaxLOD n)
    (Bounds n) (MinY n) (MaxY n) (IsLeaf n) (IsVisible n) i.

Definition set_IsLeaf (b : bool) (n : TerrainNode F) : TerrainNode F :=
  mkTerrainNode (nodeX n) (nodeZ n) (Size n) (LODLevel n) (MaxLOD n)
    (Bounds n) (MinY n) (MaxY n) b (IsVisible n) (ObjectCBIndex n).

(** [mRoot->MinY = minY; mRoot->MaxY = maxY;
     mRoot->Bounds.Center.y = cy; mRoot->Bounds.Extents.y = ey]. *)
Definition set_HeightRange (minY maxY cy ey : F) (n : TerrainNode F)
  : TerrainNode F :=
  let c := Center (Bounds n) in
  let e := Extents (Bounds n) in
  mkTerrainNode (nodeX n) (nodeZ n) (Size n) (LODLevel n) (MaxLOD n)
    (mkAABB (mkFloat3 (f3x c) cy (f3z c)) (mkFloat3 (f3x e) ey (f3z e)))
    minY maxY (IsLeaf n) (IsVisible n) (ObjectCBIndex n).

(** The frustum is a [const XMFLOAT4*]; it is read at indices 0..5. *)
Definition Frustum : Type := nat -> XMFLOAT4 F.

(** The corner of the box farthest along the plane normal. *)
Definition positive_vertex (b : BoundingBoxAABB F) (pl : XMFLOAT4 F)
  : XMFLOAT3 F :=
  let c := Center b in
  let e := Extents b in
  mkFloat3
    (if f4x pl >=? of_Z 0 then f3x c + f3x e else f3x c - f3x e)
    (if f4y pl >=? of_Z 0 then f3y c + f3y e else f3y c - f3y e)
    (if f4z pl >=? of_Z 0 then f3z c + f3z e else f3z c - f3z e).

Definition plane_distance (pl : XMFLOAT4 F) (v : XMFLOAT3 F) : F :=
  f4x pl * f3x v + f4y pl * f3y v + f4z pl * f3z v + f4w pl.

(** [BoundingBoxAABB::Intersects]: the loop returns [false] at the first
    plane whose positive vertex is behind it. *)
Definition Intersects (b : BoundingBoxAABB F) (frustumPlanes : Frustum)
  : bool :=
  forallb
    (fun p =>
       let pl := frustumPlanes p in
       negb (plane_distance pl (positive_vertex b pl) <? of_Z 0))
    (seq 0 6).

(** The default node, [TerrainNode() = default]. *)
Definition default_node : TerrainNode F :=
  let zero := of_Z 0 in
  mkTerrainNode zero zero zero 0 0
    (mkAABB (mkFloat3 zero zero zero) (mkFloat3 zero zero zero))
    zero zero true false 0.

(** The fields [QuadTree::BuildTree] writes before it decides whether
    to split. *)
Definition built_node (maxLODLevels : Z) (x z size : F) (depth : Z)
  : TerrainNode F :=
  let minY := of_Z 0 in
  let maxY := of_Z 100 in
  let yMid := (minY + maxY) * of_ratio 1 2 in
  let yExt := (maxY - minY) * of_ratio 1 2 + of_Z 10 in
  mkTerrainNode x z size depth (maxLODLevels - 1)
    (mkAABB (mkFloat3 x yMid z)
            (mkFloat3 (size * of_ratio 1 2) yExt (size * of_ratio 1 2)))
    minY maxY (IsLeaf default_node) (IsVisible default_node)
    (ObjectCBIndex default_node).

Definition canSplit (minNodeSize : F) (maxLODLevels : Z) (size : F)
  (depth : Z) : bool :=
  (size >? minNodeSize) && (depth <? maxLODLevels - 1)%Z.

(** [QuadTree::BuildTree].  The recursion of the source is bounded by
    [depth < mMaxLODLevels - 1]; the model recurses on [fuel] and
    answers [None] when it runs out.  The second component threads
    [mTotalNodeCount]. *)
Fixpoint BuildTree (fuel : nat) (minNodeSize : F) (maxLODLevels : Z)
  (x z size : F) (depth : Z) (total : Z) : option (NodePtr F * Z) :=
  match fuel with
  | O => None
  | S fuel' =>
      let node := built_node maxLODLevels x z size depth in
      let total := Int.wrap_int (total + 1) in
      if negb (canSplit minNodeSize maxLODLevels size depth) then
        Some (Node (set_IsLeaf true node) Null Null Null Null, total)
      else
        let node := set_IsLeaf false node in
        let half := size * of_ratio 1 2 in
        let quarter := size * of_ratio 1 4 in
        let build := BuildTree fuel' minNodeSize maxLODLevels in
        do (c0, total) <- build (x - quarter) (z + quarter) half (depth + 1)%Z total;
        do (c1, total) <- build (x + quarter) (z + quarter) half (depth + 1)%Z total;
        do (c2, total) <- build (x - quarter) (z - quarter) half (depth + 1)%Z total;
        do (c3, total) <- build (x + quarter) (z - quarter) half (depth + 1)%Z total;
        Some (Node node c0 c1 c2 c3, total)
  end.

(** The table [Initialize] derives when none was installed:
    entry [i] is [minNodeSize * (float)(1 << (maxLODLevels - i - 1)) * 2].
    A shift of 31 bits or more overflows [int] (undefined in C++); the
    model wraps the mathematical value, which gives 0 from 32 bits on,
    where a processor that masks the shift count gives another
    value. *)
Definition default_LODDistances (minNodeSize : F) (maxLODLevels : Z)
  : list F :=
  map (fun i =>
         let shift := (maxLODLevels - Z.of_nat i - 1)%Z in
         let base := minNodeSize * of_Z (Int.wrap_int (Z.shiftl 1 shift)) in
         base * of_Z 2)
      (seq 0 (Z.to_nat maxLODLevels)).

(** The constructor [QuadTree::QuadTree]. *)
Definition new_QuadTree : QuadTree F :=
  mkQuadTree Null (of_Z 0) (of_Z 0) 0 [] 0 0 0.

Definition SetLODDistances (distances : list F) (q : QuadTree F)
  : QuadTree F :=
  mkQuadTree (mRoot q) (mTerrainSize q) (mMinNodeSize q) (mMaxLODLevels q)
    distances (mVisibleNodeCount q) (mTotalNodeCount q)
    (mNextObjectCBIndex q).

(** [QuadTree::Initialize].  [None] stands for the two ways the call
    does not return a tree: [resize((size_t)maxLODLevels)] throws for a
    negative count, and the fuel of [BuildTree] (never exhausted, see
    [Initialize_returns]). *)
Definition Initialize (terrainSize minNodeSize : F) (maxLODLevels : Z)
  (q : QuadTree F) : option (QuadTree F) :=
  do dists <-
    (match mLODDistances q with
     | [] => if (maxLODLevels <? 0)%Z then None
             else Some (default_LODDistances minNodeSize maxLODLevels)
     | _ :: _ => Some (mLODDistances q)
     end);
  do (root, total) <-
    BuildTree (S (Z.to_nat (maxLODLevels - 1))) minNodeSize maxLODLevels
      (of_Z 0) (of_Z 0) terrainSize 0 0;
  Some (mkQuadTree root terrainSize minNodeSize maxLODLevels dists
          0 total 0).

(** [QuadTree::CalculateLOD]. *)
Definition camera_distance (node : TerrainNode F) (cameraPos : XMFLOAT3 F)
  : F :=
  let cx := nodeX node in
  let cz := nodeZ node in
  let cy := (MinY node + MaxY node) * of_ratio 1 2 in
  let dx := f3x cameraPos - cx in
  let dy := f3y cameraPos - cy in
  let dz := f3z cameraPos - cz in
  fsqrt (dx * dx + dy * dy + dz * dz).

(** The loop [for (i = 0; i < size; ++i) if (dist < table[i]) return i;]
    started at index [i]. *)
Fixpoint first_exceeding (dist : F) (table : list F) (i : Z) : option Z :=
  match table with
  | [] => None
  | t :: rest =>
      if dist <? t then Some i else first_exceeding dist rest (i + 1)%Z
  end.

Definition CalculateLOD (q : QuadTree F) (node : TerrainNode F)
  (cameraPos : XMFLOAT3 F) : Z :=
  match first_exceeding (camera_distance node cameraPos)
          (mLODDistances q) 0 with
  | Some i => i
  | None => (mMaxLODLevels q - 1)%Z
  end.

(** [QuadTree::ShouldSubdivide]. *)
Definition ShouldSubdivide (node : TerrainNode F) (cameraPos : XMFLOAT3 F)
  : bool :=
  if IsLeaf node then false
  else
    let dx := f3x cameraPos - nodeX node in
    let dz := f3z cameraPos - nodeZ node in
    let distXZ := fsqrt (dx * dx + dz * dz) in
    distXZ <? Size node * of_ratio 3 2.

(** The two counters [UpdateNode] advances. *)
Record Counters : Type := mkCounters {
  visibleNodeCount : Z;     (* int mVisibleNodeCount *)
  nextObjectCBIndex : Z     (* UINT mNextObjectCBIndex *)
}.

(** [QuadTree::UpdateNode].  The callers' guards [if (mRoot)] and
    [if (node->Children[i])] are the [Null] case. *)
Fixpoint UpdateNode (q : QuadTree F) (cameraPos : XMFLOAT3 F)
  (frustumPlanes : Frustum) (node : NodePtr F) (st : Counters)
  : NodePtr F * Counters :=
  match node with
  | Null => (Null, st)
  | Node d c0 c1 c2 c3 =>
      let d := set_IsVisible (Intersects (Bounds d) frustumPlanes) d in
      if negb (IsVisible d) then (Node d c0 c1 c2 c3, st)
      else
        let d := set_LODLevel (CalculateLOD q d cameraPos) d in
        let descend := negb (IsLeaf d) && ShouldSubdivide d cameraPos in
        if descend then
          let d := set_IsVisible false d in
          let '(c0, st) := UpdateNode q cameraPos frustumPlanes c0 st in
          let '(c1, st) := UpdateNode q cameraPos frustumPlanes c1 st in
          let '(c2, st) := UpdateNode q cameraPos frustumPlanes c2 st in
          let '(c3, st) := UpdateNode q cameraPos frustumPlanes c3 st in
          (Node d c0 c1 c2 c3, st)
        else
          let d := set_ObjectCBIndex (nextObjectCBIndex st) d in
          (Node d c0 c1 c2 c3,
           mkCounters (Int.wrap_int (visibleNodeCount st + 1))
                      (Int.wrap_uint (nextObjectCBIndex st + 1)))
  end.

(** [QuadTree::Update]. *)
Definition Update (cameraPos : XMFLOAT3 F) (frustumPlanes : Frustum)
  (q : QuadTree F) : QuadTree F :=
  let '(root, st) :=
    UpdateNode q cameraPos frustumPlanes (mRoot q) (mkCounters 0 0) in
  mkQuadTree root (mTerrainSize q) (mMinNodeSize q) (mMaxLODLevels q)
    (mLODDistances q) (visibleNodeCount st) (mTotalNodeCount q)
    (nextObjectCBIndex st).

(** [QuadTree::CollectVisibleNodes]; [here] is the handle of [node]. *)
Fixpoint CollectVisibleNodes (node : NodePtr F) (here : Handle)
  : list Handle :=
  match node with
  | Null => []
  | Node d c0 c1 c2 c3 =>
      if IsVisible d then [here]
      else if IsLeaf d then []
      else
        CollectVisibleNodes c0 (here ++ [0%nat])
        ++ CollectVisibleNodes c1 (here ++ [1%nat])
        ++ CollectVisibleNodes c2 (here ++ [2%nat])
        ++ CollectVisibleNodes c3 (here ++ [3%nat])
  end.

(** [QuadTree::GetVisibleNodes]: the contents of [outNodes] on return. *)
Definition GetVisibleNodes (q : QuadTree F) : list Handle :=
  CollectVisibleNodes (mRoot q) [].

Definition GetVisibleNodeCount (q : QuadTree F) : Z := mVisibleNodeCount q.
Definition GetTotalNodeCount (q : QuadTree F) : Z := mTotalNodeCount q.

(** [QuadTree::SetHeightRange]; [x], [z] and [size] are ignored. *)
Definition SetHeightRange (x z size minY maxY : F) (q : QuadTree F)
  : QuadTree F :=
  match mRoot q with
  | Null => q
  | Node d c0 c1 c2 c3 =>
      let cy := (minY + maxY) * of_ratio 1 2 in
      let ey := (maxY - minY) * of_ratio 1 2 + of_Z 10 in
      mkQuadTree (Node (set_HeightRange minY maxY cy ey d) c0 c1 c2 c3)
        (mTerrainSize q) (mMinNodeSize q) (mMaxLODLevels q)
        (mLODDistances q) (mVisibleNodeCount q) (mTotalNodeCount q)
        (mNextObjectCBIndex q)
  end.

(** Following a handle. *)
Definition child (node : NodePtr F) (i : nat) : NodePtr F :=
  match node with
  | Null => Null
  | Node _ c0 c1 c2 c3 =>
      match i with
      | 0%nat => c0
      | 1%nat => c1
      | 2%nat => c2
      | 3%nat => c3
      | _ => Null
      end
  end.

Fixpoint subtree_at (node : NodePtr F) (h : Handle) : NodePtr F :=
  match h with
  | [] => node
  | i :: h' => subtree_at (child node i) h'
  end.

Definition node_at (node : NodePtr F) (h : Handle) : option (TerrainNode F) :=
  match subtree_at node h with
  | Null => None
  | Node d _ _ _ _ => Some d
  end.

End Operations.

End QT.

(** ** Loops and vectors *)

(** [for (i = 0; i < n; ++i) body]. *)
Definition for_range {S : Type} (n : nat) (body : nat -> S -> S) (s : S) : S :=
  fold_left (fun s i => body i s) (seq 0 n) s.

(** [v[i] = a] on a [std::vector]; an index outside the vector (undefined
    in C++) leaves the model unchanged. *)
Fixpoint vec_set {A : Type} (i : nat) (a : A) (v : list A) : list A :=
  match v, i with
  | [], _ => []
  | _ :: v', O => a :: v'
  | b :: v', S i' => b :: vec_set i' a v'
  end.

(** ** Terrain.h and its implementation file *)

Module TR.

Record Terrain (F : Type) : Type := mkTerrain {
  mTerrainSize : F;
  mMinHeight : F;
  mMaxHeight : F;
  mHeightmapWidth : Z;        (* UINT *)
  mHeightmapHeight : Z;       (* UINT *)
  mHeightmap : list F;        (* std::vector<float> *)
  mPermutation : list Z       (* std::vector<int>, 512 entries *)
}.

(** Reads of the height grid are logged: a computation yields the texel
    coordinates [(column, row)] it has addressed and its result, [None]
    standing for a read outside the vector. *)
Definition Rd (A : Type) : Type := (list (Z * Z) * option A)%type.

Definition rd_ret {A : Type} (a : A) : Rd A := ([], Some a).

Definition rd_bind {A B : Type} (m : Rd A) (k : A -> Rd B) : Rd B :=
  match m with
  | (l, Some a) => let '(l', r) := k a in (l ++ l', r)
  | (l, None) => (l, None)
  end.

(** [std::istream::read(buf, n)] on a stream positioned at the start of
    [file]: the bytes delivered, and the file offsets they came from. *)
Definition istream_read (file : list Byte.byte) (n : nat)
  : list Byte.byte * list nat :=
  (firstn n file, seq 0 (Nat.min n (length file))).

Definition byte_val (b : Byte.byte) : Z := Z.of_nat (Byte.to_nat b).

(** The memory of a zero-initialised [std::vector] of [n] bytes after
    [read] stored [got] at its start. *)
Definition raw_bytes (n : nat) (got : list Byte.byte) : list Z :=
  map byte_val got ++ repeat 0 (n - length got).

(** Element [i] of a [std::vector<std::uint16_t>] laid over those bytes
    (little-endian). *)
Definition raw16 (mem : list Z) (i : nat) : Z :=
  nth (2 * i) mem 0 + 256 * nth (2 * i + 1) mem 0.

Definition raw8 (mem : list Z) (i : nat) : Z := nth i mem 0.

Section Operations.
Context {F : Type} {SF : Scalar F}.
Local Open Scope scalar_scope.

(** The external [XMVector3Normalize] of DirectXMath. *)
Variable XMVector3Normalize : XMFLOAT3 F -> XMFLOAT3 F.

(** The constructor; [base] is the table [0..255] after
    [std::shuffle]. *)
Definition new_Terrain (terrainSize minHeight maxHeight : F)
  (base : list Z) : Terrain F :=
  mkTerrain terrainSize minHeight maxHeight 0 0 []
    (for_range 256
       (fun i perm =>
          vec_set (i + 256) (nth i base 0%Z) (vec_set i (nth i base 0%Z) perm))
       (repeat 0%Z 512)).

Definition set_heightmap (width height : Z) (grid : list F)
  (t : Terrain F) : Terrain F :=
  mkTerrain (mTerrainSize t) (mMinHeight t) (mMaxHeight t) width height
    grid (mPermutation t).

(** [Terrain::LoadHeightmap].  [file] is the content of the file
    [filename], [None] when it cannot be opened.  The result is the
    returned flag, the object afterwards and the file offsets read. *)
Definition LoadHeightmap (file : option (list Byte.byte))
  (width height : Z) (is16Bit : bool) (t : Terrain F)
  : bool * Terrain F * list nat :=
  match file with
  | None => (false, t, [])
  | Some data =>
      let count := Z.to_nat (width * height) in
      let grid := repeat (of_Z 0) count in
      if is16Bit then
        let '(got, offsets) := istream_read data (count * 2) in
        let raw := raw_bytes (count * 2) got in
        let grid :=
          for_range count
            (fun i g => vec_set i (of_Z (raw16 raw i) / of_Z 65535) g)
            grid in
        (true, set_heightmap width height grid t, offsets)
      else
        let '(got, offsets) := istream_read data count in
        let raw := raw_bytes count got in
        let grid :=
          for_range count
            (fun i g => vec_set i (of_Z (raw8 raw i) / of_Z 255) g)
            grid in
        (true, set_heightmap width height grid t, offsets)
  end.

(** [Terrain::Fade], [Terrain::Lerp], [Terrain::Grad]. *)
Definition Fade (t : F) : F :=
  t * t * t * (t * (t * of_Z 6 - of_Z 15) + of_Z 10).

Definition Lerp (a b t : F) : F := a + t * (b - a).

Definition Grad (hash : Z) (x z : F) : F :=
  let h := Z.land hash 3 in
  let u := if (h <? 2)%Z then x else z in
  let v := if (h <? 2)%Z then z else x in
  let a := if (Z.land h 1 =? 0)%Z then u else fneg u in
  let b := if (Z.land h 2 =? 0)%Z then v else fneg v in
  a + b.

Definition perm_at (t : Terrain F) (i : Z) : Z :=
  nth (Z.to_nat i) (mPermutation t) 0%Z.

(** [Terrain::PerlinNoise]. *)
Definition PerlinNoise (t : Terrain F) (x z : F) : F :=
  let X := Z.land (to_int (ffloor x)) 255 in
  let Z := Z.land (to_int (ffloor z)) 255 in
  let x := x - ffloor x in
  let z := z - ffloor z in
  let u := Fade x in
  let v := Fade z in
  let A := (perm_at t X + Z)%Z in
  let B := (perm_at t (X + 1) + Z)%Z in
  let g00 := Grad (perm_at t A) x z in
  let g10 := Grad (perm_at t B) (x - of_Z 1) z in
  let g01 := Grad (perm_at t (A + 1)) x (z - of_Z 1) in
  let g11 := Grad (perm_at t (B + 1)) (x - of_Z 1) (z - of_Z 1) in
  let ix0 := Lerp g00 g10 u in
  let ix1 := Lerp g01 g11 u in
  Lerp ix0 ix1 v.

(** The octave loop of [GenerateProceduralHeightmap]; the state is
    [(sum, amp, freq, ampSum)]. *)
Definition octave_step (t : Terrain F) (nx nz : F)
  (s : F * F * F * F) : F * F * F * F :=
  let '(sum, amp, freq, ampSum) := s in
  (sum + PerlinNoise t (nx * freq) (nz * freq) * amp,
   amp * of_ratio 1 2,
   freq * of_Z 2,
   ampSum + amp).

(** The value [v] computed for cell [(x, z)]. *)
Definition fractal_value (t : Terrain F) (width height : Z)
  (frequency : F) (octaves : Z) (x z : nat) : F :=
  let nx := of_Z (Z.of_nat x) / of_Z width in
  let nz := of_Z (Z.of_nat z) / of_Z height in
  let '(sum, _, _, ampSum) :=
    for_range (Z.to_nat octaves) (fun _ => octave_step t nx nz)
      (of_Z 0, of_Z 1, frequency, of_Z 0) in
  (sum / ampSum + of_Z 1) * of_ratio 1 2.

(** The state of the two cell loops: the grid, [hi] and [lo]. *)
Definition cell_step (t : Terrain F) (width height : Z) (frequency : F)
  (octaves : Z) (z x : nat) (s : list F * F * F) : list F * F * F :=
  let '(grid, hi, lo) := s in
  let v := fractal_value t width height frequency octaves x z in
  (vec_set (z * Z.to_nat width + x) v grid, fmax hi v, fmin lo v).

Definition generate_cells (t : Terrain F) (width height : Z)
  (frequency : F) (octaves : Z) : list F * F * F :=
  for_range (Z.to_nat height)
    (fun z => for_range (Z.to_nat width)
                (cell_step t width height frequency octaves z))
    (repeat (of_Z 0) (Z.to_nat (width * height)), of_Z 0, of_Z 1).

(** [Terrain::GenerateProceduralHeightmap]. *)
Definition GenerateProceduralHeightmap (width height : Z) (frequency : F)
  (octaves : Z) (t : Terrain F) : Terrain F :=
  let '(grid, hi, lo) := generate_cells t width height frequency octaves in
  let range := hi - lo in
  let grid :=
    if range >? of_ratio 1 1000
    then map (fun h => (h - lo) / range) grid
    else grid in
  set_heightmap width height grid t.

(** [Terrain::SampleHeight]. *)
Definition SampleHeight (t : Terrain F) (x z : Z) : Rd F :=
  let maxX := (Int.wrap_int (Int.wrap_int (mHeightmapWidth t) - 1))%Z in
  let maxZ := (Int.wrap_int (Int.wrap_int (mHeightmapHeight t) - 1))%Z in
  let x := Z.max 0 (Z.min x maxX) in
  let z := Z.max 0 (Z.min z maxZ) in
  let i := (z * mHeightmapWidth t + x)%Z in
  ([(x, z)],
   if (i <? 0)%Z then None else nth_error (mHeightmap t) (Z.to_nat i)).

(** [Terrain::GetHeight]. *)
Definition GetHeight (t : Terrain F) (x z : F) : Rd F :=
  match mHeightmap t with
  | [] => rd_ret (of_Z 0)
  | _ :: _ =>
      let u := (x / mTerrainSize t + of_ratio 1 2) * of_Z (mHeightmapWidth t) in
      let v := (z / mTerrainSize t + of_ratio 1 2) * of_Z (mHeightmapHeight t) in
      let x0 := to_int (ffloor u) in
      let z0 := to_int (ffloor v) in
      let fx := u - of_Z x0 in
      let fz := v - of_Z z0 in
      rd_bind (SampleHeight t x0 z0) (fun h00 =>
      rd_bind (SampleHeight t (Int.wrap_int (x0 + 1)) z0) (fun h10 =>
      rd_bind (SampleHeight t x0 (Int.wrap_int (z0 + 1))) (fun h01 =>
      rd_bind (SampleHeight t (Int.wrap_int (x0 + 1)) (Int.wrap_int (z0 + 1)))
        (fun h11 =>
      let hx0 := h00 + (h10 - h00) * fx in
      let hx1 := h01 + (h11 - h01) * fx in
      let h := hx0 + (hx1 - hx0) * fz in
      rd_ret (mMinHeight t + h * (mMaxHeight t - mMinHeight t))))))
  end.

(** [Terrain::GetNormal]. *)
Definition GetNormal (t : Terrain F) (x z : F) : Rd (XMFLOAT3 F) :=
  let step := mTerrainSize t / of_Z (mHeightmapWidth t) in
  rd_bind (GetHeight t (x - step) z) (fun hL =>
  rd_bind (GetHeight t (x + step) z) (fun hR =>
  rd_bind (GetHeight t x (z - step)) (fun hD =>
  rd_bind (GetHeight t x (z + step)) (fun hU =>
  rd_ret (XMVector3Normalize
            (mkFloat3 (hL - hR) (of_Z 2 * step) (hD - hU))))))).

End Operations.

End TR.

(** ** More of the implementation file of class [Terrain] *)

Module TRMore.
Import TR.

Section Operations.
Context {F : Type} {SF : Scalar F}.
Local Open Scope scalar_scope.

(** [Terrain::LoadHeightmapDDS].  [texture] is what the external
    [CreateDDSTextureFromFile12] delivers: [None] for a failed
    [HRESULT], otherwise [Width] (a [UINT64]) and [Height] (a [UINT])
    of the resource description.  The texels of the texture are not
    read: the grid is filled from [PerlinNoise]. *)
Definition LoadHeightmapDDS (texture : option (Z * Z)) (t : Terrain F)
  : bool * Terrain F :=
  match texture with
  | None => (false, t)
  | Some (descWidth, descHeight) =>
      let width := Int.wrap_uint descWidth in
      let height := descHeight in
      let grid := repeat (of_Z 0) (Z.to_nat (width * height)) in
      let grid :=
        for_range (Z.to_nat height)
          (fun z =>
             for_range (Z.to_nat width)
               (fun x g =>
                  let fx := of_Z (Z.of_nat x) / of_Z width in
                  let fz := of_Z (Z.of_nat z) / of_Z height in
                  let n := PerlinNoise t (fx * of_Z 4) (fz * of_Z 4) in
                  vec_set (z * Z.to_nat width + x)
                    (n * of_ratio 1 2 + of_ratio 1 2) g))
          grid in
      (true, set_heightmap width height grid t)
  end.

(** The indices at which [Terrain::PerlinNoise] reads
    [mPermutation], in the order of the source: [X], [X + 1], [A],
    [B], [A + 1], [B + 1]. *)
Definition PerlinNoise_lookups (t : Terrain F) (x z : F) : list Z :=
  let X := Z.land (to_int (ffloor x)) 255 in
  let Z := Z.land (to_int (ffloor z)) 255 in
  let A := (perm_at t X + Z)%Z in
  let B := (perm_at t (X + 1) + Z)%Z in
  [X; (X + 1)%Z; A; B; (A + 1)%Z; (B + 1)%Z].

End Operations.

End TRMore.

(** ** [Terrain::BuildGeometry] and the draw loop of [TerrainApp] *)

Module Geo.
Import QT.

Import String.

Record TerrainVertex (F : Type) : Type := mkVertex {
  Pos : XMFLOAT3 F;
  Normal : XMFLOAT3 F;
  TexC : F * F
}.

Record SubmeshGeometry : Type := mkSubmesh {
  IndexCount : Z;             (* UINT *)
  StartIndexLocation : Z;     (* UINT *)
  BaseVertexLocation : Z      (* INT *)
}.

(** [std::unordered_map<std::string, SubmeshGeometry>]: the value stored
    under a key, if any. *)
Definition SubmeshMap : Type := string -> option SubmeshGeometry.

Definition map_empty : SubmeshMap := fun _ => None.

(** [m[key] = sm]. *)
Definition map_assign (key : string) (sm : SubmeshGeometry)
  (m : SubmeshMap) : SubmeshMap :=
  fun k => if String.eqb k key then Some sm else m k.

(** Reading [m[key]]: a missing key is inserted with a
    value-initialised submesh. *)
Definition map_index (m : SubmeshMap) (key : string) : SubmeshGeometry :=
  match m key with
  | Some sm => sm
  | None => mkSubmesh 0 0 0
  end.

(** The CPU side of the [MeshGeometry] that [BuildGeometry] fills. *)
Record MeshGeometry (F : Type) : Type := mkMesh {
  Name : string;
  Vertices : list (TerrainVertex F);
  Indices : list Z;                    (* std::uint32_t *)
  DrawArgs : SubmeshMap;
  VertexByteStride : Z;
  VertexBufferByteSize : Z;
  IndexBufferByteSize : Z
}.

Definition kNames : list string :=
  ["lod0"; "lod1"; "lod2"; "lod3"; "lod4"]%string.

(** [Terrain::GetLODMeshName]. *)
Definition GetLODMeshName (lod : Z) : string :=
  if (lod <? 0) || (lod >=? 5) then nth 0 kNames EmptyString
  else nth (Z.to_nat lod) kNames EmptyString.

Definition kGrid : list Z := [256; 128; 64; 32; 16].

(** [sizeof(TerrainVertex)] and [sizeof(std::uint32_t)]. *)
Definition sizeof_TerrainVertex : Z := 32.
Definition sizeof_uint32 : Z := 4.

Section Build.
Context {F : Type} {SF : Scalar F}.
Local Open Scope scalar_scope.

(** The vertex pushed for column [x] of row [z]. *)
Definition grid_vertex (inv : F) (x z : nat) : TerrainVertex F :=
  let w := of_Z (Z.of_nat z) * inv in
  let u := of_Z (Z.of_nat x) * inv in
  mkVertex (mkFloat3 (u - of_ratio 1 2) (of_Z 0) (w - of_ratio 1 2))
    (mkFloat3 (of_Z 0) (of_Z 1) (of_Z 0))
    (u, w).

(** The six indices pushed for the cell [(x, z)]; the arithmetic is
    that of [UINT]. *)
Definition cell_indices (vtxStart rowStride : Z) (x z : nat) : list Z :=
  let i0 :=
    Int.wrap_uint
      (Int.wrap_uint (vtxStart + Int.wrap_uint (Z.of_nat z * rowStride))
       + Z.of_nat x) in
  let i1 := Int.wrap_uint (i0 + 1) in
  let i2 :=
    Int.wrap_uint
      (Int.wrap_uint
         (vtxStart
          + Int.wrap_uint (Int.wrap_uint (Z.of_nat z + 1) * rowStride))
       + Z.of_nat x) in
  let i3 := Int.wrap_uint (i2 + 1) in
  [i0; i2; i1; i1; i2; i3].

(** One round of the loop over the five levels. *)
Definition build_lod (lod : nat)
  (s : list (TerrainVertex F) * list Z * SubmeshMap)
  : list (TerrainVertex F) * list Z * SubmeshMap :=
  let '(verts, inds, args) := s in
  let grid := nth lod kGrid 0%Z in
  let vtxStart := Int.wrap_uint (Z.of_nat (List.length verts)) in
  let idxStart := Int.wrap_uint (Z.of_nat (List.length inds)) in
  let inv := of_Z 1 / of_Z grid in
  let verts :=
    for_range (Z.to_nat grid + 1)
      (fun z =>
         for_range (Z.to_nat grid + 1)
           (fun x verts => verts ++ [grid_vertex inv x z]))
      verts in
  let rowStride := Int.wrap_uint (grid + 1) in
  let inds :=
    for_range (Z.to_nat grid)
      (fun z =>
         for_range (Z.to_nat grid)
           (fun x inds => inds ++ cell_indices vtxStart rowStride x z))
      inds in
  let sm :=
    mkSubmesh (Int.wrap_uint (Int.wrap_uint (grid * grid) * 6))
      idxStart 0 in
  (verts, inds, map_assign (GetLODMeshName (Z.of_nat lod)) sm args).

(** [Terrain::BuildGeometry], up to the creation of the GPU
    buffers. *)
Definition BuildGeometry : MeshGeometry F :=
  let '(verts, inds, args) :=
    for_range 5 build_lod ([], [], map_empty) in
  let vbBytes :=
    Int.wrap_uint
      (Int.wrap_uint (Z.of_nat (List.length verts))
       * sizeof_TerrainVertex) in
  let ibBytes :=
    Int.wrap_uint
      (Int.wrap_uint (Z.of_nat (List.length inds)) * sizeof_uint32) in
  mkMesh "terrainGeo"%string verts inds args sizeof_TerrainVertex vbBytes
    ibBytes.

(** The arguments of one [DrawIndexedInstanced] call and the offset of
    the constant buffer bound for it. *)
Record DrawCall : Type := mkDrawCall {
  objectOffset : Z;
  drawIndexCount : Z;
  drawStartIndex : Z;
  drawBaseVertex : Z
}.

(** [(node->LODLevel < 4) ? node->LODLevel : 4]. *)
Definition mesh_level (node : TerrainNode F) : Z :=
  if (LODLevel node <? 4)%Z then LODLevel node else 4%Z.

(** The loop of [TerrainApp::DrawTerrainNodes] over [mDrawNodes]. *)
Definition DrawTerrainNodes (geo : MeshGeometry F) (objCBByteSize : Z)
  (mDrawNodes : list (TerrainNode F)) : list DrawCall :=
  map (fun inode =>
         let i := fst inode in
         let node := snd inode in
         let lod := mesh_level node in
         let submesh := map_index (DrawArgs geo) (GetLODMeshName lod) in
         mkDrawCall (Z.of_nat i * objCBByteSize)%Z (IndexCount submesh)
           (StartIndexLocation submesh) (BaseVertexLocation submesh))
      (combine (seq 0 (List.length mDrawNodes)) mDrawNodes).

End Build.

End Geo.

(** ** [TerrainApp]: the frustum planes and the per-frame bookkeeping *)

Module App.
Import QT.

(** [XMFLOAT4X4]; the field [_ij] of the source is [mij]. *)
Record XMFLOAT4X4 (F : Type) : Type := mkFloat4x4 {
  m11 : F; m12 : F; m13 : F; m14 : F;
  m21 : F; m22 : F; m23 : F; m24 : F;
  m31 : F; m32 : F; m33 : F; m34 : F;
  m41 : F; m42 : F; m43 : F; m44 : F
}.

Section Planes.
Context {F : Type} {SF : Scalar F}.
Local Open Scope scalar_scope.

(** The external [XMPlaneNormalize] of DirectXMath. *)
Variable XMPlaneNormalize : XMFLOAT4 F -> XMFLOAT4 F.

(** The six assignments [planes[i] = { ... }]. *)
Definition plane_coefficients (M : XMFLOAT4X4 F) (i : nat) : XMFLOAT4 F :=
  match i with
  | 0%nat => mkFloat4 (m14 M + m11 M) (m24 M + m21 M) (m34 M + m31 M)
               (m44 M + m41 M)
  | 1%nat => mkFloat4 (m14 M - m11 M) (m24 M - m21 M) (m34 M - m31 M)
               (m44 M - m41 M)
  | 2%nat => mkFloat4 (m14 M + m12 M) (m24 M + m22 M) (m34 M + m32 M)
               (m44 M + m42 M)
  | 3%nat => mkFloat4 (m14 M - m12 M) (m24 M - m22 M) (m34 M - m32 M)
               (m44 M - m42 M)
  | 4%nat => mkFloat4 (m13 M) (m23 M) (m33 M) (m43 M)
  | _ => mkFloat4 (m14 M - m13 M) (m24 M - m23 M) (m34 M - m33 M)
           (m44 M - m43 M)
  end.

(** [TerrainApp::ExtractFrustumPlanes]: the contents of [planes[0..5]]
    on return. *)
Definition ExtractFrustumPlanes (viewProj : XMFLOAT4X4 F) : Frustum :=
  fun i => XMPlaneNormalize (plane_coefficients viewProj i).

End Planes.

End App.

Module AppFrame.
Import QT App.

(** [maxObjects] of [TerrainApp::BuildFrameResources]: the number of
    slots of each frame's object constant buffer. *)
Definition maxObjects : Z := 256.

Definition gNumFrameResources : Z := 3.

(** What [UpdatePerObjectCB] puts into an [ObjectConstants]: the
    arguments of the scaling and of the translation that make up
    [World] and [TexTransform], and the two integers. *)
Record ObjectConstants (F : Type) : Type := mkObjectConstants {
  worldScale : F;
  worldTranslation : F * F;
  texScale : F;
  texTranslation : F * F;
  MaterialIndex : Z;
  objLODLevel : Z
}.

Record AppState (F : Type) : Type := mkAppState {
  mQuadTree : QuadTree F;
  mDrawNodes : list Handle;
  mIsTerrainVisible : bool;
  mActiveFrameIndex : Z;
  (** the [CopyData(slot, obj)] calls of the last frame *)
  objectWrites : list (Z * ObjectConstants F)
}.

Section Frame.
Context {F : Type} {SF : Scalar F} {SQ : ScalarSqrt F}.
Local Open Scope scalar_scope.

Variable XMPlaneNormalize : XMFLOAT4 F -> XMFLOAT4 F.

(** The body of the loop of [TerrainApp::UpdatePerObjectCB]. *)
Definition object_constants (terrainSize : F) (node : TerrainNode F)
  : ObjectConstants F :=
  let nodeScale := Size node in
  let uvScale := Size node / terrainSize in
  let uvOffsetX :=
    nodeX node / terrainSize + of_ratio 1 2 - uvScale * of_ratio 1 2 in
  let uvOffsetZ :=
    nodeZ node / terrainSize + of_ratio 1 2 - uvScale * of_ratio 1 2 in
  mkObjectConstants nodeScale (nodeX node, nodeZ node) uvScale
    (uvOffsetX, uvOffsetZ) 0
    (if (LODLevel node <? 4)%Z then LODLevel node else 4%Z).

(** [TerrainApp::UpdatePerObjectCB]: the calls
    [currObjectCB->CopyData((int)i, obj)]. *)
Definition UpdatePerObjectCB (terrainSize : F)
  (nodes : list (TerrainNode F)) : list (Z * ObjectConstants F) :=
  map (fun inode =>
         (Int.wrap_int (Z.of_nat (fst inode)),
          object_constants terrainSize (snd inode)))
      (combine (seq 0 (length nodes)) nodes).

(** The nodes the pointers in [mDrawNodes] point to. *)
Definition pointees (root : NodePtr F) (hs : list Handle)
  : list (TerrainNode F) :=
  flat_map (fun h =>
              match node_at root h with
              | Some d => [d]
              | None => []
              end) hs.

(** [TerrainApp::Update] from the frame index on; the camera is
    external, and its position and view-projection matrix are
    arguments. *)
Definition TerrainApp_Update (terrainSize : F) (eye : XMFLOAT3 F)
  (viewProj : XMFLOAT4X4 F) (s : AppState F) : AppState F :=
  let frameIndex := ((mActiveFrameIndex s + 1) mod gNumFrameResources)%Z in
  let planes := ExtractFrustumPlanes XMPlaneNormalize viewProj in
  let q := QT.Update eye planes (mQuadTree s) in
  let nodes := GetVisibleNodes q in
  let visible := match nodes with [] => false | _ :: _ => true end in
  mkAppState q nodes visible frameIndex
    (UpdatePerObjectCB terrainSize (pointees (mRoot q) nodes)).

(** A run of frames. *)
Definition run_frames (terrainSize : F)
  (frames : list (XMFLOAT3 F * XMFLOAT4X4 F)) (s : AppState F)
  : AppState F :=
  fold_left
    (fun s f => TerrainApp_Update terrainSize (fst f) (snd f) s)
    frames s.

End Frame.

End AppFrame.

(** ** [TerrainApp]: the keyboard and the fallback height texture *)

Module AppInput.

(** The keys [HandleKeyboard] polls with [GetAsyncKeyState]: whether
    each is down. *)
Record Keys : Type := mkKeys {
  keyShift : bool;
  keyW : bool;
  keyS : bool;
  keyA : bool;
  keyD : bool;
  keyQ : bool;
  keyE : bool;
  key1 : bool
}.

Section Keyboard.
Context {F : Type} {SF : Scalar F}.
Local Open Scope scalar_scope.

(** The external class [Camera]. *)
Variable Camera : Type.
Variable Walk : F -> Camera -> Camera.
Variable Strafe : F -> Camera -> Camera.
Variable SetPosition : F -> F -> F -> Camera -> Camera.
Variable GetPosition3f : Camera -> XMFLOAT3 F.

Definition when (b : bool) (f : Camera -> Camera) (c : Camera) : Camera :=
  if b then f c else c.

(** [TerrainApp::HandleKeyboard]; the state is [mCamera],
    [mUseWireframe] and the function's static [keyLatch]. *)
Definition HandleKeyboard (dt : F) (keys : Keys)
  (s : Camera * bool * bool) : Camera * bool * bool :=
  let '(mCamera, mUseWireframe, keyLatch) := s in
  let moveSpeed := of_Z 100 in
  let moveSpeed :=
    if keyShift keys then moveSpeed * of_Z 3 else moveSpeed in
  let mCamera := when (keyW keys) (Walk (moveSpeed * dt)) mCamera in
  let mCamera :=
    when (keyS keys) (Walk (fneg moveSpeed * dt)) mCamera in
  let mCamera :=
    when (keyA keys) (Strafe (fneg moveSpeed * dt)) mCamera in
  let mCamera := when (keyD keys) (Strafe (moveSpeed * dt)) mCamera in
  let mCamera :=
    when (keyQ keys)
      (fun c =>
         SetPosition (f3x (GetPosition3f c))
           (f3y (GetPosition3f c) + moveSpeed * dt)
           (f3z (GetPosition3f c)) c)
      mCamera in
  let mCamera :=
    when (keyE keys)
      (fun c =>
         SetPosition (f3x (GetPosition3f c))
           (f3y (GetPosition3f c) - moveSpeed * dt)
           (f3z (GetPosition3f c)) c)
      mCamera in
  if key1 keys then
    if negb keyLatch then (mCamera, negb mUseWireframe, true)
    else (mCamera, mUseWireframe, keyLatch)
  else (mCamera, mUseWireframe, false).

(** One call per frame. *)
Definition handle_frames (frames : list (F * Keys))
  (s : Camera * bool * bool) : Camera * bool * bool :=
  fold_left (fun s f => HandleKeyboard (fst f) (snd f) s) frames s.

End Keyboard.

End AppInput.

Module AppTexture.
Import TR.

Section Fallback.
Context {F : Type} {SF : Scalar F}.
Local Open Scope scalar_scope.

(** One round of the inner loop: the store
    [heightData[z * width + x] = ...]; [None] when [GetHeight] reads
    outside its grid or the store is outside [heightData]. *)
Definition height_texel (t : Terrain F) (z x : nat)
  (data : option (list F)) : option (list F) :=
  let width := mHeightmapWidth t in
  let height := mHeightmapHeight t in
  let worldX :=
    of_Z (Z.of_nat x) / of_Z width * mTerrainSize t
    - mTerrainSize t * of_ratio 1 2 in
  let worldZ :=
    of_Z (Z.of_nat z) / of_Z height * mTerrainSize t
    - mTerrainSize t * of_ratio 1 2 in
  do data <- data;
  do h <- snd (GetHeight t worldX worldZ);
  let i :=
    Int.wrap_uint
      (Int.wrap_uint (Z.of_nat z * width) + Z.of_nat x) in
  if (i <? Z.of_nat (length data))%Z then
    Some (vec_set (Z.to_nat i)
            ((h - mMinHeight t) / (mMaxHeight t - mMinHeight t)) data)
  else None.

(** The vector [heightData] that [TerrainApp::BuildDescriptorHeaps]
    uploads when the height texture cannot be loaded. *)
Definition fallback_heightData (t : Terrain F) : option (list F) :=
  let width := mHeightmapWidth t in
  let height := mHeightmapHeight t in
  for_range (Z.to_nat height)
    (fun z => for_range (Z.to_nat width) (height_texel t z))
    (Some (repeat (of_Z 0)
             (Z.to_nat (Int.wrap_uint (width * height))))).

End Fallback.

End AppTexture.

(** ** The terrain shader and the constants [TerrainApp] hands it *)

Module Shader.
Import TR.

(** [cbuffer cbTerrain]. *)
Record TerrainConstants (F : Type) : Type := mkTerrainConstants {
  gMinHeight : F;
  gMaxHeight : F;
  gTerrainSize : F;
  gTexelSize : F;
  gHeightMapSize : F * F
}.

Section Code.
Context {F : Type} {SF : Scalar F}.
Local Open Scope scalar_scope.

(** [TerrainApp::UpdateTerrainCB]: the constants copied to the
    buffer. *)
Definition UpdateTerrainCB (t : Terrain F) : TerrainConstants F :=
  mkTerrainConstants (mMinHeight t) (mMaxHeight t) (mTerrainSize t)
    (of_Z 1 / of_Z (mHeightmapWidth t))
    (of_Z (mHeightmapWidth t), of_Z (mHeightmapHeight t)).

(** [gHeightMap.SampleLevel(gsamLinearClamp, uv, 0).r], the texture
    unit, and the intrinsic [normalize]. *)
Variable SampleLevel : F * F -> F.
Variable normalize : XMFLOAT3 F -> XMFLOAT3 F.

(** The intrinsic [saturate]: the clamp to [[0, 1]]. *)
Definition saturate (x : F) : F := fmin (fmax x (of_Z 0)) (of_Z 1).

Definition HeightRange (cb : TerrainConstants F) : F :=
  gMaxHeight cb - gMinHeight cb.

Definition HeightTexel (cb : TerrainConstants F) : F * F :=
  (of_Z 1 / fst (gHeightMapSize cb), of_Z 1 / snd (gHeightMapSize cb)).

Definition FetchHeight01 (uv : F * F) : F :=
  SampleLevel (saturate (fst uv), saturate (snd uv)).

Definition FetchHeightWorld (cb : TerrainConstants F) (uv : F * F) : F :=
  let h01 := saturate (FetchHeight01 uv) in
  gMinHeight cb + h01 * HeightRange cb.

Definition NormalFromHeight (cb : TerrainConstants F) (uv : F * F)
  : XMFLOAT3 F :=
  let d := HeightTexel cb in
  let hL := FetchHeightWorld cb (fst uv + fneg (fst d), snd uv + of_Z 0) in
  let hR := FetchHeightWorld cb (fst uv + fst d, snd uv + of_Z 0) in
  let hD := FetchHeightWorld cb (fst uv + of_Z 0, snd uv + fneg (snd d)) in
  let hU := FetchHeightWorld cb (fst uv + of_Z 0, snd uv + snd d) in
  let yScale := of_Z 2 * gTerrainSize cb / fst (gHeightMapSize cb) in
  normalize (mkFloat3 (hL - hR) yScale (hD - hU)).

End Code.

End Shader.

(** * Specification vocabulary *)

Module QTSpec.
Import QT.

Section Vocabulary.
Context {F : Type} {SF : Scalar F} {SQ : ScalarSqrt F}.

(** The nodes one [Update] selects as draw targets, as handles relative
    to [node], in depth-first order with children 0, 1, 2, 3: a node
    whose box passes the frustum test and that is not descended into. *)
Fixpoint draw_targets (cameraPos : XMFLOAT3 F) (frustumPlanes : Frustum)
  (node : NodePtr F) : list Handle :=
  match node with
  | Null => []
  | Node d c0 c1 c2 c3 =>
      if Intersects (Bounds d) frustumPlanes then
        if negb (IsLeaf d) && ShouldSubdivide d cameraPos then
          map (cons 0%nat) (draw_targets cameraPos frustumPlanes c0)
          ++ map (cons 1%nat) (draw_targets cameraPos frustumPlanes c1)
          ++ map (cons 2%nat) (draw_targets cameraPos frustumPlanes c2)
          ++ map (cons 3%nat) (draw_targets cameraPos frustumPlanes c3)
        else [[]]
      else []
  end.

(** [start], [start + 1], ..., [start + n - 1]. *)
Definition iota (start : Z) (n : nat) : list Z :=
  map (fun k => start + Z.of_nat k) (seq 0 n).

(** The visibility flag and the slot index of the nodes [hs]
    designates. *)
Definition slots (root : NodePtr F) (hs : list Handle)
  : list (option (bool * Z)) :=
  map (fun h =>
         option_map (fun d => (IsVisible d, ObjectCBIndex d))
           (node_at root h))
      hs.

(** The per-frame state of the node a handle designates. *)
Definition frame_state (root : NodePtr F) (h : Handle)
  : option (bool * Z * Z) :=
  option_map (fun d => (IsVisible d, LODLevel d, ObjectCBIndex d))
    (node_at root h).

(** Every node below (and including) [node], in depth-first order,
    with its depth; [depth] is the depth of [node] itself. *)
Fixpoint nodes_from (depth : nat) (node : NodePtr F)
  : list (nat * TerrainNode F) :=
  match node with
  | Null => []
  | Node d c0 c1 c2 c3 =>
      (depth, d)
      :: nodes_from (S depth) c0 ++ nodes_from (S depth) c1
      ++ nodes_from (S depth) c2 ++ nodes_from (S depth) c3
  end.

(** No node of the subtree carries a visibility flag. *)
Fixpoint all_hidden (node : NodePtr F) : bool :=
  match node with
  | Null => true
  | Node d c0 c1 c2 c3 =>
      negb (IsVisible d) && all_hidden c0 && all_hidden c1
      && all_hidden c2 && all_hidden c3
  end.

(** The eight corners of a box. *)
Definition corners (b : BoundingBoxAABB F) : list (XMFLOAT3 F) :=
  let c := Center b in
  let e := Extents b in
  flat_map (fun x =>
    flat_map (fun y =>
      map (fun z => mkFloat3 x y z)
        [fsub (f3z c) (f3z e); fadd (f3z c) (f3z e)])
      [fsub (f3y c) (f3y e); fadd (f3y c) (f3y e)])
    [fsub (f3x c) (f3x e); fadd (f3x c) (f3x e)].

(** The box lies entirely on the negative side of the plane. *)
Definition entirely_behind (b : BoundingBoxAABB F) (pl : XMFLOAT4 F)
  : bool :=
  forallb (fun v => flt (plane_distance pl v) (of_Z 0)) (corners b).

End Vocabulary.

(** *** Concrete frames, in binary32 *)

Definition camera_above_centre : XMFLOAT3 B32.t :=
  mkFloat3 (of_Z 0) (of_Z 50) (of_Z 0).

(** Six planes that contain everything: [0x + 0y + 0z + 1 >= 0]. *)
Definition planes_all_inside : Frustum (F := B32.t) :=
  fun _ => mkFloat4 (of_Z 0) (of_Z 0) (of_Z 0) (of_Z 1).

(** Six copies of the plane [x - 1000 >= 0]; the whole terrain is on its
    negative side. *)
Definition planes_looking_away : Frustum (F := B32.t) :=
  fun _ => mkFloat4 (of_Z 1) (of_Z 0) (of_Z 0) (of_Z (-1000)).

Definition built (o : option (QuadTree B32.t)) : QuadTree B32.t :=
  match o with
  | Some q => q
  | None => new_QuadTree
  end.

(** [Initialize(512, 256, 5)] on a fresh object: a root and four leaves. *)
Definition five_node_tree : QuadTree B32.t :=
  built (Initialize (of_Z 512) (of_Z 256) 5 new_QuadTree).

(** [SetLODDistances({10, 20, 30}); Initialize(40, 10, 2)]: three
    thresholds for two levels. *)
Definition long_table_tree : QuadTree B32.t :=
  built (Initialize (of_Z 40) (of_Z 10) 2
           (SetLODDistances [of_Z 10; of_Z 20; of_Z 30] new_QuadTree)).

Definition node_of (q : QuadTree B32.t) (h : Handle) : TerrainNode B32.t :=
  match node_at (mRoot q) h with
  | Some d => d
  | None => default_node
  end.

Definition camera_east : XMFLOAT3 B32.t :=
  mkFloat3 (of_Z 35) (of_Z 50) (of_Z 10).

End QTSpec.

Module TilingSpec.
Import QT QTSpec.

Section Vocabulary.
Context {F : Type} {SF : Scalar F}.

(** The half-open square of side [size] centred at [(cx, cz)]:
    [cx - size/2 <= px < cx + size/2], and the same along z. *)
Definition in_square (px pz cx cz size : F) : bool :=
  let half := fmul size (of_ratio 1 2) in
  fle (fsub cx half) px && flt px (fadd cx half)
  && fle (fsub cz half) pz && flt pz (fadd cz half).

Definition in_footprint (px pz : F) (n : TerrainNode F) : bool :=
  in_square px pz (nodeX n) (nodeZ n) (Size n).

(** How many leaf footprints contain the point. *)
Definition covering (px pz : F) (nodes : list (nat * TerrainNode F))
  : nat :=
  length
    (filter (fun kn => IsLeaf (snd kn) && in_footprint px pz (snd kn))
       nodes).

Definition indicator (b : bool) : nat := if b then 1 else 0.

End Vocabulary.

Definition pow2 (k : nat) : Q := inject_Z (2 ^ Z.of_nat k).

(** What [BuildTree] builds below a node of depth [dn], in exact
    arithmetic. *)
Definition built_below (M : Q) (D : Z) (x z size : Q) (dn : nat)
  (t : NodePtr Q) : Prop :=
  (forall k n,
      In (k, n) (nodes_from dn t) ->
      (dn <= k)%nat /\ (Z.of_nat k <= D - 1)%Z
      /\ (Size n * pow2 (k - dn) == size)%Q
      /\ (IsLeaf n = true <->
          ((Size n <= M)%Q \/ Z.of_nat k = (D - 1)%Z)))
  /\ (forall px pz,
        covering px pz (nodes_from dn t)
        = indicator (in_square px pz x z size)).

End TilingSpec.

Module TRSpec.
Import TR.

Section Vocabulary.
Context {F : Type}.

(** The grid has as many samples as its dimensions announce; every
    loader leaves the object in such a state. *)
Definition grid_consistent (t : Terrain F) : Prop :=
  0 <= mHeightmapWidth t /\ 0 <= mHeightmapHeight t
  /\ length (mHeightmap t)
     = Z.to_nat (mHeightmapWidth t * mHeightmapHeight t).

(** A texel coordinate inside [0, width-1] x [0, height-1]. *)
Definition in_grid (t : Terrain F) (texel : Z * Z) : Prop :=
  0 <= fst texel <= mHeightmapWidth t - 1
  /\ 0 <= snd texel <= mHeightmapHeight t - 1.

(** A computation that read inside the grid only, and inside the
    vector. *)
Definition reads_inside {A : Type} (t : Terrain F) (m : Rd A) : Prop :=
  snd m <> None /\ Forall (in_grid t) (fst m).

End Vocabulary.
End TRSpec.

Module GenSpec.
Import TR.

Section Vocabulary.
Context {F : Type} {SF : Scalar F}.

(** The values the cell loops compute, row by row. *)
Definition fractal_grid (t : Terrain F) (width height : Z) (frequency : F)
  (octaves : Z) : list F :=
  flat_map
    (fun z =>
       map (fun x => fractal_value t width height frequency octaves x z)
         (seq 0 (Z.to_nat width)))
    (seq 0 (Z.to_nat height)).

End Vocabulary.

(** The largest and the smallest sample of a grid of rationals. *)
Fixpoint grid_max (g : list Q) : Q :=
  match g with
  | [] => 0%Q
  | v :: g' =>
      match g' with
      | [] => v
      | _ :: _ => if Qle_bool (grid_max g') v then v else grid_max g'
      end
  end.

Fixpoint grid_min (g : list Q) : Q :=
  match g with
  | [] => 0%Q
  | v :: g' =>
      match g' with
      | [] => v
      | _ :: _ => if Qle_bool v (grid_min g') then v else grid_min g'
      end
  end.

End GenSpec.

Module Samples.
Import TR.

(** A shuffled table: [255, 254, ..., 0]. *)
Definition reversed_table : list Z := map Z.of_nat (rev (seq 0 256)).

(** A raw 8-bit file of four samples. *)
Definition four_bytes : list Byte.byte :=
  [Byte.x00; Byte.x40; Byte.x80; Byte.xff].

(** The terrain of size 512 and heights 0..150 after loading that file
    as a 2 x 2 grid, in binary32 and in exact arithmetic. *)
Definition small_terrain : Terrain B32.t :=
  snd (fst (LoadHeightmap (Some four_bytes) 2 2 false
              (new_Terrain (of_Z 512) (of_Z 0) (of_Z 150) reversed_table))).

Definition small_terrain_exact : Terrain Q :=
  snd (fst (LoadHeightmap (Some four_bytes) 2 2 false
              (new_Terrain (of_Z 512) (of_Z 0) (of_Z 150) reversed_table))).

Definition fresh_terrain_exact : Terrain Q :=
  new_Terrain (of_Z 512) (of_Z 0) (of_Z 150) reversed_table.

(** Stands for [XMVector3Normalize] in concrete runs. *)
Definition unnormalized (v : XMFLOAT3 B32.t) : XMFLOAT3 B32.t := v.

End Samples.

Module Binary32Samples.
Import QT TR QTSpec Samples.

(** The configuration of the application:
    [Initialize(512, 512 / 8, 5)]. *)
Definition application_tree : QuadTree B32.t :=
  built (Initialize (of_Z 512) (fdiv (of_Z 512) (of_Z 8)) 5 new_QuadTree).

(** [GenerateProceduralHeightmap(4, 4, 3.0f, 2)] on a fresh terrain. *)
Definition generated_terrain : Terrain B32.t :=
  GenerateProceduralHeightmap 4 4 (of_Z 3) 2
    (new_Terrain (of_Z 512) (of_Z 0) (of_Z 150) reversed_table).

End Binary32Samples.

Module QTMoreSpec.
Import QT QTSpec.

Section Vocabulary.
Context {F : Type} {SF : Scalar F} {SQ : ScalarSqrt F}.

(** A node without the three fields a frame writes. *)
Definition without_frame_state (n : TerrainNode F) : TerrainNode F :=
  set_ObjectCBIndex 0 (set_LODLevel 0 (set_IsVisible false n)).

(** The tree without its per-frame state: topology and geometry. *)
Fixpoint skeleton (node : NodePtr F) : NodePtr F :=
  match node with
  | Null => Null
  | Node d c0 c1 c2 c3 =>
      Node (without_frame_state d) (skeleton c0) (skeleton c1)
        (skeleton c2) (skeleton c3)
  end.

Definition is_null (node : NodePtr F) : bool :=
  match node with
  | Null => true
  | Node _ _ _ _ _ => false
  end.

(** Leaves own no child, the other nodes own all four. *)
Fixpoint leaves_and_quads (node : NodePtr F) : bool :=
  match node with
  | Null => true
  | Node d c0 c1 c2 c3 =>
      (if IsLeaf d
       then is_null c0 && is_null c1 && is_null c2 && is_null c3
       else negb (is_null c0) && negb (is_null c1)
            && negb (is_null c2) && negb (is_null c3))
      && leaves_and_quads c0 && leaves_and_quads c1
      && leaves_and_quads c2 && leaves_and_quads c3
  end.

Definition node_count (node : NodePtr F) : nat :=
  length (nodes_from 0 node).

(** The nodes a list of handles designates. *)
Definition designated (root : NodePtr F) (hs : list Handle)
  : list (TerrainNode F) :=
  flat_map (fun h =>
              match node_at root h with
              | Some d => [d]
              | None => []
              end) hs.

End Vocabulary.

(** [Initialize(512, 64, 5)] on a fresh object, kept as an option. *)
Definition application_like : option (QuadTree B32.t) :=
  Initialize (of_Z 512) (of_Z 64) 5 new_QuadTree.

End QTMoreSpec.

Module QTExactSpec.
Import QT QTSpec TilingSpec QTMoreSpec.

(** A stand-in for [std::sqrt] in exact runs (the integer square root of
    the integer part); the exact results are proved for every choice of
    square root. *)
Definition floor_sqrt : ScalarSqrt Q :=
  {| fsqrt := fun a => inject_Z (Z.sqrt (Qfloor a)) |}.

(** The box [inner] lies inside the box [outer], axis by axis. *)
Definition box_inside (inner outer : BoundingBoxAABB Q) : Prop :=
  let ci := Center inner in
  let ei := Extents inner in
  let co := Center outer in
  let eo := Extents outer in
  (f3x co - f3x eo <= f3x ci - f3x ei /\ f3x ci + f3x ei <= f3x co + f3x eo
   /\ f3y co - f3y eo <= f3y ci - f3y ei
   /\ f3y ci + f3y ei <= f3y co + f3y eo
   /\ f3z co - f3z eo <= f3z ci - f3z ei
   /\ f3z ci + f3z ei <= f3z co + f3z eo)%Q.

Definition nonnegative_extents (b : BoundingBoxAABB Q) : Prop :=
  (0 <= f3x (Extents b) /\ 0 <= f3y (Extents b) /\ 0 <= f3z (Extents b))%Q.

(** How many of the nodes have the point in their footprint. *)
Definition covering_nodes (px pz : Q) (ns : list (TerrainNode Q)) : nat :=
  length (filter (in_footprint px pz) ns).

(** Six planes that contain everything, and a camera, in exact
    arithmetic. *)
Definition exact_planes_all_inside : Frustum (F := Q) :=
  fun _ => mkFloat4 0%Q 0%Q 0%Q 1%Q.

Definition exact_camera : XMFLOAT3 Q := mkFloat3 100%Q 50%Q (-30)%Q.

Definition exact_application_like : option (QuadTree Q) :=
  Initialize 512%Q 64%Q 5 new_QuadTree.

(** The box of the root of [c], if any, lies inside the box of [d]. *)
Definition root_inside (d : TerrainNode Q) (c : NodePtr Q) : Prop :=
  match c with
  | Null => True
  | Node dc _ _ _ _ => box_inside (Bounds dc) (Bounds d)
  end.

(** Every child box lies inside its parent's box, all the way down. *)
Fixpoint nested_boxes (node : NodePtr Q) : Prop :=
  match node with
  | Null => True
  | Node d c0 c1 c2 c3 =>
      root_inside d c0 /\ root_inside d c1 /\ root_inside d c2
      /\ root_inside d c3
      /\ nested_boxes c0 /\ nested_boxes c1 /\ nested_boxes c2
      /\ nested_boxes c3
  end.

End QTExactSpec.

Module TRMoreSpec.
Import TR TRMore.

(** Every sample lies in [[0, 1]]. *)
Definition unit_samples (g : list Q) : Prop :=
  forall s, In s g -> (0 <= s <= 1)%Q.

(** [base] is the table [0..255] in some order. *)
Definition shuffled (base : list Z) : Prop :=
  length base = 256%nat /\ forall v, In v base -> 0 <= v <= 255.

End TRMoreSpec.

Module GeoSpec.
Import Geo.

(** The number of vertices, and of indices, of the levels before
    [lod]. *)
Definition vertices_before (lod : nat) : Z :=
  fold_right Z.add 0 (map (fun g => (g + 1) * (g + 1)) (firstn lod kGrid)).

Definition indices_before (lod : nat) : Z :=
  fold_right Z.add 0 (map (fun g => g * g * 6) (firstn lod kGrid)).

(** The draw call reads indices inside the index buffer, and every
    index it reads, offset by the base vertex, is a vertex of the
    vertex buffer. *)
Definition draw_in_bounds {F : Type} (geo : MeshGeometry F)
  (d : DrawCall) : Prop :=
  0 <= drawStartIndex d
  /\ drawStartIndex d + drawIndexCount d
     <= Z.of_nat (List.length (Indices geo))
  /\ forall k,
       drawStartIndex d <= k < drawStartIndex d + drawIndexCount d ->
       0 <= nth (Z.to_nat k) (Indices geo) 0 + drawBaseVertex d
       < Z.of_nat (List.length (Vertices geo)).

(** What the first [n] rounds of the level loop have built. *)
Definition lods_built {F : Type} (n : nat)
  (s : list (TerrainVertex F) * list Z * SubmeshMap) : Prop :=
  let '(verts, inds, args) := s in
  Z.of_nat (List.length verts) = vertices_before n
  /\ Z.of_nat (List.length inds) = indices_before n
  /\ forall lod,
       (lod < n)%nat ->
       let g := nth lod kGrid 0 in
       args (GetLODMeshName (Z.of_nat lod))
       = Some (mkSubmesh (g * g * 6) (indices_before lod) 0)
       /\ forall k,
            indices_before lod <= k < indices_before lod + g * g * 6 ->
            vertices_before lod <= nth (Z.to_nat k) inds 0
            < vertices_before lod + (g + 1) * (g + 1).

(** The level whose mesh the draw loop selects for a node. *)
Definition effective_level {F : Type} (node : QT.TerrainNode F) : nat :=
  Z.to_nat (Z.max 0 (Z.min (QT.LODLevel node) 4)).

End GeoSpec.

Module AppSpec.
Import QT App.

(** The point lies in the box. *)
Definition point_in_box (p : XMFLOAT3 Q) (b : BoundingBoxAABB Q) : Prop :=
  (f3x (Center b) - f3x (Extents b) <= f3x p
   /\ f3x p <= f3x (Center b) + f3x (Extents b)
   /\ f3y (Center b) - f3y (Extents b) <= f3y p
   /\ f3y p <= f3y (Center b) + f3y (Extents b)
   /\ f3z (Center b) - f3z (Extents b) <= f3z p
   /\ f3z p <= f3z (Center b) + f3z (Extents b))%Q.

(** The homogeneous clip coordinates of the point [p]: the row vector
    [(p, 1)] times the matrix. *)
Definition clip_x (M : XMFLOAT4X4 Q) (p : XMFLOAT3 Q) : Q :=
  f3x p * m11 M + f3y p * m21 M + f3z p * m31 M + m41 M.
Definition clip_y (M : XMFLOAT4X4 Q) (p : XMFLOAT3 Q) : Q :=
  f3x p * m12 M + f3y p * m22 M + f3z p * m32 M + m42 M.
Definition clip_z (M : XMFLOAT4X4 Q) (p : XMFLOAT3 Q) : Q :=
  f3x p * m13 M + f3y p * m23 M + f3z p * m33 M + m43 M.
Definition clip_w (M : XMFLOAT4X4 Q) (p : XMFLOAT3 Q) : Q :=
  f3x p * m14 M + f3y p * m24 M + f3z p * m34 M + m44 M.

(** The clip volume of Direct3D. *)
Definition in_clip_volume (M : XMFLOAT4X4 Q) (p : XMFLOAT3 Q) : Prop :=
  (- clip_w M p <= clip_x M p /\ clip_x M p <= clip_w M p
   /\ - clip_w M p <= clip_y M p /\ clip_y M p <= clip_w M p
   /\ 0 <= clip_z M p /\ clip_z M p <= clip_w M p)%Q.

(** What the results rely on about [XMPlaneNormalize]: it scales the
    four coefficients by one positive factor. *)
Definition positive_scaling (normalize : XMFLOAT4 Q -> XMFLOAT4 Q) : Prop :=
  forall pl,
    exists s, (0 < s
               /\ f4x (normalize pl) == s * f4x pl
               /\ f4y (normalize pl) == s * f4y pl
               /\ f4z (normalize pl) == s * f4z pl
               /\ f4w (normalize pl) == s * f4w pl)%Q.

(** Stands for [XMPlaneNormalize] in concrete runs. *)
Definition doubled (pl : XMFLOAT4 Q) : XMFLOAT4 Q :=
  mkFloat4 (2 * f4x pl)%Q (2 * f4y pl)%Q (2 * f4z pl)%Q (2 * f4w pl)%Q.

Definition sample_matrix : XMFLOAT4X4 Q :=
  mkFloat4x4 1%Q 0%Q 0%Q 0%Q  0%Q 2%Q 0%Q 0%Q  0%Q 0%Q 1%Q 1%Q
    0%Q 0%Q (- (1))%Q 0%Q.

End AppSpec.

Module AppFrameSpec.
Import QT.

(** The most nodes of the subtree of which none is an ancestor of
    another. *)
Fixpoint width {F : Type} (node : NodePtr F) : nat :=
  match node with
  | Null => 0
  | Node _ c0 c1 c2 c3 =>
      Nat.max 1 (width c0 + width c1 + width c2 + width c3)
  end.

(** Stands for [XMPlaneNormalize] in concrete binary32 runs. *)
Definition plane_as_is (pl : XMFLOAT4 B32.t) : XMFLOAT4 B32.t := pl.

(** A view-projection matrix whose clip volume holds the whole
    terrain of the sample runs. *)
Definition wide_matrix : App.XMFLOAT4X4 B32.t :=
  App.mkFloat4x4
    (of_Z 0) (of_Z 0) (of_Z 0) (of_Z 0)
    (of_Z 0) (of_Z 0) (of_Z 0) (of_Z 0)
    (of_Z 0) (of_Z 0) (of_Z 0) (of_Z 0)
    (of_Z 0) (of_Z 0) (of_Z 1) (of_Z 2).

Definition fresh_app (q : QuadTree B32.t) : AppFrame.AppState B32.t :=
  AppFrame.mkAppState q [] true 0 [].

End AppFrameSpec.

Module AppInputSpec.
Import AppInput.

(** How often the key goes from up to down along the frames; [before]
    tells whether it was down before the first of them. *)
Fixpoint presses (before : bool) (downs : list bool) : nat :=
  match downs with
  | [] => 0
  | d :: rest =>
      (if d && negb before then 1 else 0) + presses d rest
  end.

Definition no_key : Keys :=
  mkKeys false false false false false false false false.

Definition only_key1 : Keys :=
  mkKeys false false false false false false false true.

End AppInputSpec.

Module FlatSpec.
Import TR.

(** A grid all of whose samples equal [c]. *)
Definition flat_grid (c : Q) (g : list Q) : Prop :=
  forall s, In s g -> (s == c)%Q.

(** Stands for [XMVector3Normalize] in exact runs. *)
Definition as_is (v : XMFLOAT3 Q) : XMFLOAT3 Q := v.

End FlatSpec.

Module GridSpec.
Import Geo GeoSpec.

Section Vocabulary.
Context {F : Type} {SF : Scalar F}.

(** The vertices, and the indices, one level contributes. *)
Definition level_vertices (lod : nat) : list (TerrainVertex F) :=
  let g := nth lod kGrid 0 in
  flat_map
    (fun z =>
       flat_map
         (fun x => [grid_vertex (fdiv (of_Z 1) (of_Z g)) x z])
         (seq 0 (Z.to_nat g + 1)))
    (seq 0 (Z.to_nat g + 1)).

Definition level_indices (lod : nat) : list Z :=
  let g := nth lod kGrid 0 in
  flat_map
    (fun z =>
       flat_map
         (fun x => cell_indices (vertices_before lod) (g + 1) x z)
         (seq 0 (Z.to_nat g)))
    (seq 0 (Z.to_nat g)).

End Vocabulary.

(** The index of the grid point [(x, z)] of a level in the vertex
    vector. *)
Definition grid_point (lod x z : nat) : Z :=
  vertices_before lod + Z.of_nat z * (nth lod kGrid 0 + 1) + Z.of_nat x.

End GridSpec.

Module ShaderSpec.

(** Stands for the texture unit in concrete runs: a texture that holds
    [3] everywhere. *)
Definition overdriven (uv : Q * Q) : Q := 3%Q.

End ShaderSpec.

Module B32Spec.

(** Zero or a finite number: neither an infinity nor a NaN. *)
Definition finite (x : B32.t) : bool :=
  match x with
  | S754_zero _ | S754_finite _ _ _ => true
  | _ => false
  end.

Definition is_zero (x : B32.t) : bool :=
  match x with
  | S754_zero _ => true
  | _ => false
  end.

Definition is_nan (x : B32.t) : bool :=
  match x with
  | S754_nan => true
  | _ => false
  end.

(** The same number: identical, or two zeros that may differ in sign. *)
Definition same_value (a b : B32.t) : Prop :=
  a = b \/ (is_zero a = true /\ is_zero b = true).

(** The rational a finite binary32 number stands for,
    [(-1)^s * m * 2^e]; 0 for the others. *)
Definition to_Q (x : B32.t) : Q :=
  match x with
  | S754_finite s m e =>
      (inject_Z (cond_Zopp s (Zpos m)) * Qpower (2 # 1) e)%Q
  | _ => 0%Q
  end.

End B32Spec.

Module Sample32Spec.
Import TR B32Spec.

Section Vocabulary.
Context {F : Type} {SF : Scalar F}.

(** The texel coordinate [GetHeight] computes along an axis of [n]
    texels, [(x / terrainSize + 0.5f) * n]; the texel index it
    derives, [(int)std::floor(u)]; and the interpolation weight,
    [u - (float)index]. *)
Definition grid_coordinate (size : F) (n : Z) (x : F) : F :=
  fmul (fadd (fdiv x size) (of_ratio 1 2)) (of_Z n).

Definition grid_index (size : F) (n : Z) (x : F) : Z :=
  to_int (ffloor (grid_coordinate size n x)).

Definition grid_weight (size : F) (n : Z) (x : F) : F :=
  fsub (grid_coordinate size n x) (of_Z (grid_index size n x)).


End Vocabulary.





(** A terrain of size 0 with a 2 x 2 grid of samples 0.5. *)
Definition sizeless_terrain : Terrain B32.t :=
  set_heightmap 2 2
    [of_ratio 1 2; of_ratio 1 2; of_ratio 1 2; of_ratio 1 2]
    (new_Terrain (of_Z 0) (of_Z 0) (of_Z 150) Samples.reversed_table).

End Sample32Spec.

Module Gen32Spec.
Import TR GenSpec B32Spec.

Section Vocabulary.
Context {F : Type} {SF : Scalar F}.




(** Within 0.001 of the integer [n]. *)
Definition near (n : Z) (a : F) : bool :=
  fle (fsub (of_Z n) (of_ratio 1 1000)) a
  && fle a (fadd (of_Z n) (of_ratio 1 1000)).

End Vocabulary.


End Gen32Spec.

Module Tiling32Spec.
Import QT QTSpec TilingSpec B32Spec.

Section Vocabulary.
Context {F : Type} {SF : Scalar F}.

(** [size * 0.5f * ... * 0.5f], with [k] factors 0.5: the size
    [BuildTree] passes down [k] levels. *)
Fixpoint halved (k : nat) (size : F) : F :=
  match k with
  | O => size
  | S k' => halved k' (fmul size (of_ratio 1 2))
  end.

End Vocabulary.

(** The footprint of a binary32 node as a set of rational points: the
    half-open square of side [Size] centred at [(X, Z)], each read as
    the rational it stands for. *)
Definition exact_footprint (px pz : Q) (n : TerrainNode B32.t) : bool :=
  finite (nodeX n) && finite (nodeZ n) && finite (Size n)
  && in_square (F := Q) px pz (to_Q (nodeX n)) (to_Q (nodeZ n))
       (to_Q (Size n)).

(** How many leaf footprints contain the point. *)
Definition exact_covering (px pz : Q)
  (nodes : list (nat * TerrainNode B32.t)) : nat :=
  length
    (filter (fun kn => IsLeaf (snd kn) && exact_footprint px pz (snd kn))
       nodes).

(** The binary32 number is finite and stands for the rational [q]. *)
Definition represents (f : B32.t) (q : Q) : bool :=
  finite f && Qeq_bool (to_Q f) q.

Definition exact_node (n : TerrainNode B32.t) (n' : TerrainNode Q) : bool :=
  Bool.eqb (IsLeaf n) (IsLeaf n')
  && represents (nodeX n) (nodeX n')
  && represents (nodeZ n) (nodeZ n')
  && represents (Size n) (Size n').

(** The binary32 tree has the shape of the tree [t'] computed in exact
    arithmetic, and the centre and size of each of its nodes are the
    exact ones: no operation of [BuildTree] has rounded. *)
Fixpoint no_rounding (t : NodePtr B32.t) (t' : NodePtr Q) : bool :=
  match t, t' with
  | Null, Null => true
  | Node d c0 c1 c2 c3, Node d' c0' c1' c2' c3' =>
      exact_node d d' && no_rounding c0 c0' && no_rounding c1 c1'
      && no_rounding c2 c2' && no_rounding c3 c3'
  | _, _ => false
  end.

(** The tree [Initialize] builds in exact arithmetic from the values of
    the binary32 arguments. *)
Definition exact_root (terrainSize minNodeSize : B32.t) (maxLODLevels : Z)
  : NodePtr Q :=
  match Initialize (to_Q terrainSize) (to_Q minNodeSize) maxLODLevels
          new_QuadTree with
  | Some q => mRoot q
  | None => Null
  end.

(** The smallest positive binary32 number, [2^-149]. *)
Definition smallest_positive : B32.t := S754_finite false 1 (-149).

End Tiling32Spec.

(** * Results *)

(** ** Machine integers *)

Module IntFacts.

Lemma wrap_int_small n : Int.int_min <= n <= Int.int_max -> Int.wrap_int n = n.
Proof.
  unfold Int.wrap_int, Int.int_min, Int.int_max. intros H.
  rewrite Z.mod_small; lia.
Qed.

Lemma wrap_uint_small n : 0 <= n < 2 ^ 32 -> Int.wrap_uint n = n.
Proof. unfold Int.wrap_uint. intros H. now apply Z.mod_small. Qed.

Lemma wrap_int_range n : Int.int_min <= Int.wrap_int n <= Int.int_max.
Proof.
  unfold Int.wrap_int, Int.int_min, Int.int_max.
  pose proof (Z.mod_pos_bound (n + 2 ^ 31) (2 ^ 32) ltac:(lia)). lia.
Qed.

Lemma wrap_int_le_nonneg n : 0 <= n -> Int.wrap_int n <= n.
Proof.
  intros H. unfold Int.wrap_int.
  pose proof (Z.mod_le (n + 2 ^ 31) (2 ^ 32) ltac:(lia) ltac:(lia)). lia.
Qed.

Lemma wrap_int_add_l a b :
  Int.wrap_int (Int.wrap_int a + b) = Int.wrap_int (a + b).
Proof.
  unfold Int.wrap_int. f_equal.
  replace ((a + 2 ^ 31) mod 2 ^ 32 - 2 ^ 31 + b + 2 ^ 31)
    with ((a + 2 ^ 31) mod 2 ^ 32 + b) by lia.
  rewrite Zplus_mod_idemp_l. f_equal. lia.
Qed.

Lemma wrap_int_pred_le w :
  1 <= w -> Int.wrap_int (Int.wrap_int w - 1) <= w - 1.
Proof.
  intros Hw. change (Int.wrap_int w - 1) with (Int.wrap_int w + (-1)).
  rewrite wrap_int_add_l. apply wrap_int_le_nonneg. lia.
Qed.

End IntFacts.

(** ** Comparisons of rationals *)

Module ExactFacts.

Lemma ltb_lt a b : Exact.ltb a b = true <-> (a < b)%Q.
Proof.
  unfold Exact.ltb. rewrite negb_true_iff.
  split; intros Hab.
  - apply Qnot_le_lt. intros Hle. apply Qle_bool_iff in Hle. congruence.
  - destruct (Qle_bool b a) eqn:E; [|reflexivity].
    apply Qle_bool_iff in E. exfalso. exact (Qlt_not_le _ _ Hab E).
Qed.

Lemma ltb_ge a b : Exact.ltb a b = false <-> (b <= a)%Q.
Proof.
  unfold Exact.ltb. rewrite negb_false_iff. apply Qle_bool_iff.
Qed.

Lemma leb_le a b : Qle_bool a b = true <-> (a <= b)%Q.
Proof. apply Qle_bool_iff. Qed.

Lemma leb_gt a b : Qle_bool a b = false <-> (b < a)%Q.
Proof.
  split; intros Hab.
  - apply Qnot_le_lt. intros Hle. apply Qle_bool_iff in Hle. congruence.
  - destruct (Qle_bool a b) eqn:E; [|reflexivity].
    apply Qle_bool_iff in E. exfalso. exact (Qlt_not_le _ _ Hab E).
Qed.

End ExactFacts.

Module QTFacts.
Import QT QTSpec.

(** The descent test reads none of the fields [UpdateNode] writes, so the
    test on a rewritten node is the test [H] already decided. *)
Ltac same_decision H :=
  match goal with
  | |- (if ?b then _ else _) = _ =>
      match type of H with
      | _ = ?v =>
          replace b with v
            by (symmetry; etransitivity; [|exact H]; reflexivity)
      end
  end.

Section Generic.
Context {F : Type} {SF : Scalar F} {SQ : ScalarSqrt F}.

(** [CalculateLOD] reads the tree object only through the distance
    table and the level count. *)
Lemma UpdateNode_reads (q1 q2 : QuadTree F) cam pl node st :
  mLODDistances q1 = mLODDistances q2 ->
  mMaxLODLevels q1 = mMaxLODLevels q2 ->
  UpdateNode q1 cam pl node st = UpdateNode q2 cam pl node st.
Proof.
  intros Hd Hm. revert st.
  induction node as [|d c0 IH0 c1 IH1 c2 IH2 c3 IH3]; intros st; simpl.
  - reflexivity.
  - unfold CalculateLOD. rewrite Hd, Hm.
    destruct (Intersects (Bounds d) pl); simpl; [|reflexivity].
    match goal with |- (if ?b then _ else _) = _ => destruct b end;
      [|reflexivity].
    rewrite IH0. destruct (UpdateNode q2 cam pl c0 st) as [c0' s0].
    rewrite IH1. destruct (UpdateNode q2 cam pl c1 s0) as [c1' s1].
    rewrite IH2. destruct (UpdateNode q2 cam pl c2 s1) as [c2' s2].
    rewrite IH3. reflexivity.
Qed.

(** Re-running [UpdateNode] on its own output, from the same counters,
    changes nothing. *)
Lemma UpdateNode_idem (q : QuadTree F) cam pl node :
  forall st node' st',
    UpdateNode q cam pl node st = (node', st') ->
    UpdateNode q cam pl node' st = (node', st').
Proof.
  induction node as [|d c0 IH0 c1 IH1 c2 IH2 c3 IH3];
    intros st node' st' Hu; simpl in Hu.
  - inversion Hu; subst. reflexivity.
  - destruct (Intersects (Bounds d) pl) eqn:Hi; simpl in Hu.
    + match type of Hu with
      | (if ?b then _ else _) = _ => destruct b eqn:Hdesc
      end.
      * destruct (UpdateNode q cam pl c0 st) as [c0' s0] eqn:E0.
        destruct (UpdateNode q cam pl c1 s0) as [c1' s1] eqn:E1.
        destruct (UpdateNode q cam pl c2 s1) as [c2' s2] eqn:E2.
        destruct (UpdateNode q cam pl c3 s2) as [c3' s3] eqn:E3.
        inversion Hu; subst; clear Hu.
        simpl. rewrite Hi. simpl. same_decision Hdesc.
        rewrite (IH0 _ _ _ E0), (IH1 _ _ _ E1), (IH2 _ _ _ E2),
          (IH3 _ _ _ E3).
        reflexivity.
      * inversion Hu; subst; clear Hu.
        simpl. rewrite Hi. simpl. same_decision Hdesc.
        reflexivity.
    + inversion Hu; subst; clear Hu.
      simpl. rewrite Hi. simpl. reflexivity.
Qed.

Lemma map_seq_from {A : Type} len :
  forall (f : nat -> A) start,
    map f (seq start len) = map (fun k => f (start + k)%nat) (seq 0 len).
Proof.
  induction len as [|len IH]; intros f start; simpl.
  - reflexivity.
  - rewrite Nat.add_0_r. f_equal.
    rewrite (IH f (S start)), (IH (fun k => f (start + k)%nat) 1%nat).
    apply map_ext. intros k. f_equal. lia.
Qed.

Lemma iota_app start a b :
  iota start (a + b) = iota start a ++ iota (start + Z.of_nat a) b.
Proof.
  unfold iota. rewrite seq_app, map_app. f_equal.
  rewrite map_seq_from. apply map_ext. intros k. lia.
Qed.

Lemma slots_app (root : NodePtr F) hs1 hs2 :
  slots root (hs1 ++ hs2) = slots root hs1 ++ slots root hs2.
Proof. apply map_app. Qed.

Lemma slots_child (d : TerrainNode F) c0 c1 c2 c3 i hs :
  slots (Node d c0 c1 c2 c3) (map (cons i) hs)
  = slots (child (Node d c0 c1 c2 c3) i) hs.
Proof. unfold slots. rewrite map_map. reflexivity. Qed.

(** The slots [UpdateNode] hands out below [node], starting from the
    counters [st]. *)
Lemma UpdateNode_slots (q : QuadTree F) cam pl node :
  forall st node' st',
    UpdateNode q cam pl node st = (node', st') ->
    let ts := draw_targets cam pl node in
    let n := Z.of_nat (length ts) in
    0 <= visibleNodeCount st -> visibleNodeCount st + n <= Int.int_max ->
    0 <= nextObjectCBIndex st -> nextObjectCBIndex st + n < 2 ^ 32 ->
    visibleNodeCount st' = visibleNodeCount st + n
    /\ nextObjectCBIndex st' = nextObjectCBIndex st + n
    /\ slots node' ts
       = map (fun i => Some (true, i))
           (iota (nextObjectCBIndex st) (length ts)).
Proof.
  induction node as [|d c0 IH0 c1 IH1 c2 IH2 c3 IH3];
    intros st node' st' Hu; simpl in Hu.
  - inversion Hu; subst. simpl. intros. repeat split; lia.
  - simpl draw_targets.
    destruct (Intersects (Bounds d) pl) eqn:Hi; simpl in Hu.
    + match type of Hu with
      | (if ?b then _ else _) = _ => destruct b eqn:Hdesc
      end.
      * replace (negb (IsLeaf d) && ShouldSubdivide d cam) with true
          by (symmetry; etransitivity; [|exact Hdesc]; reflexivity).
        destruct (UpdateNode q cam pl c0 st) as [c0' s0] eqn:E0.
        destruct (UpdateNode q cam pl c1 s0) as [c1' s1] eqn:E1.
        destruct (UpdateNode q cam pl c2 s1) as [c2' s2] eqn:E2.
        destruct (UpdateNode q cam pl c3 s2) as [c3' s3] eqn:E3.
        inversion Hu; subst; clear Hu.
        specialize (IH0 _ _ _ E0). specialize (IH1 _ _ _ E1).
        specialize (IH2 _ _ _ E2). specialize (IH3 _ _ _ E3).
        cbv zeta in *.
        rewrite !length_app, !length_map.
        intros Hc0 Hc1 Hn0 Hn1. unfold Int.int_max, Handle in *.
        destruct IH0 as (A0 & B0 & S0); [lia..|].
        destruct IH1 as (A1 & B1 & S1); [lia..|].
        destruct IH2 as (A2 & B2 & S2); [lia..|].
        destruct IH3 as (A3 & B3 & S3); [lia..|].
        split; [lia|]. split; [lia|].
        rewrite !slots_app, !slots_child. simpl child.
        rewrite S0, S1, S2, S3, B0, B1, B2.
        rewrite !iota_app, !map_app.
        repeat f_equal; lia.
      * replace (negb (IsLeaf d) && ShouldSubdivide d cam) with false
          by (symmetry; etransitivity; [|exact Hdesc]; reflexivity).
        inversion Hu; subst; clear Hu. simpl.
        intros Hc0 Hc1 Hn0 Hn1.
        rewrite IntFacts.wrap_int_small, IntFacts.wrap_uint_small
          by (unfold Int.int_min, Int.int_max in *; lia).
        repeat split; try lia.
        unfold iota. simpl. repeat f_equal. lia.
    + inversion Hu; subst; clear Hu. simpl.
      intros. repeat split; lia.
Qed.

(** *** The first frame *)

Lemma CollectVisibleNodes_hidden (node : NodePtr F) :
  all_hidden node = true ->
  forall here, CollectVisibleNodes node here = [].
Proof.
  induction node as [|d c0 IH0 c1 IH1 c2 IH2 c3 IH3]; intros Hh here.
  - reflexivity.
  - simpl in Hh. rewrite !andb_true_iff in Hh.
    destruct Hh as ((((Hd & H0) & H1) & H2) & H3).
    apply negb_true_iff in Hd. simpl. rewrite Hd.
    destruct (IsLeaf d); [reflexivity|].
    now rewrite IH0, IH1, IH2, IH3.
Qed.

(** On a subtree without flags of an earlier frame, what
    [CollectVisibleNodes] finds after [UpdateNode] is the draw targets
    of that [UpdateNode], in the same order; nothing of a culled
    subtree is among them. *)
Lemma first_frame_collects_draw_targets (q : QuadTree F) cam pl node :
  all_hidden node = true ->
  forall st here,
    CollectVisibleNodes (fst (UpdateNode q cam pl node st)) here
    = map (app here) (draw_targets cam pl node).
Proof.
  induction node as [|d c0 IH0 c1 IH1 c2 IH2 c3 IH3];
    intros Hh st here.
  - reflexivity.
  - simpl in Hh. rewrite !andb_true_iff in Hh.
    destruct Hh as ((((Hd & H0) & H1) & H2) & H3).
    simpl UpdateNode. simpl draw_targets.
    destruct (Intersects (Bounds d) pl) eqn:Hi; simpl.
    + change (ShouldSubdivide
                (set_LODLevel (CalculateLOD q (set_IsVisible true d) cam)
                   (set_IsVisible true d)) cam)
        with (ShouldSubdivide d cam).
      destruct (negb (IsLeaf d) && ShouldSubdivide d cam) eqn:Hdesc.
      * apply andb_true_iff in Hdesc. destruct Hdesc as [Hleaf _].
        apply negb_true_iff in Hleaf.
        specialize (IH0 H0 st).
        destruct (UpdateNode q cam pl c0 st) as [c0' s0].
        specialize (IH1 H1 s0).
        destruct (UpdateNode q cam pl c1 s0) as [c1' s1].
        specialize (IH2 H2 s1).
        destruct (UpdateNode q cam pl c2 s1) as [c2' s2].
        specialize (IH3 H3 s2).
        destruct (UpdateNode q cam pl c3 s2) as [c3' s3].
        simpl in *. rewrite Hleaf, IH0, IH1, IH2, IH3.
        rewrite !map_app, !map_map.
        repeat apply (f_equal2 (@app Handle));
          apply map_ext; intros h; now rewrite <- app_assoc.
      * simpl. now rewrite app_nil_r.
    + destruct (IsLeaf d); [reflexivity|].
      now rewrite !CollectVisibleNodes_hidden.
Qed.

Lemma BuildTree_all_hidden (M : F) (D : Z) :
  forall fuel x z size depth total t total',
    BuildTree fuel M D x z size depth total = Some (t, total') ->
    all_hidden t = true.
Proof.
  induction fuel as [|fuel IH];
    intros x z size depth total t total' Hb; [discriminate|].
  cbn [BuildTree] in Hb.
  destruct (canSplit M D size depth); cbn [negb] in Hb.
  - repeat match type of Hb with
           | obind (BuildTree fuel M D ?x ?z ?s ?d ?t) _ = _ =>
               let E := fresh "E" in
               destruct (BuildTree fuel M D x z s d t) as [[? ?]|] eqn:E;
               [apply IH in E; cbn [obind] in Hb|discriminate]
           end.
    inversion Hb; subst. simpl.
    repeat match goal with H : all_hidden _ = true |- _ =>
             rewrite H; clear H end.
    reflexivity.
  - inversion Hb; subst. reflexivity.
Qed.

(** The first [Update] after [Initialize] lists exactly its draw
    targets. *)
Lemma first_Update_lists_draw_targets terrainSize minNodeSize
  maxLODLevels (q0 q : QuadTree F) cam pl :
  Initialize terrainSize minNodeSize maxLODLevels q0 = Some q ->
  GetVisibleNodes (Update cam pl q) = draw_targets cam pl (mRoot q).
Proof.
  unfold Initialize. intros Hi.
  destruct (match mLODDistances q0 with
            | [] => if maxLODLevels <? 0 then None
                    else Some (default_LODDistances minNodeSize
                                 maxLODLevels)
            | _ :: _ => Some (mLODDistances q0)
            end) as [dists|]; [|discriminate].
  cbn [obind] in Hi.
  destruct (BuildTree (S (Z.to_nat (maxLODLevels - 1))) minNodeSize
              maxLODLevels (of_Z 0) (of_Z 0) terrainSize 0 0)
    as [[root total]|] eqn:Eb; [|discriminate].
  cbn [obind] in Hi. inversion Hi; subst q; clear Hi.
  apply BuildTree_all_hidden in Eb.
  unfold GetVisibleNodes, Update. cbn [mRoot].
  pose proof (first_frame_collects_draw_targets
                {| mRoot := root; mTerrainSize := terrainSize;
                   mMinNodeSize := minNodeSize;
                   mMaxLODLevels := maxLODLevels;
                   mLODDistances := dists; mVisibleNodeCount := 0;
                   mTotalNodeCount := total; mNextObjectCBIndex := 0 |}
                cam pl root Eb
                {| visibleNodeCount := 0; nextObjectCBIndex := 0 |} [])
    as Hc.
  destruct (UpdateNode _ cam pl root _) as [root' st'].
  cbn [fst mRoot] in *. rewrite Hc.
  rewrite <- (map_id (draw_targets cam pl root)) at 2.
  apply map_ext. reflexivity.
Qed.

End Generic.

(** *** Ordering of binary32 values *)

Lemma SFleb_ltb_trans (a b c : spec_float) :
  SFleb a b = true -> SFltb b c = true -> SFltb a c = true.
Proof.
  unfold SFleb, SFltb, SFcompare.
  destruct a as [sa|sa| |sa ma ea], b as [sb|sb| |sb mb eb],
    c as [sc|sc| |sc mc ec];
    try destruct sa; try destruct sb; try destruct sc;
    try discriminate; try reflexivity;
    change (Pos.compare_cont Eq) with Pos.compare;
    repeat match goal with
           | |- context [Z.compare ?x ?y] => destruct (Z.compare_spec x y)
           | |- context [Pos.compare ?x ?y] =>
               destruct (Pos.compare_spec x y)
           end;
    simpl; intros; subst; try discriminate; try reflexivity; lia.
Qed.

(** *** The level-of-detail search *)

Section FirstExceeding.
Context {F : Type} {SF : Scalar F}.

Lemma first_exceeding_spec (dist : F) table :
  forall i,
    match first_exceeding dist table i with
    | Some r =>
        exists k t,
          r = i + Z.of_nat k
          /\ nth_error table k = Some t
          /\ flt dist t = true
          /\ (forall j t', (j < k)%nat -> nth_error table j = Some t' ->
                         flt dist t' = false)
    | None => forall t, In t table -> flt dist t = false
    end.
Proof.
  induction table as [|t0 table IH]; intros i; simpl.
  - intros t [].
  - destruct (flt dist t0) eqn:E.
    + exists 0%nat, t0. repeat split; try assumption; lia.
    + specialize (IH (i + 1)).
      destruct (first_exceeding dist table (i + 1)) as [r|].
      * destruct IH as (k & t & Hr & Hn & Ht & Hbefore).
        exists (S k), t. repeat split; try assumption; try lia.
        intros [|j] t' Hj Hn'; simpl in Hn'.
        -- inversion Hn'; subst. exact E.
        -- apply (Hbefore j); [lia|assumption].
      * intros t [<-|Hin]; [exact E|]. now apply IH.
Qed.

Lemma first_exceeding_bound (dist : F) table :
  forall i r,
    first_exceeding dist table i = Some r ->
    i <= r < i + Z.of_nat (length table).
Proof.
  induction table as [|t0 table IH]; intros i r; simpl.
  - discriminate.
  - destruct (flt dist t0).
    + intros H; inversion H; subst. lia.
    + intros H. apply IH in H. lia.
Qed.

Lemma first_exceeding_mono (d1 d2 : F) table :
  (forall t, flt d2 t = true -> flt d1 t = true) ->
  forall i,
    match first_exceeding d1 table i, first_exceeding d2 table i with
    | Some r1, Some r2 => r1 <= r2
    | None, Some _ => False
    | _, None => True
    end.
Proof.
  intros Hle.
  induction table as [|t0 table IH]; intros i; simpl.
  - exact I.
  - destruct (flt d2 t0) eqn:E2.
    + rewrite (Hle _ E2). lia.
    + destruct (flt d1 t0) eqn:E1.
      * destruct (first_exceeding d2 table (i + 1)) as [r2|] eqn:E;
          [|exact I].
        apply first_exceeding_bound in E. lia.
      * apply IH.
Qed.

End FirstExceeding.

(** C10.  [Update] is idempotent: a second call with the same camera and
    planes leaves the whole tree object as the first call left it, hence
    the same per-node [IsVisible], [LODLevel] and [ObjectCBIndex], the
    same [GetVisibleNodes] output and the same [GetVisibleNodeCount]. *)
Theorem Update_idempotent {F : Type} {SF : Scalar F} {SQ : ScalarSqrt F}
  (q : QuadTree F) (cameraPos : XMFLOAT3 F) (frustumPlanes : Frustum) :
  let once := Update cameraPos frustumPlanes q in
  let twice := Update cameraPos frustumPlanes once in
  twice = once
  /\ (forall h, frame_state (mRoot twice) h = frame_state (mRoot once) h)
  /\ GetVisibleNodes twice = GetVisibleNodes once
  /\ GetVisibleNodeCount twice = GetVisibleNodeCount once.
Proof.
  intros once twice.
  assert (E : twice = once).
  { subst once twice. unfold Update at 2 3.
    destruct (UpdateNode q cameraPos frustumPlanes (mRoot q)
                {| visibleNodeCount := 0; nextObjectCBIndex := 0 |})
      as [root st] eqn:Hu.
    unfold Update. cbn [mRoot mTerrainSize mMinNodeSize mMaxLODLevels
                         mLODDistances mTotalNodeCount].
    rewrite UpdateNode_reads with (q2 := q) by reflexivity.
    rewrite (UpdateNode_idem _ _ _ _ _ Hu). reflexivity. }
  rewrite E. repeat split.
Qed.

(** C8.  One [Update] hands the slots 0, 1, 2, ... to its draw targets in
    depth-first order (children 0, 1, 2, 3), whatever the counters held
    before, marks each of them visible, and leaves both the slot counter
    and [GetVisibleNodeCount] at the number of draw targets.  The count
    is assumed to fit the [int] counter. *)
Theorem Update_sequential_slots {F : Type} {SF : Scalar F}
  {SQ : ScalarSqrt F} (q : QuadTree F) (cameraPos : XMFLOAT3 F)
  (frustumPlanes : Frustum) :
  let targets := draw_targets cameraPos frustumPlanes (mRoot q) in
  let q' := Update cameraPos frustumPlanes q in
  Z.of_nat (length targets) <= Int.int_max ->
  slots (mRoot q') targets
  = map (fun i => Some (true, i)) (iota 0 (length targets))
  /\ mNextObjectCBIndex q' = Z.of_nat (length targets)
  /\ GetVisibleNodeCount q' = Z.of_nat (length targets).
Proof.
  intros targets q' Hfit. subst q'. unfold Update, GetVisibleNodeCount.
  destruct (UpdateNode q cameraPos frustumPlanes (mRoot q)
              {| visibleNodeCount := 0; nextObjectCBIndex := 0 |})
    as [root st] eqn:Hu.
  pose proof (UpdateNode_slots _ _ _ _ _ Hu) as Hs.
  cbv zeta in Hs. fold targets in Hs.
  cbn [visibleNodeCount nextObjectCBIndex] in Hs.
  cbn [mRoot mNextObjectCBIndex mVisibleNodeCount].
  unfold Int.int_max, Handle in *.
  destruct Hs as (A & B & S); [lia..|].
  rewrite A, B, S. repeat split; lia.
Qed.

Lemma Update_sequential_slots_witness :
  Z.of_nat
    (length (draw_targets camera_above_centre planes_all_inside
               (mRoot five_node_tree))) <= Int.int_max
  /\ slots
       (mRoot (Update camera_above_centre planes_all_inside five_node_tree))
       (draw_targets camera_above_centre planes_all_inside
          (mRoot five_node_tree))
     = [Some (true, 0); Some (true, 1); Some (true, 2); Some (true, 3)].
Proof.
  assert (Hfit : Z.of_nat
            (length (draw_targets camera_above_centre planes_all_inside
                       (mRoot five_node_tree))) <= Int.int_max)
    by (vm_compute; discriminate).
  split; [exact Hfit|].
  exact (proj1 (Update_sequential_slots five_node_tree camera_above_centre
                  planes_all_inside Hfit)).
Defined.

(** C9.  [SetHeightRange] writes [MinY], [MaxY] and the Y components of
    the bounding-box centre and extents of the root, and nothing else:
    the other fields of the root, every subtree below it and the other
    members of the tree object are as before; without a root the call
    changes nothing. *)
Theorem SetHeightRange_frame {F : Type} {SF : Scalar F}
  (q : QuadTree F) (x z size minY maxY : F) :
  let q' := SetHeightRange x z size minY maxY q in
  (forall i, child (mRoot q') i = child (mRoot q) i)
  /\ (forall i h,
        subtree_at (mRoot q') (i :: h) = subtree_at (mRoot q) (i :: h))
  /\ match node_at (mRoot q) [], node_at (mRoot q') [] with
     | None, None => q' = q
     | Some d, Some d' =>
         nodeX d' = nodeX d /\ nodeZ d' = nodeZ d /\ Size d' = Size d
         /\ LODLevel d' = LODLevel d /\ MaxLOD d' = MaxLOD d
         /\ f3x (Center (Bounds d')) = f3x (Center (Bounds d))
         /\ f3z (Center (Bounds d')) = f3z (Center (Bounds d))
         /\ f3x (Extents (Bounds d')) = f3x (Extents (Bounds d))
         /\ f3z (Extents (Bounds d')) = f3z (Extents (Bounds d))
         /\ IsLeaf d' = IsLeaf d /\ IsVisible d' = IsVisible d
         /\ ObjectCBIndex d' = ObjectCBIndex d
         /\ MinY d' = minY /\ MaxY d' = maxY
         /\ f3y (Center (Bounds d'))
            = fmul (fadd minY maxY) (of_ratio 1 2)
         /\ f3y (Extents (Bounds d'))
            = fadd (fmul (fsub maxY minY) (of_ratio 1 2)) (of_Z 10)
     | _, _ => False
     end
  /\ mTerrainSize q' = mTerrainSize q
  /\ mMinNodeSize q' = mMinNodeSize q
  /\ mMaxLODLevels q' = mMaxLODLevels q
  /\ mLODDistances q' = mLODDistances q
  /\ mVisibleNodeCount q' = mVisibleNodeCount q
  /\ mTotalNodeCount q' = mTotalNodeCount q
  /\ mNextObjectCBIndex q' = mNextObjectCBIndex q.
Proof.
  intros q'. subst q'. unfold SetHeightRange, node_at.
  destruct q as [root ts ms ml ld vc tc nx]; simpl.
  destruct root as [|d c0 c1 c2 c3]; simpl; repeat split; reflexivity.
Qed.

(** C1 (the code departs from it).  On the five-node tree, a first frame
    that sees everything makes the four leaves draw targets; in the next
    frame the root box is entirely behind a plane, [Update] stops at the
    root and counts no visible node, yet [GetVisibleNodes] still lists
    the four leaves, because their flags of the earlier frame were never
    cleared. *)
Theorem culled_subtree_still_listed :
  let frame1 := Update camera_above_centre planes_all_inside five_node_tree in
  let frame2 := Update camera_above_centre planes_looking_away frame1 in
  GetVisibleNodes frame1 = [[0]; [1]; [2]; [3]]%nat
  /\ forallb
       (fun n => entirely_behind (Bounds (snd n))
                   (planes_looking_away 0%nat))
       (nodes_from 0 (mRoot frame2)) = true
  /\ Intersects
       (match node_at (mRoot frame1) [] with
        | Some d => Bounds d
        | None => Bounds default_node
        end) planes_looking_away = false
  /\ GetVisibleNodeCount frame2 = 0
  /\ GetVisibleNodes frame2 = [[0]; [1]; [2]; [3]]%nat.
Proof.
  intros frame1 frame2. repeat split; vm_compute; reflexivity.
Qed.

(** C5 (as amended).  [CalculateLOD] answers the index of the first
    table entry that strictly exceeds the camera distance, and
    [mMaxLODLevels - 1] when no entry does; and when the table has at
    most [mMaxLODLevels] entries, a node at least as far from the camera
    as another one gets a level at least as large. *)
Theorem CalculateLOD_first_exceeding_monotone
  (q : QuadTree B32.t) (cameraPos : XMFLOAT3 B32.t) :
  (forall node,
      let dist := camera_distance node cameraPos in
      let lod := CalculateLOD q node cameraPos in
      (exists k t,
          lod = Z.of_nat k
          /\ nth_error (mLODDistances q) k = Some t
          /\ flt dist t = true
          /\ (forall j t', (j < k)%nat ->
                          nth_error (mLODDistances q) j = Some t' ->
                          flt dist t' = false))
      \/ (lod = mMaxLODLevels q - 1
          /\ forall t, In t (mLODDistances q) -> flt dist t = false))
  /\ (Z.of_nat (length (mLODDistances q)) <= mMaxLODLevels q ->
      forall near far,
        fle (camera_distance near cameraPos)
            (camera_distance far cameraPos) = true ->
        CalculateLOD q near cameraPos <= CalculateLOD q far cameraPos).
Proof.
  split.
  - intros node dist lod. subst lod. unfold CalculateLOD. fold dist.
    pose proof (first_exceeding_spec dist (mLODDistances q) 0) as Hs.
    destruct (first_exceeding dist (mLODDistances q) 0) as [r|].
    + left. destruct Hs as (k & t & Hr & Hn & Ht & Hb).
      exists k, t. repeat split; assumption || lia.
    + right. split; [reflexivity|exact Hs].
  - intros Hlen near far Hle. unfold CalculateLOD.
    pose proof (@first_exceeding_mono _ binary32
                  (camera_distance near cameraPos)
                  (camera_distance far cameraPos) (mLODDistances q)
                  (fun t Ht => SFleb_ltb_trans _ _ _ Hle Ht) 0) as Hm.
    destruct (first_exceeding (camera_distance near cameraPos)
                (mLODDistances q) 0) as [r1|] eqn:E1;
      destruct (first_exceeding (camera_distance far cameraPos)
                  (mLODDistances q) 0) as [r2|] eqn:E2;
      try lia.
    apply first_exceeding_bound in E1. lia.
Qed.

Lemma CalculateLOD_first_exceeding_monotone_witness :
  Z.of_nat (length (mLODDistances five_node_tree))
  <= mMaxLODLevels five_node_tree
  /\ fle (camera_distance (node_of five_node_tree [1%nat]) camera_east)
         (camera_distance (node_of five_node_tree [0%nat]) camera_east)
     = true
  /\ CalculateLOD five_node_tree (node_of five_node_tree [1%nat]) camera_east
     <= CalculateLOD five_node_tree (node_of five_node_tree [0%nat])
          camera_east.
Proof.
  assert (Hlen : Z.of_nat (length (mLODDistances five_node_tree))
                 <= mMaxLODLevels five_node_tree)
    by (vm_compute; discriminate).
  assert (Hle : fle (camera_distance (node_of five_node_tree [1%nat])
                       camera_east)
                    (camera_distance (node_of five_node_tree [0%nat])
                       camera_east) = true)
    by (vm_compute; reflexivity).
  split; [exact Hlen|]. split; [exact Hle|].
  exact (proj2 (CalculateLOD_first_exceeding_monotone five_node_tree
                  camera_east) Hlen _ _ Hle).
Defined.

(** C5 as stated fails: with three thresholds installed for two levels,
    of two children of the root the farther one gets the smaller
    level. *)
Lemma farther_node_gets_smaller_level :
  ~ (forall (q : QuadTree B32.t) (cameraPos : XMFLOAT3 B32.t)
            (h1 h2 : Handle) (near far : TerrainNode B32.t),
        node_at (mRoot q) h1 = Some near ->
        node_at (mRoot q) h2 = Some far ->
        length h1 = length h2 ->
        fle (camera_distance near cameraPos)
            (camera_distance far cameraPos) = true ->
        CalculateLOD q near cameraPos <= CalculateLOD q far cameraPos).
Proof.
  intros H.
  specialize (H long_table_tree camera_east [1%nat] [0%nat]
                (node_of long_table_tree [1%nat])
                (node_of long_table_tree [0%nat])
                eq_refl eq_refl eq_refl eq_refl).
  vm_compute in H. apply H. reflexivity.
Qed.

End QTFacts.

Module TilingFacts.
Import QT QTSpec TilingSpec.
Local Open Scope Q_scope.

Lemma pow2_pos k : 0 < pow2 k.
Proof.
  unfold pow2. change 0 with (inject_Z 0). rewrite <- Zlt_Qlt.
  apply Z.pow_pos_nonneg; lia.
Qed.

Lemma pow2_S k : pow2 (S k) == 2 * pow2 k.
Proof.
  unfold pow2. rewrite Nat2Z.inj_succ, Z.pow_succ_r by lia.
  rewrite inject_Z_mult. reflexivity.
Qed.

Lemma in_square_true px pz cx cz size :
  in_square (F := Q) px pz cx cz size = true <->
  cx - size * (1 # 2) <= px /\ px < cx + size * (1 # 2)
  /\ cz - size * (1 # 2) <= pz /\ pz < cz + size * (1 # 2).
Proof.
  unfold in_square. simpl.
  rewrite !andb_true_iff, !ExactFacts.ltb_lt, !ExactFacts.leb_le. tauto.
Qed.

Lemma in_square_false px pz cx cz size :
  in_square (F := Q) px pz cx cz size = false <->
  ~ (cx - size * (1 # 2) <= px /\ px < cx + size * (1 # 2)
     /\ cz - size * (1 # 2) <= pz /\ pz < cz + size * (1 # 2)).
Proof.
  rewrite <- in_square_true. destruct (in_square px pz cx cz size);
    split; intros; try discriminate; try reflexivity; tauto.
Qed.

(** The four quadrants partition the square. *)
Lemma quadrants_partition (px pz x z size : Q) :
  let half := size * (1 # 2) in
  let quarter := size * (1 # 4) in
  Nat.add (indicator (in_square px pz (x - quarter) (z + quarter) half))
    (Nat.add (indicator (in_square px pz (x + quarter) (z + quarter) half))
       (Nat.add
          (indicator (in_square px pz (x - quarter) (z - quarter) half))
          (indicator (in_square px pz (x + quarter) (z - quarter) half))))
  = indicator (in_square px pz x z size).
Proof.
  intros half quarter. subst half quarter.
  destruct (in_square px pz (x - size * (1 # 4)) (z + size * (1 # 4))
              (size * (1 # 2))) eqn:E0;
    destruct (in_square px pz (x + size * (1 # 4)) (z + size * (1 # 4))
                (size * (1 # 2))) eqn:E1;
    destruct (in_square px pz (x - size * (1 # 4)) (z - size * (1 # 4))
                (size * (1 # 2))) eqn:E2;
    destruct (in_square px pz (x + size * (1 # 4)) (z - size * (1 # 4))
                (size * (1 # 2))) eqn:E3;
    destruct (in_square px pz x z size) eqn:E;
    try reflexivity; exfalso;
    repeat match goal with
           | H : in_square _ _ _ _ _ = true |- _ =>
               apply in_square_true in H
           | H : in_square _ _ _ _ _ = false |- _ =>
               apply in_square_false in H
           end;
    lra.
Qed.

Lemma covering_app {F : Type} {SF : Scalar F} (px pz : F) l1 l2 :
  covering px pz (l1 ++ l2)
  = (covering px pz l1 + covering px pz l2)%nat.
Proof. unfold covering. now rewrite filter_app, length_app. Qed.

Lemma BuildTree_spec (M : Q) (D : Z) :
  forall fuel x z size dn total,
    (Z.of_nat dn <= D - 1)%Z ->
    (Z.to_nat (D - 1 - Z.of_nat dn) < fuel)%nat ->
    exists t total',
      BuildTree fuel M D x z size (Z.of_nat dn) total = Some (t, total')
      /\ built_below M D x z size dn t.
Proof.
  induction fuel as [|fuel IH]; intros x z size dn total Hdn Hfuel.
  - lia.
  - cbn [BuildTree].
    destruct (canSplit M D size (Z.of_nat dn)) eqn:Hsplit; cbn [negb].
    + (* the node splits *)
      unfold canSplit in Hsplit. apply andb_true_iff in Hsplit.
      destruct Hsplit as [Hsize Hdepth].
      cbn [flt exactQ] in Hsize. apply ExactFacts.ltb_lt in Hsize.
      apply Z.ltb_lt in Hdepth.
      replace (Z.of_nat dn + 1)%Z with (Z.of_nat (S dn)) by lia.
      cbn [fsub fadd fmul of_ratio exactQ].
      set (half := size * (1 # 2)). set (quarter := size * (1 # 4)).
      destruct (IH (x - quarter) (z + quarter) half (S dn)
                  (Int.wrap_int (total + 1)))
        as (t0 & tot0 & E0 & P0 & C0); [lia|lia|].
      rewrite E0. cbn [obind].
      destruct (IH (x + quarter) (z + quarter) half (S dn) tot0)
        as (t1 & tot1 & E1 & P1 & C1); [lia|lia|].
      rewrite E1. cbn [obind].
      destruct (IH (x - quarter) (z - quarter) half (S dn) tot1)
        as (t2 & tot2 & E2 & P2 & C2); [lia|lia|].
      rewrite E2. cbn [obind].
      destruct (IH (x + quarter) (z - quarter) half (S dn) tot2)
        as (t3 & tot3 & E3 & P3 & C3); [lia|lia|].
      rewrite E3. cbn [obind].
      eexists. eexists. split; [reflexivity|].
      split.
      * intros k n Hin. cbn [nodes_from] in Hin.
        destruct Hin as [Hroot|Hin].
        -- inversion Hroot; subst k n. cbn.
           split; [lia|]. split; [lia|]. split.
           ++ rewrite Nat.sub_diag. unfold pow2. simpl. ring.
           ++ split; [discriminate|].
              intros [Hle|Heq]; [|lia].
              exfalso. exact (Qlt_not_le _ _ Hsize Hle).
        -- assert (Hchild :
               (S dn <= k)%nat /\ (Z.of_nat k <= D - 1)%Z
               /\ Size n * pow2 (k - S dn) == half
               /\ (IsLeaf n = true <->
                   (Size n <= M \/ Z.of_nat k = (D - 1)%Z))).
           { rewrite !in_app_iff in Hin.
             destruct Hin as [Hin|[Hin|[Hin|Hin]]];
               [apply P0|apply P1|apply P2|apply P3]; exact Hin. }
           destruct Hchild as (Hk & HkD & Hs & Hleaf).
           split; [lia|]. split; [exact HkD|]. split; [|exact Hleaf].
           replace (k - dn)%nat with (S (k - S dn)) by lia.
           rewrite pow2_S.
           transitivity (2 * (Size n * pow2 (k - S dn))); [ring|].
           rewrite Hs. unfold half. ring.
      * intros px pz. cbn [nodes_from].
        change (covering px pz ((dn, ?d) :: ?l)) with (covering px pz l).
        rewrite !covering_app, C0, C1, C2, C3.
        apply quadrants_partition.
    + (* the node is a leaf *)
      eexists. eexists. split; [reflexivity|].
      unfold canSplit in Hsplit. apply andb_false_iff in Hsplit.
      split.
      * intros k n Hin. cbn [nodes_from] in Hin.
        rewrite !app_nil_r in Hin.
        destruct Hin as [Hroot|[]].
        inversion Hroot; subst k n. cbn.
        split; [lia|]. split; [lia|]. split.
        -- rewrite Nat.sub_diag. unfold pow2. simpl. ring.
        -- split; [|reflexivity]. intros _.
           destruct Hsplit as [Hsize|Hdepth].
           ++ left. cbn [flt exactQ] in Hsize.
              now apply ExactFacts.ltb_ge in Hsize.
           ++ right. apply Z.ltb_ge in Hdepth. lia.
      * intros px pz. unfold covering, indicator.
        cbn [nodes_from app filter snd].
        change (in_footprint px pz
                  (set_IsLeaf true (built_node D x z size (Z.of_nat dn))))
          with (in_square px pz x z size).
        cbn [IsLeaf set_IsLeaf andb].
        destruct (in_square px pz x z size); reflexivity.
Qed.

(** [BuildTree] returns: the fuel [Initialize] supplies is never
    exhausted, for any interpretation of [float]. *)
Lemma BuildTree_returns {F : Type} {SF : Scalar F} (M : F) (D : Z) :
  forall fuel x z size depth total,
    (Z.to_nat (D - 1 - depth) < fuel)%nat ->
    BuildTree fuel M D x z size depth total <> None.
Proof.
  induction fuel as [|fuel IH]; intros x z size depth total Hfuel.
  - lia.
  - cbn [BuildTree].
    destruct (canSplit M D size depth) eqn:Hsplit; cbn [negb];
      [|discriminate].
    unfold canSplit in Hsplit. apply andb_true_iff in Hsplit.
    destruct Hsplit as [_ Hdepth]. apply Z.ltb_lt in Hdepth.
    repeat match goal with
           | |- obind (BuildTree fuel M D ?x ?z ?s ?d ?t) _ <> None =>
               let E := fresh "E" in
               destruct (BuildTree fuel M D x z s d t) as [[? ?]|] eqn:E;
               [cbn [obind]|exfalso; revert E; apply IH; lia]
           end.
    discriminate.
Qed.

Lemma Initialize_returns {F : Type} {SF : Scalar F}
  (terrainSize minNodeSize : F) (maxLODLevels : Z) (q0 : QuadTree F) :
  (0 <= maxLODLevels)%Z \/ mLODDistances q0 <> [] ->
  Initialize terrainSize minNodeSize maxLODLevels q0 <> None.
Proof.
  intros Hok. unfold Initialize.
  assert (Htable :
            exists dists,
              match mLODDistances q0 with
              | [] => if (maxLODLevels <? 0)%Z then None
                      else Some (default_LODDistances minNodeSize maxLODLevels)
              | _ :: _ => Some (mLODDistances q0)
              end = Some dists).
  { destruct (mLODDistances q0) as [|t0 table]; [|eauto].
    destruct Hok as [Hok|Hok]; [|congruence].
    destruct (Z.ltb_spec maxLODLevels 0); [lia|eauto]. }
  destruct Htable as [dists ->]. cbn [obind].
  destruct (BuildTree (S (Z.to_nat (maxLODLevels - 1))) minNodeSize
              maxLODLevels (of_Z 0) (of_Z 0) terrainSize 0 0)
    as [[root total]|] eqn:E.
  - discriminate.
  - exfalso. revert E. apply BuildTree_returns. lia.
Qed.

(** X27.  In exact arithmetic, for at least one level ([maxLODLevels >= 1])
    [Initialize] returns a tree in which a node is a leaf exactly when
    its size is at most the minimum node size or its depth is
    [maxLODLevels - 1]; every leaf at depth [k] has
    [k <= maxLODLevels - 1] and size [terrainSize / 2^k]; and every point
    lies in exactly one leaf footprint when it lies in the root square,
    and in none otherwise. *)
Theorem Initialize_leaves_tile (terrainSize minNodeSize : Q)
  (maxLODLevels : Z) (q0 : QuadTree Q) :
  (1 <= maxLODLevels)%Z ->
  exists q,
    Initialize terrainSize minNodeSize maxLODLevels q0 = Some q
    /\ (forall k n,
          In (k, n) (nodes_from 0 (mRoot q)) ->
          (IsLeaf n = true <->
           (Size n <= minNodeSize \/ Z.of_nat k = (maxLODLevels - 1)%Z))
          /\ (IsLeaf n = true ->
              (Z.of_nat k <= maxLODLevels - 1)%Z
              /\ Size n == terrainSize / pow2 k))
    /\ (forall px pz,
          covering px pz (nodes_from 0 (mRoot q))
          = indicator (in_square px pz 0 0 terrainSize)).
Proof.
  intros HD. unfold Initialize.
  assert (Htable :
            exists dists,
              match mLODDistances q0 with
              | [] => if (maxLODLevels <? 0)%Z then None
                      else Some (default_LODDistances minNodeSize maxLODLevels)
              | _ :: _ => Some (mLODDistances q0)
              end = Some dists).
  { destruct (mLODDistances q0) as [|t0 table]; [|eauto].
    destruct (Z.ltb_spec maxLODLevels 0); [lia|eauto]. }
  destruct Htable as [dists ->]. cbn [obind].
  destruct (@BuildTree_spec minNodeSize maxLODLevels
              (S (Z.to_nat (maxLODLevels - 1))) 0 0 terrainSize 0%nat 0%Z)
    as (t & total & E & Hnodes & Hcover); [simpl; lia|simpl; lia|].
  change (Z.of_nat 0) with 0%Z in E.
  change (of_Z 0) with 0. rewrite E. cbn [obind].
  eexists. split; [reflexivity|]. cbn [mRoot].
  split; [|exact Hcover].
  intros k n Hin. destruct (Hnodes k n Hin) as (_ & HkD & Hs & Hleaf).
  split; [exact Hleaf|]. intros _. split; [exact HkD|].
  rewrite Nat.sub_0_r in Hs. rewrite <- Hs.
  field. intros Hz. pose proof (pow2_pos k) as Hp. rewrite Hz in Hp.
  exact (Qlt_irrefl _ Hp).
Qed.

Lemma Initialize_leaves_tile_witness :
  (1 <= 5)%Z
  /\ exists q,
      Initialize 512 64 5 new_QuadTree = Some q
      /\ (forall k n,
            In (k, n) (nodes_from 0 (mRoot q)) ->
            (IsLeaf n = true <->
             (Size n <= 64 \/ Z.of_nat k = (5 - 1)%Z))
            /\ (IsLeaf n = true ->
                (Z.of_nat k <= 5 - 1)%Z /\ Size n == 512 / pow2 k))
      /\ (forall px pz,
            covering px pz (nodes_from 0 (mRoot q))
            = indicator (in_square px pz 0 0 512)).
Proof.
  split; [lia|].
  apply (@Initialize_leaves_tile 512 64 5 new_QuadTree). lia.
Defined.

End TilingFacts.

Module LoopFacts.

Lemma for_range_S {S : Type} (n : nat) (body : nat -> S -> S) (s : S) :
  for_range (Datatypes.S n) body s = body n (for_range n body s).
Proof.
  unfold for_range. rewrite seq_S, fold_left_app. reflexivity.
Qed.

Lemma vec_set_length {A : Type} (a : A) (v : list A) :
  forall i, length (vec_set i a v) = length v.
Proof.
  induction v as [|b v IH]; intros [|i]; simpl; try reflexivity.
  now rewrite IH.
Qed.

Lemma vec_set_app_r {A : Type} (a : A) (l1 l2 : list A) (i : nat) :
  vec_set (length l1 + i) a (l1 ++ l2) = l1 ++ vec_set i a l2.
Proof.
  induction l1 as [|b l1 IH]; simpl; [reflexivity|]. now rewrite IH.
Qed.

Lemma skipn_cons_nth {A : Type} (d : A) (v : list A) :
  forall k, (k < length v)%nat -> skipn k v = nth k v d :: skipn (S k) v.
Proof.
  induction v as [|b v IH]; intros [|k] Hk; simpl in *; try lia.
  - reflexivity.
  - apply IH. lia.
Qed.

(** A loop that stores [f i] at each index [i < n], after [k] rounds. *)
Lemma fill_prefix {A : Type} (f : nat -> A) (v : list A) :
  forall k,
    (k <= length v)%nat ->
    for_range k (fun i g => vec_set i (f i) g) v
    = map f (seq 0 k) ++ skipn k v.
Proof.
  induction k as [|k IH]; intros Hk.
  - reflexivity.
  - rewrite for_range_S, IH by lia.
    destruct v as [|d v]; [simpl in Hk; lia|].
    rewrite (skipn_cons_nth d) by lia.
    replace k with (length (map f (seq 0 k)) + 0)%nat at 1
      by (rewrite length_map, length_seq; lia).
    rewrite vec_set_app_r. simpl vec_set.
    rewrite seq_S, map_app, <- app_assoc. reflexivity.
Qed.

Lemma fill_all {A : Type} (f : nat -> A) (v : list A) :
  for_range (length v) (fun i g => vec_set i (f i) g) v
  = map f (seq 0 (length v)).
Proof.
  rewrite fill_prefix by lia. rewrite skipn_all. apply app_nil_r.
Qed.

End LoopFacts.

Module LoadFacts.
Import TR LoopFacts.

Section Generic.
Context {F : Type} {SF : Scalar F}.

(** C2 (as amended).  Given a 2-byte-per-sample buffer one byte short
    of [width * height * 2], [LoadHeightmap] reports success, reads
    exactly the bytes of the buffer and none beyond it, and stores
    [width * height] samples: those of the buffer extended by one
    zero byte. *)
Theorem LoadHeightmap_one_byte_short (data : list Byte.byte)
  (width height : Z) (t : Terrain F) :
  0 <= width -> 0 <= height ->
  Z.of_nat (length data) = width * height * 2 - 1 ->
  exists t',
    LoadHeightmap (Some data) width height true t
    = (true, t', seq 0 (length data))
    /\ Forall (fun offset => (offset < length data)%nat)
         (seq 0 (length data))
    /\ mHeightmapWidth t' = width /\ mHeightmapHeight t' = height
    /\ mHeightmap t'
       = map (fun i =>
                fdiv (of_Z (raw16 (map byte_val data ++ [0]) i))
                     (of_Z 65535))
           (seq 0 (Z.to_nat (width * height))).
Proof.
  intros Hw Hh Hlen. unfold LoadHeightmap, istream_read.
  set (count := Z.to_nat (width * height)).
  assert (Hcount : (length data + 1 = count * 2)%nat) by lia.
  eexists. split; [|split; [|split; [|split]]].
  - rewrite firstn_all2 by lia.
    replace (Nat.min (count * 2) (length data)) with (length data) by lia.
    reflexivity.
  - apply Forall_forall. intros o Ho. apply in_seq in Ho. lia.
  - reflexivity.
  - reflexivity.
  - cbn [mHeightmap set_heightmap].
    replace count with (length (repeat (of_Z 0 : F) count)) at 1
      by apply repeat_length.
    rewrite fill_all, repeat_length.
    unfold raw_bytes.
    replace (count * 2 - length data)%nat with 1%nat by lia.
    reflexivity.
Qed.

End Generic.

Lemma LoadHeightmap_one_byte_short_witness :
  0 <= 2 /\ 0 <= 1
  /\ Z.of_nat (length [Byte.x34; Byte.x12; Byte.xff]) = 2 * 1 * 2 - 1
  /\ exists t',
      LoadHeightmap (F := B32.t) (Some [Byte.x34; Byte.x12; Byte.xff]) 2 1
        true (new_Terrain (of_Z 512) (of_Z 0) (of_Z 150) [])
      = (true, t', seq 0 (length [Byte.x34; Byte.x12; Byte.xff]))
      /\ Forall (fun offset =>
                  (offset < length [Byte.x34; Byte.x12; Byte.xff])%nat)
           (seq 0 (length [Byte.x34; Byte.x12; Byte.xff]))
      /\ mHeightmapWidth t' = 2 /\ mHeightmapHeight t' = 1
      /\ mHeightmap t'
         = map (fun i =>
                  fdiv (of_Z (raw16 (map byte_val
                                       [Byte.x34; Byte.x12; Byte.xff]
                                     ++ [0]) i))
                       (of_Z 65535))
             (seq 0 (Z.to_nat (2 * 1))).
Proof.
  split; [lia|]. split; [lia|]. split; [reflexivity|].
  apply (@LoadHeightmap_one_byte_short B32.t binary32
           [Byte.x34; Byte.x12; Byte.xff] 2 1
           (new_Terrain (of_Z 512) (of_Z 0) (of_Z 150) []));
    [lia|lia|reflexivity].
Defined.

(** C2 as stated fails: a one-byte buffer for a 1 x 1 grid of 16-bit
    samples is accepted. *)
Lemma short_buffer_is_accepted :
  ~ (forall (data : list Byte.byte) (width height : Z)
            (t : Terrain B32.t),
        0 <= width -> 0 <= height ->
        Z.of_nat (length data) = width * height * 2 - 1 ->
        fst (fst (LoadHeightmap (Some data) width height true t)) = false).
Proof.
  intros H.
  specialize (H [Byte.xff] 1 1
                (new_Terrain (of_Z 512) (of_Z 0) (of_Z 150) [])
                ltac:(lia) ltac:(lia) eq_refl).
  vm_compute in H. discriminate H.
Qed.

End LoadFacts.

Module SampleFacts.
Import TR TRSpec.

Section Generic.
Context {F : Type} {SF : Scalar F}.

Lemma reads_inside_ret {A : Type} (t : Terrain F) (a : A) :
  reads_inside t (rd_ret a).
Proof. split; [discriminate|constructor]. Qed.

Lemma reads_inside_bind {A B : Type} (t : Terrain F) (m : Rd A)
  (k : A -> Rd B) :
  reads_inside t m -> (forall a, reads_inside t (k a)) ->
  reads_inside t (rd_bind m k).
Proof.
  intros [Hm Hl] Hk. destruct m as [l [a|]]; [|now elim Hm].
  unfold rd_bind. specialize (Hk a). destruct (k a) as [l' r].
  destruct Hk as [Hr Hl']. split; [exact Hr|].
  apply Forall_app. split; assumption.
Qed.

Lemma grid_dimensions_positive (t : Terrain F) :
  grid_consistent t -> mHeightmap t <> [] ->
  1 <= mHeightmapWidth t /\ 1 <= mHeightmapHeight t.
Proof.
  intros (Hw & Hh & Hlen) Hne.
  destruct (mHeightmap t) as [|s g]; [congruence|]. simpl in Hlen.
  destruct (Z.eq_dec (mHeightmapWidth t) 0) as [E|E];
    [rewrite E in Hlen; simpl in Hlen; lia|].
  destruct (Z.eq_dec (mHeightmapHeight t) 0) as [E'|E'];
    [rewrite E', Z.mul_0_r in Hlen; simpl in Hlen; lia|].
  lia.
Qed.

(** The clamp of [SampleHeight] lands inside the grid, whatever the
    requested texel. *)
Lemma SampleHeight_inside (t : Terrain F) (x z : Z) :
  grid_consistent t -> mHeightmap t <> [] ->
  reads_inside t (SampleHeight t x z).
Proof.
  intros Hc Hne.
  destruct (grid_dimensions_positive Hc Hne) as [Hw Hh].
  destruct Hc as (_ & _ & Hlen).
  unfold SampleHeight, reads_inside. cbn [fst snd].
  pose proof (IntFacts.wrap_int_pred_le Hw) as HmaxX.
  pose proof (IntFacts.wrap_int_pred_le Hh) as HmaxZ.
  set (maxX := Int.wrap_int (Int.wrap_int (mHeightmapWidth t) - 1)) in *.
  set (maxZ := Int.wrap_int (Int.wrap_int (mHeightmapHeight t) - 1)) in *.
  set (xc := Z.max 0 (Z.min x maxX)).
  set (zc := Z.max 0 (Z.min z maxZ)).
  assert (Hx : 0 <= xc <= mHeightmapWidth t - 1) by (subst xc; lia).
  assert (Hz : 0 <= zc <= mHeightmapHeight t - 1) by (subst zc; lia).
  split.
  - destruct (Z.ltb_spec (zc * mHeightmapWidth t + xc) 0) as [Hneg|_];
      [nia|].
    apply nth_error_Some. rewrite Hlen. nia.
  - constructor; [split; assumption|constructor].
Qed.

Lemma GetHeight_inside (t : Terrain F) (x z : F) :
  grid_consistent t -> reads_inside t (GetHeight t x z).
Proof.
  intros Hc. unfold GetHeight.
  destruct (mHeightmap t) as [|s g] eqn:Hg.
  - apply reads_inside_ret.
  - assert (Hne : mHeightmap t <> []) by (rewrite Hg; discriminate).
    repeat (apply reads_inside_bind;
            [apply SampleHeight_inside; assumption|intros ?]).
    apply reads_inside_ret.
Qed.

Variable XMVector3Normalize : XMFLOAT3 F -> XMFLOAT3 F.

Lemma GetNormal_inside (t : Terrain F) (x z : F) :
  grid_consistent t ->
  reads_inside t (GetNormal XMVector3Normalize t x z).
Proof.
  intros Hc. unfold GetNormal.
  repeat (apply reads_inside_bind;
          [apply GetHeight_inside; assumption|intros ?]).
  apply reads_inside_ret.
Qed.

(** The loaders establish [grid_consistent]. *)
Lemma LoadHeightmap_consistent file width height is16Bit (t : Terrain F) :
  0 <= width -> 0 <= height -> grid_consistent t ->
  grid_consistent (snd (fst (LoadHeightmap file width height is16Bit t))).
Proof.
  intros Hw Hh Hc. unfold LoadHeightmap.
  destruct file as [data|]; [|exact Hc].
  destruct is16Bit; cbn [istream_read fst snd];
    (split; [exact Hw|split; [exact Hh|]];
     cbn [mHeightmap set_heightmap mHeightmapWidth mHeightmapHeight];
     match goal with
     | |- length (for_range ?n ?f ?g) = _ =>
         let H := fresh in
         assert (H : forall k v, length (for_range k f v) = length v)
           by (induction k as [|k IHk]; intros v;
               [reflexivity
               |rewrite LoopFacts.for_range_S,
                  LoopFacts.vec_set_length; apply IHk]);
         rewrite H
     end;
     apply repeat_length).
Qed.

Lemma new_Terrain_consistent (terrainSize minHeight maxHeight : F) base :
  grid_consistent (new_Terrain terrainSize minHeight maxHeight base).
Proof. unfold grid_consistent. simpl. repeat split; lia. Qed.

End Generic.

(** C6.  On a consistent grid, for every world coordinate pair,
    [GetHeight] and [GetNormal] address only texels of
    [0, width-1] x [0, height-1] and never read outside the vector; on
    an empty grid [GetHeight] reads nothing and returns 0. *)
Theorem height_queries_stay_inside_grid {F : Type} {SF : Scalar F}
  (XMVector3Normalize : XMFLOAT3 F -> XMFLOAT3 F) (t : Terrain F) :
  grid_consistent t ->
  forall x z : F,
    (snd (GetHeight t x z) <> None
     /\ Forall (in_grid t) (fst (GetHeight t x z)))
    /\ (snd (GetNormal XMVector3Normalize t x z) <> None
        /\ Forall (in_grid t) (fst (GetNormal XMVector3Normalize t x z)))
    /\ (mHeightmap t = [] -> GetHeight t x z = ([], Some (of_Z 0))).
Proof.
  intros Hc x z. split; [|split].
  - apply GetHeight_inside; assumption.
  - apply GetNormal_inside; assumption.
  - intros He. unfold GetHeight. rewrite He. reflexivity.
Qed.

End SampleFacts.

Module ExactSampleFacts.
Import TR TRSpec SampleFacts.

Lemma to_int_inject_Z (n : Z) :
  Int.int_min <= n <= Int.int_max -> Exact.to_int (inject_Z n) = n.
Proof.
  intros Hn. unfold Exact.to_int, Exact.truncZ, Int.of_float_value, Int.in_int.
  simpl. rewrite Z.quot_1_r.
  destruct (Z.leb_spec Int.int_min n); [|lia].
  destruct (Z.leb_spec n Int.int_max); [|lia]. reflexivity.
Qed.

Lemma snd_rd_bind {A B : Type} (m : Rd A) (k : A -> Rd B) :
  snd (rd_bind m k)
  = match snd m with
    | Some a => snd (k a)
    | None => None
    end.
Proof.
  destruct m as [l [a|]]; simpl; [|reflexivity].
  destruct (k a); reflexivity.
Qed.

Lemma snd_rd_bind_some {A B : Type} (m : Rd A) (k : A -> Rd B) (a : A) :
  snd m = Some a -> snd (rd_bind m k) = snd (k a).
Proof. intros H. rewrite snd_rd_bind, H. reflexivity. Qed.

(** [SampleHeight] at a texel of the grid reads that texel. *)
Lemma SampleHeight_at_texel {F : Type} {SF : Scalar F} (t : Terrain F)
  (i j : Z) :
  mHeightmapWidth t <= Int.int_max -> mHeightmapHeight t <= Int.int_max ->
  0 <= i < mHeightmapWidth t -> 0 <= j < mHeightmapHeight t ->
  snd (SampleHeight t i j)
  = nth_error (mHeightmap t) (Z.to_nat (j * mHeightmapWidth t + i)).
Proof.
  intros Hw Hh Hi Hj. unfold SampleHeight. cbn [snd].
  unfold Int.int_max in *.
  rewrite (IntFacts.wrap_int_small (n := mHeightmapWidth t))
    by (unfold Int.int_min, Int.int_max; lia).
  rewrite (IntFacts.wrap_int_small (n := mHeightmapHeight t))
    by (unfold Int.int_min, Int.int_max; lia).
  rewrite !IntFacts.wrap_int_small by (unfold Int.int_min, Int.int_max; lia).
  replace (Z.max 0 (Z.min i (mHeightmapWidth t - 1))) with i by lia.
  replace (Z.max 0 (Z.min j (mHeightmapHeight t - 1))) with j by lia.
  destruct (Z.ltb_spec (j * mHeightmapWidth t + i) 0); [nia|reflexivity].
Qed.

(** X29.  In exact arithmetic, for a terrain size other than zero, when
    [(x, z)] maps exactly onto the texel [(i, j)] of a consistent grid
    whose dimensions fit [int], [GetHeight] returns
    [mMinHeight + s * (mMaxHeight - mMinHeight)] for the sample [s]
    stored at that texel. *)
Theorem GetHeight_exact_at_texel (t : Terrain Q) (x z : Q) (i j : Z)
  (s : Q) :
  ~ (mTerrainSize t == 0)%Q ->
  grid_consistent t ->
  mHeightmapWidth t <= Int.int_max -> mHeightmapHeight t <= Int.int_max ->
  0 <= i < mHeightmapWidth t -> 0 <= j < mHeightmapHeight t ->
  ((x / mTerrainSize t + (1 # 2)) * inject_Z (mHeightmapWidth t)
   == inject_Z i)%Q ->
  ((z / mTerrainSize t + (1 # 2)) * inject_Z (mHeightmapHeight t)
   == inject_Z j)%Q ->
  nth_error (mHeightmap t) (Z.to_nat (j * mHeightmapWidth t + i)) = Some s ->
  exists r,
    snd (GetHeight t x z) = Some r
    /\ (r == mMinHeight t + s * (mMaxHeight t - mMinHeight t))%Q.
Proof.
  intros _ Hc Hw Hh Hi Hj Hu Hv Hs.
  assert (Hne : mHeightmap t <> []).
  { intros He. rewrite He in Hs. destruct (Z.to_nat _); discriminate. }
  unfold GetHeight.
  destruct (mHeightmap t) as [|s0 g] eqn:Hg; [congruence|].
  clear Hne. assert (Hne : mHeightmap t <> []) by (rewrite Hg; discriminate).
  cbn [fsub fadd fmul fdiv of_ratio of_Z ffloor to_int exactQ].
  assert (Hfu : Qfloor ((x / mTerrainSize t + (1 # 2))
                        * inject_Z (mHeightmapWidth t)) = i)
    by (rewrite Hu; apply Qfloor_Z).
  assert (Hfv : Qfloor ((z / mTerrainSize t + (1 # 2))
                        * inject_Z (mHeightmapHeight t)) = j)
    by (rewrite Hv; apply Qfloor_Z).
  rewrite Hfu, Hfv.
  rewrite !to_int_inject_Z by (unfold Int.int_min, Int.int_max in *; lia).
  assert (H00 : snd (SampleHeight t i j) = Some s)
    by (rewrite SampleHeight_at_texel by assumption; rewrite Hg; exact Hs).
  destruct (SampleHeight_inside (Int.wrap_int (i + 1)) j Hc Hne)
    as [H10 _].
  destruct (snd (SampleHeight t (Int.wrap_int (i + 1)) j))
    as [h10|] eqn:E10; [clear H10|congruence].
  destruct (SampleHeight_inside i (Int.wrap_int (j + 1)) Hc Hne)
    as [H01 _].
  destruct (snd (SampleHeight t i (Int.wrap_int (j + 1))))
    as [h01|] eqn:E01; [clear H01|congruence].
  destruct (SampleHeight_inside (Int.wrap_int (i + 1))
              (Int.wrap_int (j + 1)) Hc Hne) as [H11 _].
  destruct (snd (SampleHeight t (Int.wrap_int (i + 1))
                   (Int.wrap_int (j + 1))))
    as [h11|] eqn:E11; [clear H11|congruence].
  rewrite (snd_rd_bind_some _ _ H00). cbv beta.
  rewrite (snd_rd_bind_some _ _ E10). cbv beta.
  rewrite (snd_rd_bind_some _ _ E01). cbv beta.
  rewrite (snd_rd_bind_some _ _ E11). cbv beta.
  cbn [rd_ret snd]. eexists. split; [reflexivity|].
  rewrite Hu, Hv. ring.
Qed.

End ExactSampleFacts.

Module GenLoopFacts.
Import TR GenSpec LoopFacts.

Lemma for_range_ext {S : Type} (n : nat) (f g : nat -> S -> S) (s : S) :
  (forall i s', (i < n)%nat -> f i s' = g i s') ->
  for_range n f s = for_range n g s.
Proof.
  induction n as [|n IH]; intros Hfg; [reflexivity|].
  rewrite !for_range_S, IH by (intros; apply Hfg; lia).
  apply Hfg. lia.
Qed.

(** A loop over a triple whose components evolve independently. *)
Lemma for_range_triple {A B C : Type} (n : nat)
  (fa : nat -> A -> A) (fb : nat -> B -> B) (fc : nat -> C -> C) a b c :
  for_range n (fun i (s : A * B * C) =>
                 let '(x, y, z) := s in (fa i x, fb i y, fc i z)) (a, b, c)
  = (for_range n fa a, for_range n fb b, for_range n fc c).
Proof.
  induction n as [|n IH]; [reflexivity|].
  rewrite !for_range_S, IH. reflexivity.
Qed.

(** A loop that folds [op] over the values [f 0 .. f (n-1)]. *)
Lemma for_range_fold {A B : Type} (n : nat) (op : A -> B -> A)
  (f : nat -> B) (a : A) :
  for_range n (fun i acc => op acc (f i)) a
  = fold_left op (map f (seq 0 n)) a.
Proof.
  induction n as [|n IH]; [reflexivity|].
  rewrite for_range_S, IH, seq_S, map_app, fold_left_app. reflexivity.
Qed.

(** Filling [n] cells from offset [off], the length of [pre]. *)
Lemma fill_from_offset {A : Type} (f : nat -> A) (pre rest : list A)
  (off : nat) :
  off = length pre ->
  forall n,
    (n <= length rest)%nat ->
    for_range n (fun i g => vec_set (off + i) (f i) g) (pre ++ rest)
    = pre ++ map f (seq 0 n) ++ skipn n rest.
Proof.
  intros -> n Hn.
  assert (H : forall k v,
             for_range k (fun i g => vec_set (length pre + i) (f i) g)
               (pre ++ v)
             = pre ++ for_range k (fun i g => vec_set i (f i) g) v).
  { induction k as [|k IHk]; intros v; [reflexivity|].
    rewrite !for_range_S, IHk, vec_set_app_r. reflexivity. }
  rewrite H, fill_prefix by exact Hn. reflexivity.
Qed.

Lemma flat_map_seq_S {A : Type} (f : nat -> list A) (n : nat) :
  flat_map f (seq 0 (S n)) = flat_map f (seq 0 n) ++ f n.
Proof.
  rewrite seq_S, flat_map_app. simpl. now rewrite app_nil_r.
Qed.

Lemma length_rows {A : Type} (f : nat -> nat -> A) (w : nat) :
  forall k,
    length (flat_map (fun z => map (fun x => f x z) (seq 0 w)) (seq 0 k))
    = (k * w)%nat.
Proof.
  induction k as [|k IH]; [reflexivity|].
  rewrite flat_map_seq_S, length_app, IH, length_map, length_seq. lia.
Qed.

(** The two nested loops that store [f x z] at index [z * w + x] fill a
    vector of [h * w] cells row by row. *)
Lemma fill_rows {A : Type} (f : nat -> nat -> A) (w : nat) (v : list A) :
  forall k,
    (k * w <= length v)%nat ->
    for_range k
      (fun z => for_range w (fun x g => vec_set (z * w + x) (f x z) g)) v
    = flat_map (fun z => map (fun x => f x z) (seq 0 w)) (seq 0 k)
      ++ skipn (k * w) v.
Proof.
  induction k as [|k IH]; intros Hk; [reflexivity|].
  rewrite for_range_S, IH by lia.
  set (pre := flat_map (fun z => map (fun x => f x z) (seq 0 w)) (seq 0 k)).
  assert (Hpre : length pre = (k * w)%nat) by apply length_rows.
  rewrite fill_from_offset
    by (try (symmetry; exact Hpre); rewrite length_skipn; lia).
  rewrite flat_map_seq_S. fold pre. rewrite <- app_assoc. f_equal. f_equal.
  rewrite skipn_skipn. reflexivity.
Qed.

Section Generic.
Context {F : Type} {SF : Scalar F}.

(** The cell loops, component by component: the grid is filled row by
    row with the fractal values, and [hi] and [lo] fold [std::max] and
    [std::min] over them from 0 and 1. *)
Lemma generate_cells_spec (t : Terrain F) (width height : Z)
  (frequency : F) (octaves : Z) :
  0 <= width -> 0 <= height ->
  let vs := fractal_grid t width height frequency octaves in
  generate_cells t width height frequency octaves
  = (vs, fold_left fmax vs (of_Z 0), fold_left fmin vs (of_Z 1)).
Proof.
  intros Hw Hh vs. unfold generate_cells.
  set (w := Z.to_nat width). set (h := Z.to_nat height).
  set (f := fun x z => fractal_value t width height frequency octaves x z).
  rewrite for_range_ext with
    (g := fun z (s : list F * F * F) =>
            let '(g, hi, lo) := s in
            (for_range w (fun x g => vec_set (z * w + x) (f x z) g) g,
             for_range w (fun x hi => fmax hi (f x z)) hi,
             for_range w (fun x lo => fmin lo (f x z)) lo)).
  2:{ intros z [[g hi] lo] _. unfold cell_step.
      rewrite <- for_range_triple. reflexivity. }
  rewrite for_range_triple.
  assert (Hlen : length (repeat (of_Z 0 : F) (Z.to_nat (width * height)))
                 = (h * w)%nat).
  { rewrite repeat_length. subst w h. rewrite Z2Nat.inj_mul by lia. lia. }
  f_equal; [f_equal|].
  - rewrite fill_rows by lia. rewrite skipn_all2 by lia.
    apply app_nil_r.
  - clear Hlen. unfold vs, fractal_grid. fold w h.
    generalize (of_Z 0 : F). induction h as [|k IH]; intros a.
    + reflexivity.
    + rewrite for_range_S, IH, flat_map_seq_S, fold_left_app.
      exact (for_range_fold w fmax (fun x => f x k) _).
  - clear Hlen. unfold vs, fractal_grid. fold w h.
    generalize (of_Z 1 : F). induction h as [|k IH]; intros a.
    + reflexivity.
    + rewrite for_range_S, IH, flat_map_seq_S, fold_left_app.
      exact (for_range_fold w fmin (fun x => f x k) _).
Qed.

Lemma GenerateProceduralHeightmap_consistent (t : Terrain F)
  (width height : Z) (frequency : F) (octaves : Z) :
  0 <= width -> 0 <= height ->
  TRSpec.grid_consistent
    (GenerateProceduralHeightmap width height frequency octaves t).
Proof.
  intros Hw Hh. unfold GenerateProceduralHeightmap.
  rewrite generate_cells_spec by assumption.
  unfold TRSpec.grid_consistent.
  cbn [mHeightmap mHeightmapWidth mHeightmapHeight set_heightmap].
  split; [exact Hw|]. split; [exact Hh|].
  assert (Hlen : length (fractal_grid t width height frequency octaves)
                 = Z.to_nat (width * height)).
  { unfold fractal_grid. rewrite length_rows, Z2Nat.inj_mul by lia. lia. }
  destruct (flt _ _); [rewrite length_map|]; exact Hlen.
Qed.

End Generic.
End GenLoopFacts.

Module GenExactFacts.
Import TR GenSpec LoopFacts GenLoopFacts.
Local Open Scope Q_scope.

(** *** The noise vanishes at the origin of a lattice cell *)

Lemma Fade_zero (a : Q) : a == 0 -> Fade a == 0.
Proof.
  intros Ha. unfold Fade. cbn [fmul fsub fadd of_Z exactQ].
  rewrite Ha. ring.
Qed.

Lemma Grad_zero (hash : Z) (a b : Q) : a == 0 -> b == 0 -> Grad hash a b == 0.
Proof.
  intros Ha Hb. unfold Grad. cbn [fadd fneg exactQ].
  destruct (Z.land hash 3 <? 2)%Z;
    destruct (Z.land (Z.land hash 3) 1 =? 0)%Z;
    destruct (Z.land (Z.land hash 3) 2 =? 0)%Z;
    rewrite Ha, Hb; ring.
Qed.

Lemma fraction_zero (a : Q) : a == 0 -> a - inject_Z (Qfloor a) == 0.
Proof.
  intros Ha.
  assert (Hf : Qfloor a = 0%Z) by (rewrite Ha; reflexivity).
  rewrite Hf, Ha. reflexivity.
Qed.

Lemma PerlinNoise_zero (t : Terrain Q) (a b : Q) :
  a == 0 -> b == 0 -> PerlinNoise t a b == 0.
Proof.
  intros Ha Hb. unfold PerlinNoise, Lerp.
  cbn [fmul fsub fadd of_Z ffloor to_int exactQ].
  pose proof (fraction_zero Ha) as Hfa.
  pose proof (fraction_zero Hb) as Hfb.
  set (fa := a - inject_Z (Qfloor a)) in *.
  set (fb := b - inject_Z (Qfloor b)) in *.
  rewrite (Fade_zero Hfa), (Fade_zero Hfb).
  rewrite (Grad_zero _ Hfa Hfb). ring.
Qed.

(** The octave loop keeps [sum] at zero when the cell coordinates are
    zero. *)
Lemma octaves_sum_zero (t : Terrain Q) (nx nz : Q) :
  nx == 0 -> nz == 0 ->
  forall n s,
    fst (fst (fst s)) == 0 ->
    fst (fst (fst (for_range n (fun _ => octave_step t nx nz) s))) == 0.
Proof.
  intros Hx Hz. induction n as [|n IH]; intros s Hs; [exact Hs|].
  rewrite for_range_S. specialize (IH s Hs).
  destruct (for_range n (fun _ => octave_step t nx nz) s)
    as [[[sum amp] freq] ampSum].
  cbn [fst] in IH. unfold octave_step. cbn [fst fadd fmul exactQ].
  rewrite IH, PerlinNoise_zero; [ring| |].
  - rewrite Hx. ring.
  - rewrite Hz. ring.
Qed.

(** The cell [(0, 0)] always gets the value one half. *)
Lemma fractal_value_origin (t : Terrain Q) (width height : Z)
  (frequency : Q) (octaves : Z) :
  fractal_value t width height frequency octaves 0 0 == 1 # 2.
Proof.
  unfold fractal_value. cbn [fdiv fadd fmul of_Z of_ratio exactQ].
  pose proof (@octaves_sum_zero t
                (inject_Z (Z.of_nat 0) / inject_Z width)
                (inject_Z (Z.of_nat 0) / inject_Z height)) as H.
  specialize (H ltac:(unfold Qdiv; simpl; ring) ltac:(unfold Qdiv; simpl; ring)
                (Z.to_nat octaves) (inject_Z 0, inject_Z 1, frequency, inject_Z 0)
                ltac:(reflexivity)).
  destruct (for_range (Z.to_nat octaves)
              (fun _ => octave_step t
                          (inject_Z (Z.of_nat 0) / inject_Z width)
                          (inject_Z (Z.of_nat 0) / inject_Z height))
              (inject_Z 0, inject_Z 1, frequency, inject_Z 0))
    as [[[sum amp] freq] ampSum].
  cbn [fst] in H. unfold Qdiv. rewrite H. ring.
Qed.

Lemma origin_in_fractal_grid (t : Terrain Q) (width height : Z)
  (frequency : Q) (octaves : Z) :
  (1 <= width)%Z -> (1 <= height)%Z ->
  In (fractal_value t width height frequency octaves 0 0)
     (fractal_grid t width height frequency octaves).
Proof.
  intros Hw Hh. unfold fractal_grid.
  apply in_flat_map. exists 0%nat. split.
  - apply in_seq. lia.
  - apply in_map_iff. exists 0%nat. split; [reflexivity|].
    apply in_seq. lia.
Qed.

(** *** Running maximum and minimum *)

Lemma fold_fmax_spec (vs : list Q) :
  forall a,
    let hi := fold_left fmax vs a in
    a <= hi /\ (forall v, In v vs -> v <= hi) /\ (hi = a \/ In hi vs).
Proof.
  induction vs as [|v vs IH]; intros a; cbn [fold_left].
  - split; [apply Qle_refl|]. split; [intros v []|now left].
  - specialize (IH (fmax a v)). cbv zeta in IH.
    destruct IH as (Ha & Hall & Hin).
    assert (Hstep : a <= fmax a v /\ v <= fmax a v
                    /\ (fmax a v = a \/ fmax a v = v)).
    { unfold fmax. cbn [flt exactQ].
      destruct (Exact.ltb a v) eqn:E.
      - apply ExactFacts.ltb_lt in E. repeat split; try lra. now right.
      - apply ExactFacts.ltb_ge in E. repeat split; try lra. now left. }
    destruct Hstep as (H1 & H2 & H3).
    split; [lra|]. split.
    + intros u [<-|Hu]; [lra|now apply Hall].
    + destruct Hin as [Hin|Hin]; [|right; now right].
      destruct H3 as [H3|H3]; [left|right; left]; congruence.
Qed.

Lemma fold_fmin_spec (vs : list Q) :
  forall a,
    let lo := fold_left fmin vs a in
    lo <= a /\ (forall v, In v vs -> lo <= v) /\ (lo = a \/ In lo vs).
Proof.
  induction vs as [|v vs IH]; intros a; cbn [fold_left].
  - split; [apply Qle_refl|]. split; [intros v []|now left].
  - specialize (IH (fmin a v)). cbv zeta in IH.
    destruct IH as (Ha & Hall & Hin).
    assert (Hstep : fmin a v <= a /\ fmin a v <= v
                    /\ (fmin a v = a \/ fmin a v = v)).
    { unfold fmin. cbn [flt exactQ].
      destruct (Exact.ltb v a) eqn:E.
      - apply ExactFacts.ltb_lt in E. repeat split; try lra. now right.
      - apply ExactFacts.ltb_ge in E. repeat split; try lra. now left. }
    destruct Hstep as (H1 & H2 & H3).
    split; [lra|]. split.
    + intros u [<-|Hu]; [lra|now apply Hall].
    + destruct Hin as [Hin|Hin]; [|right; now right].
      destruct H3 as [H3|H3]; [left|right; left]; congruence.
Qed.

Lemma grid_max_spec (g : list Q) :
  g <> [] -> In (grid_max g) g /\ forall v, In v g -> v <= grid_max g.
Proof.
  induction g as [|v g IH]; intros Hne; [congruence|].
  destruct g as [|v' g'].
  - simpl. split; [now left|]. intros u [<-|[]]. apply Qle_refl.
  - specialize (IH ltac:(discriminate)). destruct IH as [Hin Hall].
    change (grid_max (v :: v' :: g'))
      with (if Qle_bool (grid_max (v' :: g')) v then v
            else grid_max (v' :: g')).
    destruct (Qle_bool (grid_max (v' :: g')) v) eqn:E.
    + apply ExactFacts.leb_le in E. split; [now left|].
      intros u [<-|Hu]; [apply Qle_refl|].
      specialize (Hall u Hu). lra.
    + apply ExactFacts.leb_gt in E. split; [now right|].
      intros u [<-|Hu]; [lra|now apply Hall].
Qed.

Lemma grid_min_spec (g : list Q) :
  g <> [] -> In (grid_min g) g /\ forall v, In v g -> grid_min g <= v.
Proof.
  induction g as [|v g IH]; intros Hne; [congruence|].
  destruct g as [|v' g'].
  - simpl. split; [now left|]. intros u [<-|[]]. apply Qle_refl.
  - specialize (IH ltac:(discriminate)). destruct IH as [Hin Hall].
    change (grid_min (v :: v' :: g'))
      with (if Qle_bool v (grid_min (v' :: g')) then v
            else grid_min (v' :: g')).
    destruct (Qle_bool v (grid_min (v' :: g'))) eqn:E.
    + apply ExactFacts.leb_le in E. split; [now left|].
      intros u [<-|Hu]; [apply Qle_refl|].
      specialize (Hall u Hu). lra.
    + apply ExactFacts.leb_gt in E. split; [now right|].
      intros u [<-|Hu]; [lra|now apply Hall].
Qed.

Lemma grid_max_unique (g : list Q) (m : Q) :
  (exists v, In v g /\ v == m) -> (forall v, In v g -> v <= m) ->
  grid_max g == m.
Proof.
  intros (v & Hv & Hvm) Hall.
  assert (Hne : g <> []) by (intros ->; exact Hv).
  destruct (grid_max_spec Hne) as [Hin Hub].
  specialize (Hub v Hv). specialize (Hall _ Hin). lra.
Qed.

Lemma grid_min_unique (g : list Q) (m : Q) :
  (exists v, In v g /\ v == m) -> (forall v, In v g -> m <= v) ->
  grid_min g == m.
Proof.
  intros (v & Hv & Hvm) Hall.
  assert (Hne : g <> []) by (intros ->; exact Hv).
  destruct (grid_min_spec Hne) as [Hin Hlb].
  specialize (Hlb v Hv). specialize (Hall _ Hin). lra.
Qed.

(** X28.  In exact arithmetic, for a grid of at least one cell and at least
    one octave: when the largest and the smallest of the remapped
    fractal values differ by more than 0.001, the stored grid has
    minimum 0 and maximum 1; otherwise the remapped values are stored as
    they are. *)
Theorem GenerateProceduralHeightmap_normalized (t : Terrain Q)
  (width height : Z) (frequency : Q) (octaves : Z) :
  (1 <= width)%Z -> (1 <= height)%Z -> (1 <= octaves)%Z ->
  let unscaled := fractal_grid t width height frequency octaves in
  let stored :=
    mHeightmap
      (GenerateProceduralHeightmap width height frequency octaves t) in
  let range := grid_max unscaled - grid_min unscaled in
  (1 # 1000 < range -> grid_min stored == 0 /\ grid_max stored == 1)
  /\ (range <= 1 # 1000 -> stored = unscaled).
Proof.
  intros Hw Hh _ unscaled stored range.
  subst stored. unfold GenerateProceduralHeightmap.
  rewrite generate_cells_spec by lia. fold unscaled.
  cbn [mHeightmap set_heightmap flt fsub fdiv of_ratio of_Z exactQ].
  set (hi := fold_left fmax unscaled (inject_Z 0)).
  set (lo := fold_left fmin unscaled (inject_Z 1)).
  pose proof (origin_in_fractal_grid t frequency octaves Hw Hh) as H0in.
  pose proof (fractal_value_origin t width height frequency octaves) as H0.
  fold unscaled in H0in.
  set (v0 := fractal_value t width height frequency octaves 0 0) in *.
  destruct (fold_fmax_spec unscaled (inject_Z 0)) as (_ & Hhi & Hhi_in).
  destruct (fold_fmin_spec unscaled (inject_Z 1)) as (_ & Hlo & Hlo_in).
  fold hi in Hhi, Hhi_in. fold lo in Hlo, Hlo_in.
  assert (Hhi' : In hi unscaled).
  { destruct Hhi_in as [E|Hin]; [|exact Hin].
    exfalso. specialize (Hhi _ H0in). rewrite E in Hhi.
    change (inject_Z 0) with 0 in Hhi. lra. }
  assert (Hlo' : In lo unscaled).
  { destruct Hlo_in as [E|Hin]; [|exact Hin].
    exfalso. specialize (Hlo _ H0in). rewrite E in Hlo.
    change (inject_Z 1) with 1 in Hlo. lra. }
  assert (Emax : grid_max unscaled == hi)
    by (apply grid_max_unique; [exists hi; split; [assumption|reflexivity]
                               |assumption]).
  assert (Emin : grid_min unscaled == lo)
    by (apply grid_min_unique; [exists lo; split; [assumption|reflexivity]
                               |assumption]).
  assert (Erange : range == hi - lo)
    by (subst range; rewrite Emax, Emin; reflexivity).
  destruct (Exact.ltb (1 # 1000) (hi - lo)) eqn:Hcond.
  - apply ExactFacts.ltb_lt in Hcond. split; [intros _|intros Hr; lra].
    assert (Hpos : 0 < hi - lo) by lra.
    split.
    + apply grid_min_unique.
      * exists ((lo - lo) / (hi - lo)). split.
        -- apply in_map_iff. exists lo. split; [reflexivity|assumption].
        -- field. lra.
      * intros u Hu. apply in_map_iff in Hu.
        destruct Hu as (v & <- & Hv). specialize (Hlo v Hv).
        apply Qle_shift_div_l; [exact Hpos|]. lra.
    + apply grid_max_unique.
      * exists ((hi - lo) / (hi - lo)). split.
        -- apply in_map_iff. exists hi. split; [reflexivity|assumption].
        -- field. lra.
      * intros u Hu. apply in_map_iff in Hu.
        destruct Hu as (v & <- & Hv). specialize (Hhi v Hv).
        apply Qle_shift_div_r; [exact Hpos|]. lra.
  - apply ExactFacts.ltb_ge in Hcond. split; [intros Hr; lra|reflexivity].
Qed.

End GenExactFacts.

Module Witnesses.
Import TR TRSpec GenSpec Samples SampleFacts ExactSampleFacts GenExactFacts.

Lemma height_queries_stay_inside_grid_witness :
  grid_consistent small_terrain
  /\ (snd (GetHeight small_terrain (of_Z 5120) (of_Z (-5120))) <> None
      /\ Forall (in_grid small_terrain)
           (fst (GetHeight small_terrain (of_Z 5120) (of_Z (-5120)))))
  /\ (snd (GetNormal unnormalized small_terrain (of_Z 5120) (of_Z (-5120)))
      <> None
      /\ Forall (in_grid small_terrain)
           (fst (GetNormal unnormalized small_terrain (of_Z 5120)
                   (of_Z (-5120)))))
  /\ (mHeightmap small_terrain = [] ->
      GetHeight small_terrain (of_Z 5120) (of_Z (-5120))
      = ([], Some (of_Z 0))).
Proof.
  assert (Hc : grid_consistent small_terrain).
  { unfold grid_consistent. vm_compute. repeat split; discriminate. }
  split; [exact Hc|].
  exact (height_queries_stay_inside_grid unnormalized Hc
           (of_Z 5120) (of_Z (-5120))).
Defined.

Lemma GetHeight_exact_at_texel_witness :
  (~ (mTerrainSize small_terrain_exact == 0)%Q
   /\ grid_consistent small_terrain_exact
   /\ mHeightmapWidth small_terrain_exact <= Int.int_max
   /\ mHeightmapHeight small_terrain_exact <= Int.int_max
   /\ 0 <= 1 < mHeightmapWidth small_terrain_exact
   /\ 0 <= 1 < mHeightmapHeight small_terrain_exact)
  /\ exists r,
      snd (GetHeight small_terrain_exact 0%Q 0%Q) = Some r
      /\ (r == mMinHeight small_terrain_exact
               + (255 / 255) * (mMaxHeight small_terrain_exact
                                - mMinHeight small_terrain_exact))%Q.
Proof.
  assert (Hc : grid_consistent small_terrain_exact)
    by (unfold grid_consistent; vm_compute; repeat split; discriminate).
  assert (Hw : mHeightmapWidth small_terrain_exact <= Int.int_max)
    by (vm_compute; discriminate).
  assert (Hh : mHeightmapHeight small_terrain_exact <= Int.int_max)
    by (vm_compute; discriminate).
  assert (Hi : 0 <= 1 < mHeightmapWidth small_terrain_exact)
    by (vm_compute; split; [discriminate|reflexivity]).
  assert (Hj : 0 <= 1 < mHeightmapHeight small_terrain_exact)
    by (vm_compute; split; [discriminate|reflexivity]).
  assert (HT : ~ (mTerrainSize small_terrain_exact == 0)%Q)
    by discriminate.
  split; [repeat split; assumption || apply Hi || apply Hj|].
  apply (@GetHeight_exact_at_texel small_terrain_exact 0%Q 0%Q 1 1
           (255 / 255)%Q HT Hc Hw Hh Hi Hj).
  - vm_compute. reflexivity.
  - vm_compute. reflexivity.
  - reflexivity.
Defined.

Lemma GenerateProceduralHeightmap_normalized_witness :
  (1 <= 3 /\ 1 <= 3 /\ 1 <= 2)
  /\ (grid_min
        (mHeightmap
           (GenerateProceduralHeightmap 3 3 (2 # 1)%Q 2 fresh_terrain_exact))
      == 0)%Q
  /\ (grid_max
        (mHeightmap
           (GenerateProceduralHeightmap 3 3 (2 # 1)%Q 2 fresh_terrain_exact))
      == 1)%Q.
Proof.
  split; [lia|].
  apply (proj1 (@GenerateProceduralHeightmap_normalized fresh_terrain_exact
                  3 3 (2 # 1)%Q 2 ltac:(lia) ltac:(lia) ltac:(lia))).
  vm_compute. reflexivity.
Defined.

End Witnesses.

Module Binary32Runs.
Import QT TR QTSpec TilingSpec Samples Binary32Samples.

(** In binary32 the application's tree has 85 nodes; its 64 leaves are
    at depth 3 and of size 64, and sample points are covered once. *)
Example application_tree_leaves :
  GetTotalNodeCount application_tree = 85
  /\ forallb
       (fun kn =>
          if IsLeaf (snd kn)
          then Nat.eqb (fst kn) 3
               && fle (Size (snd kn)) (of_Z 64)
               && fle (of_Z 64) (Size (snd kn))
          else Nat.ltb (fst kn) 3)
       (nodes_from 0 (mRoot application_tree)) = true
  /\ length (filter (fun kn => IsLeaf (snd kn))
               (nodes_from 0 (mRoot application_tree))) = 64%nat
  /\ map (fun p => covering (fst p) (snd p)
                     (nodes_from 0 (mRoot application_tree)))
       [(of_Z 0, of_Z 0); (of_Z (-256), of_Z (-256));
        (of_Z 255, of_Z 255); (of_Z 256, of_Z 0); (of_Z 64, of_Z (-192))]
     = [1; 1; 1; 0; 1]%nat.
Proof. repeat split; vm_compute; reflexivity. Qed.

(** In binary32 a generated 4 x 4 grid holds values of [0, 1], among
    them 0 and 1. *)
Example generated_grid_is_normalized :
  forallb (fun s => fle (of_Z 0) s && fle s (of_Z 1))
    (mHeightmap generated_terrain) = true
  /\ In (S754_zero false) (mHeightmap generated_terrain)
  /\ In (of_Z 1) (mHeightmap generated_terrain).
Proof.
  split; [vm_compute; reflexivity|].
  split; vm_compute; tauto.
Qed.

(** In binary32 the height at the world position of texel (1, 1) of the
    loaded 2 x 2 grid is the stored sample mapped to world height. *)
Example height_at_texel_binary32 :
  snd (GetHeight small_terrain (of_Z 0) (of_Z 0))
  = option_map
      (fun s => fadd (mMinHeight small_terrain)
                  (fmul s (fsub (mMaxHeight small_terrain)
                                (mMinHeight small_terrain))))
      (nth_error (mHeightmap small_terrain) 3).
Proof. vm_compute. reflexivity. Qed.

End Binary32Runs.

Module QTMoreFacts.
Import QT QTSpec QTMoreSpec QTFacts.

Section Generic.
Context {F : Type} {SF : Scalar F} {SQ : ScalarSqrt F}.

Lemma UpdateNode_skeleton (q : QuadTree F) cam pl node :
  forall st, skeleton (fst (UpdateNode q cam pl node st)) = skeleton node.
Proof.
  induction node as [|d c0 IH0 c1 IH1 c2 IH2 c3 IH3]; intros st.
  - reflexivity.
  - simpl UpdateNode.
    destruct (Intersects (Bounds d) pl); simpl; [|reflexivity].
    match goal with
    | |- skeleton (fst (if ?b then _ else _)) = _ => destruct b
    end; [|reflexivity].
    specialize (IH0 st).
    destruct (UpdateNode q cam pl c0 st) as [c0' s0].
    specialize (IH1 s0).
    destruct (UpdateNode q cam pl c1 s0) as [c1' s1].
    specialize (IH2 s1).
    destruct (UpdateNode q cam pl c2 s1) as [c2' s2].
    specialize (IH3 s2).
    destruct (UpdateNode q cam pl c3 s2) as [c3' s3].
    simpl in *. now rewrite IH0, IH1, IH2, IH3.
Qed.

Lemma Update_skeleton (q : QuadTree F) cam pl :
  skeleton (mRoot (Update cam pl q)) = skeleton (mRoot q).
Proof.
  unfold Update.
  pose proof (UpdateNode_skeleton q cam pl (mRoot q)
                {| visibleNodeCount := 0; nextObjectCBIndex := 0 |}) as H.
  destruct (UpdateNode q cam pl (mRoot q) _) as [root st].
  exact H.
Qed.

(** X6.  [Update] writes [IsVisible], [LODLevel] and [ObjectCBIndex] of
    nodes and the two frame counters, and nothing else: the topology,
    every other node field, the distance table, the level count and
    the total node count are as before. *)
Theorem Update_keeps_tree_geometry (q : QuadTree F)
  (cameraPos : XMFLOAT3 F) (frustumPlanes : Frustum) :
  let q' := Update cameraPos frustumPlanes q in
  skeleton (mRoot q') = skeleton (mRoot q)
  /\ mTerrainSize q' = mTerrainSize q
  /\ mMinNodeSize q' = mMinNodeSize q
  /\ mMaxLODLevels q' = mMaxLODLevels q
  /\ mLODDistances q' = mLODDistances q
  /\ mTotalNodeCount q' = mTotalNodeCount q.
Proof.
  intros q'. subst q'. unfold Update.
  pose proof (UpdateNode_skeleton q cameraPos frustumPlanes (mRoot q)
                {| visibleNodeCount := 0; nextObjectCBIndex := 0 |}) as H.
  destruct (UpdateNode q cameraPos frustumPlanes (mRoot q) _)
    as [root st].
  simpl in *. repeat split. exact H.
Qed.

(** *** What [GetVisibleNodes] returns, on any tree *)

Lemma CollectVisibleNodes_relative (node : NodePtr F) :
  forall here,
    CollectVisibleNodes node here
    = map (app here) (CollectVisibleNodes node []).
Proof.
  induction node as [|d c0 IH0 c1 IH1 c2 IH2 c3 IH3]; intros here.
  - reflexivity.
  - simpl. destruct (IsVisible d); [simpl; now rewrite app_nil_r|].
    destruct (IsLeaf d); [reflexivity|].
    rewrite (IH0 (here ++ [0%nat])), (IH1 (here ++ [1%nat])),
      (IH2 (here ++ [2%nat])), (IH3 (here ++ [3%nat])).
    rewrite (IH0 [0%nat]), (IH1 [1%nat]), (IH2 [2%nat]), (IH3 [3%nat]).
    rewrite !map_app, !map_map.
    repeat apply (f_equal2 (@app Handle));
      apply map_ext; intros h; now rewrite <- app_assoc.
Qed.

(** Membership in the collected list, read along the handle. *)
Lemma CollectVisibleNodes_In (node : NodePtr F) :
  forall h,
    In h (CollectVisibleNodes node []) <->
    match node with
    | Null => False
    | Node d c0 c1 c2 c3 =>
        if IsVisible d then h = []
        else if IsLeaf d then False
        else exists i h',
            h = i :: h' /\ (i < 4)%nat
            /\ In h' (CollectVisibleNodes (child node i) [])
    end.
Proof.
  intros h. destruct node as [|d c0 c1 c2 c3]; [simpl; tauto|].
  simpl CollectVisibleNodes. destruct (IsVisible d).
  - simpl. split; [intros [<-|[]]; reflexivity|intros ->; now left].
  - destruct (IsLeaf d); [simpl; tauto|].
    rewrite (CollectVisibleNodes_relative c0 [0%nat]),
      (CollectVisibleNodes_relative c1 [1%nat]),
      (CollectVisibleNodes_relative c2 [2%nat]),
      (CollectVisibleNodes_relative c3 [3%nat]).
    rewrite !in_app_iff, !in_map_iff. split.
    + intros [(h' & <- & Hin)|[(h' & <- & Hin)|[(h' & <- & Hin)
                                               |(h' & <- & Hin)]]];
        [exists 0%nat, h'|exists 1%nat, h'|exists 2%nat, h'
        |exists 3%nat, h']; (split; [reflexivity|split; [lia|exact Hin]]).
    + intros (i & h' & -> & Hi & Hin).
      destruct i as [|[|[|[|i]]]]; [| | |  |lia]; simpl in Hin.
      * left. exists h'. split; [reflexivity|exact Hin].
      * right; left. exists h'. split; [reflexivity|exact Hin].
      * right; right; left. exists h'. split; [reflexivity|exact Hin].
      * right; right; right. exists h'. split; [reflexivity|exact Hin].
Qed.

Lemma collected_designates_visible (node : NodePtr F) :
  forall h,
    In h (CollectVisibleNodes node []) ->
    (exists d, node_at node h = Some d /\ IsVisible d = true)
    /\ (forall p s, h = p ++ s -> s <> [] ->
        exists d, node_at node p = Some d
                  /\ IsVisible d = false /\ IsLeaf d = false).
Proof.
  induction node as [|d c0 IH0 c1 IH1 c2 IH2 c3 IH3]; intros h Hin;
    apply CollectVisibleNodes_In in Hin; [contradiction|].
  destruct (IsVisible d) eqn:Hv.
  - subst h. split.
    + exists d. split; [reflexivity|exact Hv].
    + intros p s Hps Hs. symmetry in Hps.
      apply app_eq_nil in Hps. destruct Hps; contradiction.
  - destruct (IsLeaf d) eqn:Hl; [contradiction|].
    destruct Hin as (i & h' & -> & Hi & Hin).
    assert (IHc : (exists d', node_at (child (Node d c0 c1 c2 c3) i) h'
                              = Some d' /\ IsVisible d' = true)
                  /\ (forall p s, h' = p ++ s -> s <> [] ->
                      exists d', node_at (child (Node d c0 c1 c2 c3) i) p
                                 = Some d'
                                 /\ IsVisible d' = false
                                 /\ IsLeaf d' = false)).
    { destruct i as [|[|[|[|i]]]]; [| | | |lia]; simpl child;
        simpl in Hin; auto. }
    destruct IHc as [Hhere Hanc]. split; [exact Hhere|].
    intros p s Hps Hs. destruct p as [|j p].
    + exists d. repeat split; assumption.
    + simpl in Hps. inversion Hps; subst j.
      exact (Hanc p s H1 Hs).
Qed.

Lemma collected_NoDup (node : NodePtr F) :
  NoDup (CollectVisibleNodes node []).
Proof.
  induction node as [|d c0 IH0 c1 IH1 c2 IH2 c3 IH3]; [constructor|].
  simpl. destruct (IsVisible d); [repeat constructor; intros []|].
  destruct (IsLeaf d); [constructor|].
  rewrite (CollectVisibleNodes_relative c0 [0%nat]),
    (CollectVisibleNodes_relative c1 [1%nat]),
    (CollectVisibleNodes_relative c2 [2%nat]),
    (CollectVisibleNodes_relative c3 [3%nat]).
  assert (Hmap : forall (i : nat) (l : list Handle),
             NoDup l -> NoDup (map (app [i]) l)).
  { intros i l Hl. induction Hl as [|a l Ha Hl IHl]; simpl; constructor.
    - intros Hin. apply in_map_iff in Hin.
      destruct Hin as (b & Hb & Hin). inversion Hb; subst. contradiction.
    - exact IHl. }
  assert (Hdiff : forall (i j : nat) (l1 l2 : list Handle) (h : Handle),
             i <> j -> In h (map (app [i]) l1) ->
             In h (map (app [j]) l2) -> False).
  { intros i j l1 l2 h Hij H1 H2.
    apply in_map_iff in H1. destruct H1 as (a & <- & _).
    apply in_map_iff in H2. destruct H2 as (b & Hb & _).
    inversion Hb. congruence. }
  apply NoDup_app; [now apply Hmap| |].
  - apply NoDup_app; [now apply Hmap| |].
    + apply NoDup_app; [now apply Hmap|now apply Hmap|].
      intros h H1 H2. eapply (Hdiff 2%nat 3%nat); [lia|exact H1|exact H2].
    + intros h H1 H2. apply in_app_iff in H2. destruct H2 as [H2|H2].
      * eapply (Hdiff 1%nat 2%nat); [lia|exact H1|exact H2].
      * eapply (Hdiff 1%nat 3%nat); [lia|exact H1|exact H2].
  - intros h H1 H2. rewrite !in_app_iff in H2.
    destruct H2 as [H2|[H2|H2]].
    + eapply (Hdiff 0%nat 1%nat); [lia|exact H1|exact H2].
    + eapply (Hdiff 0%nat 2%nat); [lia|exact H1|exact H2].
    + eapply (Hdiff 0%nat 3%nat); [lia|exact H1|exact H2].
Qed.

(** X9.  For every tree state, every handle [GetVisibleNodes] returns
    designates a node whose [IsVisible] is set and all of whose
    ancestors are neither visible nor leaves; no handle is returned
    twice, and none is an ancestor of another. *)
Theorem GetVisibleNodes_is_antichain (q : QuadTree F) :
  (forall h,
      In h (GetVisibleNodes q) ->
      (exists d, node_at (mRoot q) h = Some d /\ IsVisible d = true)
      /\ (forall p s, h = p ++ s -> s <> [] ->
          exists d, node_at (mRoot q) p = Some d
                    /\ IsVisible d = false /\ IsLeaf d = false))
  /\ NoDup (GetVisibleNodes q)
  /\ (forall p s,
        In p (GetVisibleNodes q) -> In (p ++ s) (GetVisibleNodes q) ->
        s = []).
Proof.
  unfold GetVisibleNodes. split; [|split].
  - intros h. apply collected_designates_visible.
  - apply collected_NoDup.
  - intros p s Hp Hps.
    destruct s as [|i s]; [reflexivity|exfalso].
    destruct (collected_designates_visible _ _ Hp) as [(d & Hd & Hv) _].
    destruct (collected_designates_visible _ _ Hps) as [_ Hanc].
    destruct (Hanc p (i :: s) eq_refl ltac:(discriminate))
      as (d' & Hd' & Hv' & _).
    congruence.
Qed.

(** *** What [Initialize] builds *)

Lemma nodes_from_length (node : NodePtr F) :
  forall k, length (nodes_from k node) = node_count node.
Proof.
  unfold node_count.
  induction node as [|d c0 IH0 c1 IH1 c2 IH2 c3 IH3]; intros k.
  - reflexivity.
  - simpl. rewrite !length_app.
    rewrite (IH0 (S k)), (IH1 (S k)), (IH2 (S k)), (IH3 (S k)).
    rewrite (IH0 1%nat), (IH1 1%nat), (IH2 1%nat), (IH3 1%nat).
    reflexivity.
Qed.

Lemma node_count_Node (d : TerrainNode F) c0 c1 c2 c3 :
  node_count (Node d c0 c1 c2 c3)
  = S (node_count c0 + node_count c1 + node_count c2 + node_count c3).
Proof.
  unfold node_count at 1. simpl. rewrite !length_app, !nodes_from_length.
  lia.
Qed.

(** What one call of [BuildTree] returns: a node, leaves without and
    inner nodes with four children, the running count advanced by the
    number of nodes built, which a full quadtree of the remaining
    levels bounds. *)
Lemma BuildTree_shape (M : F) (D : Z) :
  forall fuel x z size depth total t total',
    BuildTree fuel M D x z size depth total = Some (t, total') ->
    is_null t = false
    /\ leaves_and_quads t = true
    /\ total' = Int.wrap_int (total + Z.of_nat (node_count t))
    /\ 3 * Z.of_nat (node_count t) + 1 <= 4 ^ Z.max 1 (D - depth).
Proof.
  induction fuel as [|fuel IH];
    intros x z size depth total t total' Hb; [discriminate|].
  cbn [BuildTree] in Hb.
  destruct (canSplit M D size depth) eqn:Hsplit; cbn [negb] in Hb.
  - unfold canSplit in Hsplit. apply andb_true_iff in Hsplit.
    destruct Hsplit as [_ Hdepth]. apply Z.ltb_lt in Hdepth.
    repeat match type of Hb with
           | obind (BuildTree fuel M D ?x ?z ?s ?d ?t) _ = _ =>
               let E := fresh "E" in
               destruct (BuildTree fuel M D x z s d t) as [[? ?]|] eqn:E;
               [apply IH in E; cbn [obind] in Hb|discriminate]
           end.
    inversion Hb; subst; clear Hb.
    destruct E as (N0 & S0 & T0 & B0). destruct E0 as (N1 & S1 & T1 & B1).
    destruct E1 as (N2 & S2 & T2 & B2). destruct E2 as (N3 & S3 & T3 & B3).
    split; [reflexivity|]. split.
    + simpl. rewrite N0, N1, N2, N3, S0, S1, S2, S3. reflexivity.
    + rewrite node_count_Node. split.
      * rewrite T3, T2, T1, T0.
        repeat (rewrite IntFacts.wrap_int_add_l
                || rewrite <- Z.add_assoc).
        f_equal. lia.
      * replace (Z.max 1 (D - (depth + 1))) with (D - depth - 1) in * by lia.
        replace (Z.max 1 (D - depth)) with (Z.succ (D - depth - 1)) by lia.
        rewrite Z.pow_succ_r by lia. lia.
  - inversion Hb; subst; clear Hb.
    split; [reflexivity|]. split; [reflexivity|].
    rewrite node_count_Node. simpl node_count.
    unfold node_count. simpl. split; [f_equal; lia|].
    assert (4 ^ 1 <= 4 ^ Z.max 1 (D - depth))
      by (apply Z.pow_le_mono_r; lia).
    lia.
Qed.

Lemma draw_targets_le_nodes cam pl (node : NodePtr F) :
  (length (draw_targets cam pl node) <= node_count node)%nat.
Proof.
  induction node as [|d c0 IH0 c1 IH1 c2 IH2 c3 IH3]; [simpl; lia|].
  rewrite node_count_Node. simpl.
  destruct (Intersects (Bounds d) pl); [|simpl; lia].
  destruct (negb (IsLeaf d) && ShouldSubdivide d cam); [|simpl; lia].
  rewrite !length_app, !length_map. unfold Handle in *. lia.
Qed.

(** Every draw target carries the level [CalculateLOD] gives it. *)
Lemma UpdateNode_target_levels (q : QuadTree F) cam pl node :
  forall st h,
    In h (draw_targets cam pl node) ->
    exists d, node_at (fst (UpdateNode q cam pl node st)) h = Some d
              /\ LODLevel d = CalculateLOD q d cam.
Proof.
  induction node as [|d c0 IH0 c1 IH1 c2 IH2 c3 IH3]; intros st h Hin.
  - destruct Hin.
  - simpl in Hin. simpl UpdateNode.
    destruct (Intersects (Bounds d) pl); [|destruct Hin]. simpl.
    change (ShouldSubdivide
              (set_LODLevel (CalculateLOD q (set_IsVisible true d) cam)
                 (set_IsVisible true d)) cam)
      with (ShouldSubdivide d cam).
    destruct (negb (IsLeaf d) && ShouldSubdivide d cam).
    + specialize (IH0 st).
      destruct (UpdateNode q cam pl c0 st) as [c0' s0].
      specialize (IH1 s0).
      destruct (UpdateNode q cam pl c1 s0) as [c1' s1].
      specialize (IH2 s1).
      destruct (UpdateNode q cam pl c2 s1) as [c2' s2].
      specialize (IH3 s2).
      destruct (UpdateNode q cam pl c3 s2) as [c3' s3].
      cbn [fst] in *. rewrite !in_app_iff, !in_map_iff in Hin.
      destruct Hin as [(h' & <- & Hin)|[(h' & <- & Hin)
                      |[(h' & <- & Hin)|(h' & <- & Hin)]]];
        [apply (IH0 h' Hin)|apply (IH1 h' Hin)|apply (IH2 h' Hin)
        |apply (IH3 h' Hin)].
    + destruct Hin as [<-|[]]. simpl. eexists. split; reflexivity.
Qed.

End Generic.

Lemma Initialize_node_bound {F : Type} {SF : Scalar F}
  (terrainSize minNodeSize : F) (maxLODLevels : Z) (q0 q : QuadTree F) :
  Initialize terrainSize minNodeSize maxLODLevels q0 = Some q ->
  3 * Z.of_nat (node_count (mRoot q)) + 1 <= 4 ^ Z.max 1 maxLODLevels.
Proof.
  unfold Initialize. intros Hi.
  destruct (match mLODDistances q0 with
            | [] => if maxLODLevels <? 0 then None
                    else Some (default_LODDistances minNodeSize
                                 maxLODLevels)
            | _ :: _ => Some (mLODDistances q0)
            end) as [dists|]; [|discriminate].
  cbn [obind] in Hi.
  destruct (BuildTree (S (Z.to_nat (maxLODLevels - 1))) minNodeSize
              maxLODLevels (of_Z 0) (of_Z 0) terrainSize 0 0)
    as [[root total]|] eqn:Eb; [|discriminate].
  cbn [obind] in Hi. inversion Hi; subst q; clear Hi.
  apply BuildTree_shape in Eb. destruct Eb as (_ & _ & _ & Hb).
  cbn [mRoot]. rewrite Z.sub_0_r in Hb. exact Hb.
Qed.

(** X3.  [Initialize] returns a tree with a root, in which leaves own no
    child and every other node owns four, without any visibility flag;
    [GetTotalNodeCount] is the number of nodes (wrapped to [int], and
    exact up to 16 levels), which is at most that of a full quadtree,
    [(4^max(1,levels) - 1) / 3]; both frame counters are zero. *)
Theorem Initialize_counts_nodes {F : Type} {SF : Scalar F}
  (terrainSize minNodeSize : F) (maxLODLevels : Z) (q0 q : QuadTree F) :
  Initialize terrainSize minNodeSize maxLODLevels q0 = Some q ->
  is_null (mRoot q) = false
  /\ leaves_and_quads (mRoot q) = true
  /\ all_hidden (mRoot q) = true
  /\ GetTotalNodeCount q = Int.wrap_int (Z.of_nat (node_count (mRoot q)))
  /\ 3 * Z.of_nat (node_count (mRoot q)) + 1 <= 4 ^ Z.max 1 maxLODLevels
  /\ (maxLODLevels <= 16 ->
      GetTotalNodeCount q = Z.of_nat (node_count (mRoot q)))
  /\ GetVisibleNodeCount q = 0 /\ mNextObjectCBIndex q = 0.
Proof.
  unfold Initialize. intros Hi.
  destruct (match mLODDistances q0 with
            | [] => if maxLODLevels <? 0 then None
                    else Some (default_LODDistances minNodeSize
                                 maxLODLevels)
            | _ :: _ => Some (mLODDistances q0)
            end) as [dists|]; [|discriminate].
  cbn [obind] in Hi.
  destruct (BuildTree (S (Z.to_nat (maxLODLevels - 1))) minNodeSize
              maxLODLevels (of_Z 0) (of_Z 0) terrainSize 0 0)
    as [[root total]|] eqn:Eb; [|discriminate].
  cbn [obind] in Hi. inversion Hi; subst q; clear Hi.
  pose proof (BuildTree_all_hidden _ _ _ _ _ _ _ _ Eb) as Hh.
  apply BuildTree_shape in Eb. destruct Eb as (Hn & Hs & Ht & Hb).
  unfold GetTotalNodeCount, GetVisibleNodeCount.
  cbn [mRoot mTotalNodeCount mVisibleNodeCount mNextObjectCBIndex].
  rewrite Z.sub_0_r in Hb. simpl in Ht.
  repeat split; try assumption.
  intros HD. rewrite Ht. apply IntFacts.wrap_int_small.
  assert (4 ^ Z.max 1 maxLODLevels <= 4 ^ 16)
    by (apply Z.pow_le_mono_r; lia).
  unfold Int.int_min, Int.int_max. lia.
Qed.

Lemma Initialize_counts_nodes_witness :
  exists q,
    application_like = Some q
    /\ GetTotalNodeCount q = Z.of_nat (node_count (mRoot q))
    /\ GetTotalNodeCount q = 85.
Proof.
  destruct application_like as [q|] eqn:E; [|vm_compute in E; discriminate].
  exists q. split; [reflexivity|].
  pose proof (@Initialize_counts_nodes _ _ (of_Z 512) (of_Z 64) 5
                new_QuadTree q E) as H.
  destruct H as (_ & _ & _ & _ & _ & Hcount & _).
  split; [apply Hcount; lia|].
  vm_compute in E. inversion E. reflexivity.
Defined.

(** X7.  The first [Update] after [Initialize] (up to 16 levels):
    [GetVisibleNodes] lists exactly the draw targets of that [Update], in
    depth-first order; the length of the list is [GetVisibleNodeCount];
    the listed nodes hold the slots 0, 1, 2, ... in list order, and each
    carries the level [CalculateLOD] computes for it. *)
Theorem first_Update_is_consistent {F : Type} {SF : Scalar F}
  {SQ : ScalarSqrt F} (terrainSize minNodeSize : F) (maxLODLevels : Z)
  (q0 q : QuadTree F) (cameraPos : XMFLOAT3 F) (frustumPlanes : Frustum) :
  Initialize terrainSize minNodeSize maxLODLevels q0 = Some q ->
  maxLODLevels <= 16 ->
  let q' := Update cameraPos frustumPlanes q in
  GetVisibleNodes q' = draw_targets cameraPos frustumPlanes (mRoot q)
  /\ GetVisibleNodeCount q' = Z.of_nat (length (GetVisibleNodes q'))
  /\ slots (mRoot q') (GetVisibleNodes q')
     = map (fun i => Some (true, i))
         (iota 0 (length (GetVisibleNodes q')))
  /\ (forall h,
        In h (GetVisibleNodes q') ->
        exists d, node_at (mRoot q') h = Some d
                  /\ LODLevel d = CalculateLOD q' d cameraPos).
Proof.
  intros Hi HD q'.
  pose proof (first_Update_lists_draw_targets _ _ _ _ cameraPos
                frustumPlanes Hi) as Hlist.
  fold q' in Hlist.
  pose proof (Initialize_node_bound _ _ _ _ Hi) as Hbound.
  pose proof (draw_targets_le_nodes cameraPos frustumPlanes (mRoot q))
    as Hle.
  assert (Hfit : Z.of_nat (length (draw_targets cameraPos frustumPlanes
                                    (mRoot q))) <= 2 ^ 31 - 1).
  { assert (4 ^ Z.max 1 maxLODLevels <= 4 ^ 16)
      by (apply Z.pow_le_mono_r; lia).
    unfold Handle in *. lia. }
  rewrite Hlist. subst q'. unfold Update, GetVisibleNodeCount.
  pose proof (UpdateNode_target_levels q cameraPos frustumPlanes (mRoot q)
                {| visibleNodeCount := 0; nextObjectCBIndex := 0 |})
    as Hlevels.
  destruct (UpdateNode q cameraPos frustumPlanes (mRoot q)
              {| visibleNodeCount := 0; nextObjectCBIndex := 0 |})
    as [root st] eqn:Hu.
  pose proof (UpdateNode_slots _ _ _ _ _ Hu) as Hs.
  cbv zeta in Hs. cbn [visibleNodeCount nextObjectCBIndex] in Hs.
  cbn [mRoot mVisibleNodeCount fst] in *.
  unfold Int.int_max, Handle in *.
  destruct Hs as (A & B & S); [lia..|].
  split; [reflexivity|]. split; [lia|]. split; [exact S|].
  intros h Hin. destruct (Hlevels h Hin) as (d & Hd & Hl).
  exists d. split; [exact Hd|]. exact Hl.
Qed.

Lemma first_Update_is_consistent_witness :
  exists q,
    application_like = Some q
    /\ GetVisibleNodes (Update camera_above_centre planes_all_inside q)
       = draw_targets camera_above_centre planes_all_inside (mRoot q)
    /\ GetVisibleNodeCount (Update camera_above_centre planes_all_inside q)
       = Z.of_nat
           (length (GetVisibleNodes
                      (Update camera_above_centre planes_all_inside q))).
Proof.
  destruct application_like as [q|] eqn:E; [|vm_compute in E; discriminate].
  exists q. split; [reflexivity|].
  pose proof (@first_Update_is_consistent _ _ _ (of_Z 512) (of_Z 64) 5
                new_QuadTree q camera_above_centre planes_all_inside E
                ltac:(lia)) as H.
  cbv zeta in H. destruct H as (H1 & H2 & _). split; assumption.
Defined.

End QTMoreFacts.

Module QTExactFacts.
Import QT QTSpec TilingSpec QTMoreSpec QTExactSpec QTFacts TilingFacts
  QTMoreFacts.
Local Open Scope Q_scope.

(** *** The positive-vertex test *)

Lemma positive_vertex_is_corner (b : BoundingBoxAABB Q) (pl : XMFLOAT4 Q) :
  In (positive_vertex b pl) (corners b).
Proof.
  unfold positive_vertex, corners. cbn [fadd fsub fle of_Z exactQ].
  destruct (Qle_bool (inject_Z 0) (f4x pl));
    destruct (Qle_bool (inject_Z 0) (f4y pl));
    destruct (Qle_bool (inject_Z 0) (f4z pl)); simpl; tauto.
Qed.

Lemma axis_term_le (n lo hi a : Q) :
  lo <= a <= hi ->
  n * a <= n * (if Qle_bool (inject_Z 0) n then hi else lo).
Proof.
  intros Ha. destruct (Qle_bool (inject_Z 0) n) eqn:E.
  - apply ExactFacts.leb_le in E. change (inject_Z 0) with 0 in E. nra.
  - apply ExactFacts.leb_gt in E. change (inject_Z 0) with 0 in E. nra.
Qed.

(** The positive vertex is the corner farthest along the plane normal. *)
Lemma positive_vertex_farthest (b : BoundingBoxAABB Q) (pl : XMFLOAT4 Q) :
  nonnegative_extents b ->
  forall v, In v (corners b) ->
            plane_distance pl v <= plane_distance pl (positive_vertex b pl).
Proof.
  intros (Hx & Hy & Hz) v Hv.
  unfold corners in Hv. cbn [fadd fsub exactQ] in Hv. simpl in Hv.
  unfold plane_distance, positive_vertex.
  cbn [fadd fsub fmul fle of_Z exactQ f3x f3y f3z].
  set (c := Center b) in *. set (e := Extents b) in *.
  assert (Tx : forall a, f3x c - f3x e <= a <= f3x c + f3x e ->
               f4x pl * a
               <= f4x pl * (if Qle_bool (inject_Z 0) (f4x pl)
                            then f3x c + f3x e else f3x c - f3x e))
    by (intros; now apply axis_term_le).
  assert (Ty : forall a, f3y c - f3y e <= a <= f3y c + f3y e ->
               f4y pl * a
               <= f4y pl * (if Qle_bool (inject_Z 0) (f4y pl)
                            then f3y c + f3y e else f3y c - f3y e))
    by (intros; now apply axis_term_le).
  assert (Tz : forall a, f3z c - f3z e <= a <= f3z c + f3z e ->
               f4z pl * a
               <= f4z pl * (if Qle_bool (inject_Z 0) (f4z pl)
                            then f3z c + f3z e else f3z c - f3z e))
    by (intros; now apply axis_term_le).
  repeat destruct Hv as [Hv|Hv]; try contradiction; subst v;
    cbn [f3x f3y f3z];
    match goal with
    | |- _ * ?a + _ * ?b + _ * ?c + _ <= _ =>
        pose proof (Tx a ltac:(lra)); pose proof (Ty b ltac:(lra));
        pose proof (Tz c ltac:(lra))
    end; lra.
Qed.

Lemma Intersects_false_iff (b : BoundingBoxAABB Q) (planes : Frustum) :
  Intersects b planes = false <->
  exists p, (p < 6)%nat
            /\ plane_distance (planes p) (positive_vertex b (planes p)) < 0.
Proof.
  unfold Intersects. split.
  - intros H.
    destruct (forallb _ (seq 0 6)) eqn:E; [discriminate|].
    clear H.
    assert (Hex : exists p, In p (seq 0 6)
                   /\ negb (flt (plane_distance (planes p)
                                   (positive_vertex b (planes p)))
                              (of_Z 0)) = false).
    { revert E. generalize (seq 0 6). intros l. induction l as [|p l IH].
      - discriminate.
      - simpl. intros E. apply andb_false_iff in E.
        destruct E as [E|E].
        + exists p. split; [now left|exact E].
        + destruct (IH E) as (p' & Hin & Hp').
          exists p'. split; [now right|exact Hp']. }
    destruct Hex as (p & Hin & Hp). exists p.
    apply in_seq in Hin. split; [lia|].
    apply negb_false_iff in Hp. cbn [flt exactQ] in Hp.
    now apply ExactFacts.ltb_lt in Hp.
  - intros (p & Hp & Hd).
    destruct (forallb _ (seq 0 6)) eqn:E; [|reflexivity].
    rewrite forallb_forall in E. specialize (E p).
    rewrite in_seq in E. specialize (E ltac:(lia)).
    apply negb_true_iff in E. cbn [flt exactQ] in E.
    apply ExactFacts.ltb_ge in E. change (of_Z 0) with 0 in E. lra.
Qed.

(** X1.  In exact arithmetic, for a box with non-negative extents,
    [Intersects] answers [false] exactly when one of the six planes has
    all eight corners of the box strictly on its negative side. *)
Theorem Intersects_rejects_boxes_behind_a_plane (b : BoundingBoxAABB Q)
  (planes : Frustum) :
  nonnegative_extents b ->
  (Intersects b planes = false <->
   exists p, (p < 6)%nat /\ entirely_behind b (planes p) = true).
Proof.
  intros Hext. rewrite Intersects_false_iff.
  split; intros (p & Hp & H); exists p; (split; [exact Hp|]).
  - unfold entirely_behind. apply forallb_forall. intros v Hv.
    cbn [flt exactQ]. apply ExactFacts.ltb_lt.
    pose proof (@positive_vertex_farthest b (planes p) Hext v Hv).
    change (of_Z 0) with 0. lra.
  - unfold entirely_behind in H. rewrite forallb_forall in H.
    specialize (H _ (positive_vertex_is_corner b (planes p))).
    cbn [flt exactQ] in H. now apply ExactFacts.ltb_lt in H.
Qed.

Lemma Intersects_rejects_boxes_behind_a_plane_witness :
  nonnegative_extents (mkAABB (mkFloat3 0 50 0) (mkFloat3 256 60 256))
  /\ (Intersects (mkAABB (mkFloat3 0 50 0) (mkFloat3 256 60 256))
        (fun _ => mkFloat4 1 0 0 (-1000)) = false <->
      exists p, (p < 6)%nat
                /\ entirely_behind
                     (mkAABB (mkFloat3 0 50 0) (mkFloat3 256 60 256))
                     (mkFloat4 1 0 0 (-1000)) = true).
Proof.
  assert (H : nonnegative_extents
                (mkAABB (mkFloat3 0 50 0) (mkFloat3 256 60 256)))
    by (unfold nonnegative_extents; simpl; repeat split; discriminate).
  split; [exact H|].
  exact (@Intersects_rejects_boxes_behind_a_plane _
           (fun _ => mkFloat4 1 0 0 (-1000)) H).
Defined.

(** *** What [Initialize] hands over *)

Lemma Initialize_root {F : Type} {SF : Scalar F}
  (terrainSize minNodeSize : F) (maxLODLevels : Z) (q0 q : QuadTree F) :
  Initialize terrainSize minNodeSize maxLODLevels q0 = Some q ->
  (exists total,
      BuildTree (S (Z.to_nat (maxLODLevels - 1))) minNodeSize maxLODLevels
        (of_Z 0) (of_Z 0) terrainSize 0 0 = Some (mRoot q, total))
  /\ mMaxLODLevels q = maxLODLevels
  /\ mLODDistances q
     = match mLODDistances q0 with
       | [] => default_LODDistances minNodeSize maxLODLevels
       | _ :: _ => mLODDistances q0
       end.
Proof.
  unfold Initialize. intros Hi.
  destruct (mLODDistances q0) as [|t0 table] eqn:Et.
  - destruct (maxLODLevels <? 0)%Z; [discriminate|]. cbn [obind] in Hi.
    destruct (BuildTree _ _ _ _ _ _ _ _) as [[root total]|];
      [|discriminate].
    cbn [obind] in Hi. inversion Hi; subst; clear Hi. simpl. eauto.
  - cbn [obind] in Hi.
    destruct (BuildTree _ _ _ _ _ _ _ _) as [[root total]|];
      [|discriminate].
    cbn [obind] in Hi. inversion Hi; subst; clear Hi. simpl. eauto.
Qed.

Lemma BuildTree_root {F : Type} {SF : Scalar F} (M : F) (D : Z) :
  forall fuel x z size depth total t total',
    BuildTree fuel M D x z size depth total = Some (t, total') ->
    exists leaf c0 c1 c2 c3,
      t = Node (set_IsLeaf leaf (built_node D x z size depth)) c0 c1 c2 c3.
Proof.
  intros [|fuel] x z size depth total t total' Hb; [discriminate|].
  cbn [BuildTree] in Hb.
  destruct (canSplit M D size depth); cbn [negb] in Hb.
  - repeat match type of Hb with
           | obind (BuildTree fuel M D ?x ?z ?s ?d ?t) _ = _ =>
               destruct (BuildTree fuel M D x z s d t) as [[? ?]|];
               [cbn [obind] in Hb|discriminate]
           end.
    inversion Hb; subst. eauto 6.
  - inversion Hb; subst. eauto 6.
Qed.

(** *** Boxes of children lie inside the box of the parent *)

Lemma box_inside_refl (b : BoundingBoxAABB Q) : box_inside b b.
Proof. unfold box_inside. cbv zeta. repeat split; apply Qle_refl. Qed.

Lemma box_inside_trans (a b c : BoundingBoxAABB Q) :
  box_inside a b -> box_inside b c -> box_inside a c.
Proof. unfold box_inside. cbv zeta. intros H1 H2. lra. Qed.

Lemma Intersects_monotone (inner outer : BoundingBoxAABB Q)
  (planes : Frustum) :
  box_inside inner outer ->
  Intersects inner planes = true -> Intersects outer planes = true.
Proof.
  intros Hin Hi.
  destruct (Intersects outer planes) eqn:Ho; [reflexivity|exfalso].
  apply Intersects_false_iff in Ho. destruct Ho as (p & Hp & Hd).
  assert (Hf : Intersects inner planes = false); [|congruence].
  apply Intersects_false_iff. exists p. split; [exact Hp|].
  revert Hd. unfold box_inside in Hin. cbv zeta in Hin.
  unfold plane_distance, positive_vertex.
  cbn [fadd fsub fmul fle of_Z exactQ f3x f3y f3z].
  set (pl := planes p). clearbody pl.
  destruct (Qle_bool (inject_Z 0) (f4x pl)) eqn:Ex;
    [apply ExactFacts.leb_le in Ex|apply ExactFacts.leb_gt in Ex];
    (destruct (Qle_bool (inject_Z 0) (f4y pl)) eqn:Ey;
     [apply ExactFacts.leb_le in Ey|apply ExactFacts.leb_gt in Ey]);
    (destruct (Qle_bool (inject_Z 0) (f4z pl)) eqn:Ez;
     [apply ExactFacts.leb_le in Ez|apply ExactFacts.leb_gt in Ez]);
    change (inject_Z 0) with 0 in *; intros Hd; nra.
Qed.

Lemma built_child_inside (D : Z) (x z size : Q) (depth : Z) leaf leaf'
  (sx sz : bool) :
  0 <= size ->
  box_inside
    (Bounds (set_IsLeaf leaf'
               (built_node D
                  (if sx then x + size * (1 # 4) else x - size * (1 # 4))
                  (if sz then z + size * (1 # 4) else z - size * (1 # 4))
                  (size * (1 # 2)) (depth + 1)%Z)))
    (Bounds (set_IsLeaf leaf (built_node D x z size depth))).
Proof.
  intros Hs. unfold box_inside. simpl.
  destruct sx, sz; repeat split; lra.
Qed.

Lemma BuildTree_nested (M : Q) (D : Z) :
  forall fuel x z size depth total t total',
    0 <= size ->
    BuildTree fuel M D x z size depth total = Some (t, total') ->
    nested_boxes t.
Proof.
  induction fuel as [|fuel IH];
    intros x z size depth total t total' Hs Hb; [discriminate|].
  cbn [BuildTree] in Hb.
  destruct (canSplit M D size depth); cbn [negb] in Hb.
  - assert (Hh : 0 <= size * (1 # 2)) by lra.
    cbn [fadd fsub fmul of_ratio exactQ] in Hb.
    repeat match type of Hb with
           | obind (BuildTree fuel M D ?x ?z ?s ?d ?t) _ = _ =>
               let E := fresh "E" in
               destruct (BuildTree fuel M D x z s d t) as [[? ?]|] eqn:E;
               [cbn [obind] in Hb|discriminate]
           end.
    inversion Hb; subst; clear Hb.
    pose proof (BuildTree_root _ _ _ _ _ _ _ _ E) as (l0 & ? & ? & ? & ? & R0).
    pose proof (BuildTree_root _ _ _ _ _ _ _ _ E0) as (l1 & ? & ? & ? & ? & R1).
    pose proof (BuildTree_root _ _ _ _ _ _ _ _ E1) as (l2 & ? & ? & ? & ? & R2).
    pose proof (BuildTree_root _ _ _ _ _ _ _ _ E2) as (l3 & ? & ? & ? & ? & R3).
    apply (IH _ _ _ _ _ _ _ Hh) in E, E0, E1, E2.
    cbn [nested_boxes]. repeat split; try assumption.
    + rewrite R0. exact (@built_child_inside D x z size depth false l0
                           false true Hs).
    + rewrite R1. exact (@built_child_inside D x z size depth false l1
                           true true Hs).
    + rewrite R2. exact (@built_child_inside D x z size depth false l2
                           false false Hs).
    + rewrite R3. exact (@built_child_inside D x z size depth false l3
                           true false Hs).
  - inversion Hb; subst. simpl. tauto.
Qed.

Lemma subtree_at_Null {F : Type} (h : Handle) :
  subtree_at (@Null F) h = Null.
Proof. induction h as [|i h IH]; [reflexivity|]. simpl. exact IH. Qed.

Lemma nested_child (t : NodePtr Q) (i : nat) :
  nested_boxes t -> nested_boxes (child t i).
Proof.
  destruct t as [|d c0 c1 c2 c3]; [intros; exact I|].
  cbn [nested_boxes]. intros (_ & _ & _ & _ & N0 & N1 & N2 & N3).
  destruct i as [|[|[|[|i]]]]; simpl; auto.
Qed.

Lemma child_root_inside (d : TerrainNode Q) c0 c1 c2 c3 (i : nat) :
  nested_boxes (Node d c0 c1 c2 c3) ->
  root_inside d (child (Node d c0 c1 c2 c3) i).
Proof.
  cbn [nested_boxes]. intros (R0 & R1 & R2 & R3 & _).
  destruct i as [|[|[|[|i]]]]; simpl; auto.
Qed.

Lemma nested_below_root (s : Handle) :
  forall t a d,
    nested_boxes t ->
    node_at t [] = Some a -> node_at t s = Some d ->
    box_inside (Bounds d) (Bounds a).
Proof.
  induction s as [|i s IH]; intros t a d Hn Ha Hd.
  - rewrite Ha in Hd. inversion Hd; subst. apply box_inside_refl.
  - destruct t as [|da c0 c1 c2 c3]; [discriminate|].
    unfold node_at in Ha. simpl in Ha. inversion Ha; subst da; clear Ha.
    pose proof (@child_root_inside a c0 c1 c2 c3 i Hn) as Hr.
    pose proof (@nested_child _ i Hn) as Hc.
    unfold node_at in Hd. cbn [subtree_at] in Hd.
    destruct (child (Node a c0 c1 c2 c3) i) as [|dc e0 e1 e2 e3] eqn:Ec.
    + rewrite subtree_at_Null in Hd. discriminate.
    + simpl in Hr.
      apply box_inside_trans with (b := Bounds dc); [|exact Hr].
      apply (IH (Node dc e0 e1 e2 e3) dc d Hc); [reflexivity|].
      exact Hd.
Qed.

Lemma nested_along_handles (h : Handle) :
  forall t s a d,
    nested_boxes t ->
    node_at t h = Some a -> node_at t (h ++ s) = Some d ->
    box_inside (Bounds d) (Bounds a).
Proof.
  induction h as [|i h IH]; intros t s a d Hn Ha Hd.
  - exact (@nested_below_root s t a d Hn Ha Hd).
  - apply (IH (child t i) s a d (@nested_child t i Hn)).
    + exact Ha.
    + exact Hd.
Qed.

Lemma SetHeightRange_nested (x z size minY maxY : Q) (M : Q) (D : Z)
  fuel x0 z0 size0 total total' (q : QuadTree Q) :
  0 <= size0 -> minY <= 0 -> 100 <= maxY ->
  BuildTree fuel M D x0 z0 size0 0 total = Some (mRoot q, total') ->
  nested_boxes (mRoot (SetHeightRange x z size minY maxY q)).
Proof.
  intros Hs Hlo Hhi Hb.
  pose proof (BuildTree_nested _ _ _ _ _ _ _ Hs Hb) as Hn.
  unfold SetHeightRange.
  destruct (mRoot q) as [|d c0 c1 c2 c3] eqn:Er; [rewrite Er; exact I|].
  cbn [mRoot nested_boxes] in *.
  destruct Hn as (R0 & R1 & R2 & R3 & N).
  assert (Hkeep : forall c, root_inside d c ->
                  (match c with
                   | Null => True
                   | Node dc _ _ _ _ =>
                       f3y (Center (Bounds dc)) = (0 + 100) * (1 # 2)
                       /\ f3y (Extents (Bounds dc))
                          = (100 - 0) * (1 # 2) + 10
                   end) ->
                  root_inside
                    (set_HeightRange minY maxY
                       (fmul (fadd minY maxY) (of_ratio 1 2))
                       (fadd (fmul (fsub maxY minY) (of_ratio 1 2))
                          (of_Z 10)) d) c).
  { intros [|dc e0 e1 e2 e3]; [intros; exact I|].
    unfold root_inside, box_inside. simpl. intros Hin (Hc & He).
    rewrite Hc, He. change (inject_Z 10) with 10.
    repeat split; try tauto; lra. }
  cbn [fadd fsub fmul of_ratio of_Z exactQ] in Hb.
  destruct fuel as [|fuel]; [discriminate|].
  cbn [BuildTree] in Hb.
  destruct (canSplit M D size0 0); cbn [negb] in Hb.
  - repeat match type of Hb with
           | obind (BuildTree fuel M D ?x ?z ?s ?d ?t) _ = _ =>
               let E := fresh "E" in
               destruct (BuildTree fuel M D x z s d t) as [[? ?]|] eqn:E;
               [cbn [obind] in Hb|discriminate]
           end.
    inversion Hb; subst; clear Hb.
    pose proof (BuildTree_root _ _ _ _ _ _ _ _ E) as (l0 & ? & ? & ? & ? & Q0).
    pose proof (BuildTree_root _ _ _ _ _ _ _ _ E0) as (l1 & ? & ? & ? & ? & Q1).
    pose proof (BuildTree_root _ _ _ _ _ _ _ _ E1) as (l2 & ? & ? & ? & ? & Q2).
    pose proof (BuildTree_root _ _ _ _ _ _ _ _ E2) as (l3 & ? & ? & ? & ? & Q3).
    repeat split; try tauto;
      apply Hkeep; try assumption; subst; simpl; split; reflexivity.
  - inversion Hb; subst; clear Hb. simpl. tauto.
Qed.

(** X5.  In exact arithmetic, in a tree built by [Initialize] on a
    non-negative terrain size, and also after [SetHeightRange] with
    [minY <= 0] and [100 <= maxY], the box of every node lies inside the
    box of each of its ancestors; so whenever the frustum test passes
    for a node it passes for every ancestor, and skipping the subtree of
    a node that fails the test skips no node that would pass. *)
Theorem culled_subtree_has_no_passing_node
  (terrainSize minNodeSize : Q) (maxLODLevels : Z) (q0 q : QuadTree Q)
  (x z size minY maxY : Q) :
  0 <= terrainSize -> minY <= 0 -> 100 <= maxY ->
  Initialize terrainSize minNodeSize maxLODLevels q0 = Some q ->
  forall root,
    root = mRoot q \/ root = mRoot (SetHeightRange x z size minY maxY q) ->
    forall (planes : Frustum) (h s : Handle) anc desc,
      node_at root h = Some anc ->
      node_at root (h ++ s) = Some desc ->
      box_inside (Bounds desc) (Bounds anc)
      /\ (Intersects (Bounds desc) planes = true ->
          Intersects (Bounds anc) planes = true).
Proof.
  intros Hs Hlo Hhi Hi root Hroot planes h s anc desc Ha Hd.
  destruct (Initialize_root _ _ _ _ Hi) as ((total & Hb) & _).
  assert (Hn : nested_boxes root).
  { destruct Hroot as [-> | ->].
    - exact (BuildTree_nested _ _ _ _ _ _ _ Hs Hb).
    - exact (@SetHeightRange_nested x z size minY maxY _ _ _ _ _ _ _ _ _
               Hs Hlo Hhi Hb). }
  pose proof (@nested_along_handles h root s anc desc Hn Ha Hd) as Hin.
  split; [exact Hin|]. now apply Intersects_monotone.
Qed.

Lemma culled_subtree_has_no_passing_node_witness :
  exists q anc desc,
    Initialize 512 64 5 new_QuadTree = Some q
    /\ node_at (mRoot (SetHeightRange 0 0 512 0 150 q)) [] = Some anc
    /\ node_at (mRoot (SetHeightRange 0 0 512 0 150 q))
         ([] ++ [0; 1]%nat) = Some desc
    /\ box_inside (Bounds desc) (Bounds anc).
Proof.
  eexists. eexists. eexists.
  split; [vm_compute; reflexivity|].
  split; [vm_compute; reflexivity|].
  split; [vm_compute; reflexivity|].
  refine (proj1 (@culled_subtree_has_no_passing_node 512 64 5 new_QuadTree
                   _ 0 0 512 0 150 _ _ _ _ _ (or_intror eq_refl)
                   exact_planes_all_inside [] [0; 1]%nat _ _ _ _)).
  - discriminate.
  - apply Qle_refl.
  - discriminate.
  - vm_compute. reflexivity.
  - vm_compute. reflexivity.
  - vm_compute. reflexivity.
Defined.

(** *** The derived distance table *)

Lemma first_exceeding_none {SQ : ScalarSqrt Q} (dist : Q) (table : list Q) :
  forall i,
    (forall t, In t table -> t <= dist) ->
    first_exceeding dist table i = None.
Proof.
  induction table as [|t table IH]; intros i Hall; [reflexivity|].
  cbn [first_exceeding].
  assert (Ht : flt dist t = false).
  { cbn [flt exactQ]. apply ExactFacts.ltb_ge. apply Hall. now left. }
  rewrite Ht. apply IH. intros t' Hin. apply Hall. now right.
Qed.

Lemma default_entry (M : Q) (D : Z) (i : nat) :
  (1 <= D <= 31)%Z -> (Z.of_nat i < D)%Z ->
  M * of_Z (Int.wrap_int (Z.shiftl 1 (D - Z.of_nat i - 1))) * of_Z 2
  == M * inject_Z (2 ^ (D - Z.of_nat i)).
Proof.
  intros HD Hi. cbn [of_Z exactQ].
  rewrite Z.shiftl_1_l.
  assert (Hp : (0 < 2 ^ (D - Z.of_nat i - 1) <= 2 ^ 30)%Z).
  { split; [apply Z.pow_pos_nonneg; lia|].
    apply Z.pow_le_mono_r; lia. }
  rewrite IntFacts.wrap_int_small
    by (unfold Int.int_min, Int.int_max; lia).
  set (k := (D - Z.of_nat i - 1)%Z) in *.
  replace (D - Z.of_nat i)%Z with (Z.succ k) by lia.
  rewrite Z.pow_succ_r by lia. rewrite inject_Z_mult.
  change (inject_Z 2) with 2. ring.
Qed.

Lemma first_exceeding_descending {SQ : ScalarSqrt Q} (dist : Q)
  (f : nat -> Q) (n : nat) (i0 : Z) :
  (forall i, (i <= n)%nat -> f i <= f 0%nat) ->
  first_exceeding dist (map f (seq 0 (S n))) i0
  = if Qle_bool (f 0%nat) dist then None else Some i0.
Proof.
  intros Hdesc. cbn [seq map first_exceeding].
  change (flt dist (f 0%nat)) with (negb (Qle_bool (f 0%nat) dist)).
  destruct (Qle_bool (f 0%nat) dist) eqn:E; [|reflexivity].
  cbn [negb]. apply ExactFacts.leb_le in E.
  apply first_exceeding_none. intros t Hin.
  apply in_map_iff in Hin. destruct Hin as (i & <- & Hin).
  apply in_seq in Hin.
  apply Qle_trans with (y := f 0%nat); [|exact E].
  apply Hdesc. lia.
Qed.

(** X4.  With no table installed, [Initialize] derives the table
    [minNodeSize * 2^(maxLODLevels - i)], which decreases with the index;
    in exact arithmetic, for [0 <= minNodeSize] and
    [1 <= maxLODLevels <= 31], [CalculateLOD] therefore answers level 0
    below the first threshold [minNodeSize * 2^maxLODLevels] and the
    last level [maxLODLevels - 1] everywhere else: no level in between
    is ever assigned. *)
Theorem derived_table_assigns_two_levels {SQ : ScalarSqrt Q}
  (terrainSize minNodeSize : Q) (maxLODLevels : Z) (q0 q : QuadTree Q) :
  0 <= minNodeSize -> (1 <= maxLODLevels <= 31)%Z ->
  mLODDistances q0 = [] ->
  Initialize terrainSize minNodeSize maxLODLevels q0 = Some q ->
  forall (node : TerrainNode Q) (cameraPos : XMFLOAT3 Q),
    CalculateLOD q node cameraPos
    = if Qle_bool (minNodeSize * inject_Z (2 ^ maxLODLevels))
           (camera_distance node cameraPos)
      then (maxLODLevels - 1)%Z else 0%Z.
Proof.
  intros HM HD Ht Hi node cam.
  destruct (Initialize_root _ _ _ _ Hi) as (_ & Hlev & Htab).
  rewrite Ht in Htab. unfold CalculateLOD. rewrite Hlev, Htab.
  set (dist := camera_distance node cam). clearbody dist.
  unfold default_LODDistances.
  replace (Z.to_nat maxLODLevels) with (S (Z.to_nat (maxLODLevels - 1)))
    by lia.
  match goal with
  | |- context [map ?f _] => set (entry := f)
  end.
  assert (H0 : entry 0%nat == minNodeSize * inject_Z (2 ^ maxLODLevels)).
  { subst entry. cbv beta.
    rewrite (@default_entry minNodeSize maxLODLevels 0 HD ltac:(lia)).
    replace (maxLODLevels - Z.of_nat 0)%Z with maxLODLevels by lia.
    reflexivity. }
  rewrite first_exceeding_descending.
  - rewrite (Qleb_comp _ _ H0 dist dist (Qeq_refl dist)).
    destruct (Qle_bool (minNodeSize * inject_Z (2 ^ maxLODLevels)) dist);
      reflexivity.
  - intros i Hle. rewrite H0. subst entry. cbv beta.
    rewrite (@default_entry minNodeSize maxLODLevels i HD ltac:(lia)).
    assert (Hpow : inject_Z (2 ^ (maxLODLevels - Z.of_nat i))
                   <= inject_Z (2 ^ maxLODLevels)).
    { rewrite <- Zle_Qle. apply Z.pow_le_mono_r; lia. }
    nra.
Qed.

Lemma derived_table_assigns_two_levels_witness :
  exists q,
    Initialize 512 64 5 new_QuadTree = Some q
    /\ CalculateLOD (SQ := floor_sqrt) q
         (built_node 5 128 128 256 1) exact_camera
       = 0%Z.
Proof.
  eexists. split; [vm_compute; reflexivity|].
  refine (@derived_table_assigns_two_levels floor_sqrt 512 64 5
            new_QuadTree _ _ _ eq_refl _
            (built_node 5 128 128 256 1) exact_camera).
  - discriminate.
  - lia.
  - vm_compute. reflexivity.
Defined.

(** *** The footprints of the draw targets *)

Lemma covering_nodes_app (px pz : Q) (l1 l2 : list (TerrainNode Q)) :
  covering_nodes px pz (l1 ++ l2)
  = (covering_nodes px pz l1 + covering_nodes px pz l2)%nat.
Proof. unfold covering_nodes. now rewrite filter_app, length_app. Qed.

Lemma designated_app {F : Type} (root : NodePtr F) (l1 l2 : list Handle) :
  designated root (l1 ++ l2) = designated root l1 ++ designated root l2.
Proof. unfold designated. apply flat_map_app. Qed.

Lemma designated_child {F : Type} (root : NodePtr F) (i : nat)
  (hs : list Handle) :
  designated root (map (cons i) hs) = designated (child root i) hs.
Proof.
  unfold designated. induction hs as [|h hs IH]; [reflexivity|].
  cbn [map flat_map]. rewrite IH. reflexivity.
Qed.

Lemma node_at_skeleton {F : Type} {SF : Scalar F} (h : Handle) :
  forall t : NodePtr F,
    node_at (skeleton t) h = option_map without_frame_state (node_at t h).
Proof.
  induction h as [|i h IH]; intros t.
  - destruct t; reflexivity.
  - destruct t as [|d c0 c1 c2 c3].
    + unfold node_at. simpl. rewrite !subtree_at_Null. reflexivity.
    + destruct i as [|[|[|[|i]]]]; try apply IH.
      unfold node_at. simpl. rewrite !subtree_at_Null. reflexivity.
Qed.

Lemma covering_nodes_skeleton (px pz : Q) (t : NodePtr Q)
  (hs : list Handle) :
  covering_nodes px pz (designated (skeleton t) hs)
  = covering_nodes px pz (designated t hs).
Proof.
  induction hs as [|h hs IH]; [reflexivity|].
  change (h :: hs) with ([h] ++ hs). rewrite !designated_app.
  rewrite !covering_nodes_app, IH. f_equal.
  unfold designated. cbn [flat_map]. rewrite node_at_skeleton.
  destruct (node_at t h) as [d|]; [|reflexivity].
  unfold covering_nodes. simpl.
  change (in_footprint px pz (without_frame_state d))
    with (in_footprint px pz d).
  destruct (in_footprint px pz d); reflexivity.
Qed.

Lemma draw_targets_footprints {SQ : ScalarSqrt Q} (M : Q) (D : Z)
  (cam : XMFLOAT3 Q) (pl : Frustum) (px pz : Q) :
  forall fuel x z size depth total t total',
    BuildTree fuel M D x z size depth total = Some (t, total') ->
    (covering_nodes px pz (designated t (draw_targets cam pl t))
     <= indicator (in_square px pz x z size))%nat
    /\ ((forall h n, node_at t h = Some n ->
                     Intersects (Bounds n) pl = true) ->
        covering_nodes px pz (designated t (draw_targets cam pl t))
        = indicator (in_square px pz x z size)).
Proof.
  induction fuel as [|fuel IH];
    intros x z size depth total t total' Hb; [discriminate|].
  cbn [BuildTree] in Hb.
  destruct (canSplit M D size depth); cbn [negb] in Hb.
  - cbn [fadd fsub fmul of_ratio exactQ] in Hb.
    repeat match type of Hb with
           | obind (BuildTree fuel M D ?x ?z ?s ?d ?t) _ = _ =>
               let E := fresh "E" in
               destruct (BuildTree fuel M D x z s d t) as [[? ?]|] eqn:E;
               [apply IH in E; cbn [obind] in Hb|discriminate]
           end.
    inversion Hb; subst; clear Hb.
    destruct E as (L0 & T0). destruct E0 as (L1 & T1).
    destruct E1 as (L2 & T2). destruct E2 as (L3 & T3).
    pose proof (quadrants_partition px pz x z size) as Hq.
    cbv zeta in Hq.
    cbn [draw_targets].
    match goal with
    | |- context [Intersects ?b pl] => destruct (Intersects b pl) eqn:Ei
    end.
    + match goal with
      | |- context [negb ?a && ?b] => destruct (negb a && b)
      end.
      * rewrite !designated_app, !designated_child, !covering_nodes_app.
        cbn [child]. split; [lia|].
        intros Hall.
        rewrite T0, T1, T2, T3; [lia| | | |];
          intros h k Hk.
        -- exact (Hall (3%nat :: h) k Hk).
        -- exact (Hall (2%nat :: h) k Hk).
        -- exact (Hall (1%nat :: h) k Hk).
        -- exact (Hall (0%nat :: h) k Hk).
      * unfold designated, covering_nodes. simpl.
        change (in_footprint px pz
                  (set_IsLeaf false (built_node D x z size depth)))
          with (in_square px pz x z size).
        destruct (in_square px pz x z size); simpl; split; auto.
    + unfold designated, covering_nodes. simpl. split; [lia|].
      intros Hall. exfalso.
      pose proof (eq_trans (eq_sym Ei) (Hall [] _ eq_refl)) as Hr.
      discriminate Hr.
  - inversion Hb; subst; clear Hb.
    cbn [draw_targets].
    match goal with
    | |- context [Intersects ?b pl] => destruct (Intersects b pl) eqn:Ei
    end.
    + unfold designated, covering_nodes. simpl.
      change (in_footprint px pz
                (set_IsLeaf true (built_node D x z size depth)))
        with (in_square px pz x z size).
      destruct (in_square px pz x z size); simpl; split; auto.
    + unfold designated, covering_nodes. simpl. split; [lia|].
      intros Hall. exfalso.
      pose proof (eq_trans (eq_sym Ei) (Hall [] _ eq_refl)) as Hr.
      discriminate Hr.
Qed.

(** X10.  In exact arithmetic, after the first [Update] of a tree built by
    [Initialize], no point of the plane lies in the footprint of two
    listed nodes, and no listed footprint leaves the root square; when
    every node box passes the frustum test the listed footprints tile
    the root square: every point of it lies in exactly one. *)
Theorem listed_footprints_do_not_overlap {SQ : ScalarSqrt Q}
  (terrainSize minNodeSize : Q) (maxLODLevels : Z) (q0 q : QuadTree Q)
  (cameraPos : XMFLOAT3 Q) (frustumPlanes : Frustum) :
  Initialize terrainSize minNodeSize maxLODLevels q0 = Some q ->
  let q' := Update cameraPos frustumPlanes q in
  forall px pz,
    (covering_nodes px pz (designated (mRoot q') (GetVisibleNodes q'))
     <= indicator (in_square px pz 0%Q 0%Q terrainSize))%nat
    /\ ((forall h n, node_at (mRoot q) h = Some n ->
                     Intersects (Bounds n) frustumPlanes = true) ->
        covering_nodes px pz (designated (mRoot q') (GetVisibleNodes q'))
        = indicator (in_square px pz 0%Q 0%Q terrainSize)).
Proof.
  intros Hi q' px pz. subst q'.
  rewrite (first_Update_lists_draw_targets _ _ _ _ _ _ Hi).
  rewrite <- covering_nodes_skeleton.
  rewrite Update_skeleton.
  rewrite covering_nodes_skeleton.
  destruct (Initialize_root _ _ _ _ Hi) as ((total & Hb) & _).
  exact (@draw_targets_footprints SQ _ _ cameraPos frustumPlanes px pz
           _ _ _ _ _ _ _ _ Hb).
Qed.

Lemma all_inside_passes (b : BoundingBoxAABB Q) :
  Intersects b exact_planes_all_inside = true.
Proof.
  destruct (Intersects b exact_planes_all_inside) eqn:E; [reflexivity|].
  apply Intersects_false_iff in E. destruct E as (p & _ & Hd).
  unfold plane_distance, exact_planes_all_inside in Hd.
  cbn [fadd fmul exactQ f4x f4y f4z f4w] in Hd. lra.
Qed.

Lemma listed_footprints_do_not_overlap_witness :
  exists q,
    Initialize 512 64 5 new_QuadTree = Some q
    /\ let q' := Update (SQ := floor_sqrt) exact_camera
                   exact_planes_all_inside q in
       covering_nodes 10 20 (designated (mRoot q') (GetVisibleNodes q'))
       = 1%nat.
Proof.
  eexists. split; [vm_compute; reflexivity|].
  refine (proj2 (@listed_footprints_do_not_overlap floor_sqrt 512 64 5
                   new_QuadTree _ exact_camera exact_planes_all_inside
                   _ 10 20) _).
  - vm_compute. reflexivity.
  - intros h n _. apply all_inside_passes.
Defined.

End QTExactFacts.

Module NoiseFacts.
Import TR TRMore TRSpec TRMoreSpec GenSpec LoopFacts GenLoopFacts
  GenExactFacts.
Local Open Scope Q_scope.

(** *** The noise function is bounded *)

Lemma fraction_range (a : Q) :
  0 <= a - inject_Z (Qfloor a) /\ a - inject_Z (Qfloor a) < 1.
Proof.
  pose proof (Qfloor_le a) as Hl. pose proof (Qlt_floor a) as Hu.
  rewrite inject_Z_plus in Hu. change (inject_Z 1) with 1 in Hu.
  split; lra.
Qed.

Lemma Fade_range (x : Q) : 0 <= x <= 1 -> 0 <= Fade x <= 1.
Proof.
  intros [H0 H1]. unfold Fade. cbn [fmul fsub fadd of_Z exactQ].
  change (inject_Z 6) with 6. change (inject_Z 15) with 15.
  change (inject_Z 10) with 10.
  assert (E1 : x * x * x * (x * (x * 6 - 15) + 10)
               == (x * x * x)
                  * (6 * ((x - (5 # 4)) * (x - (5 # 4))) + (5 # 8)))
    by ring.
  assert (E2 : 1 - x * x * x * (x * (x * 6 - 15) + 10)
               == ((1 - x) * (1 - x) * (1 - x))
                  * (6 * (x * x) + 3 * x + 1))
    by ring.
  assert (P1 : 0 <= x * x * x)
    by (repeat apply Qmult_le_0_compat; assumption).
  assert (P2 : 0 <= 6 * ((x - (5 # 4)) * (x - (5 # 4))) + (5 # 8)) by nra.
  assert (P3 : 0 <= (1 - x) * (1 - x) * (1 - x))
    by (repeat apply Qmult_le_0_compat; lra).
  assert (P4 : 0 <= 6 * (x * x) + 3 * x + 1) by nra.
  pose proof (Qmult_le_0_compat _ _ P1 P2) as Q1.
  pose proof (Qmult_le_0_compat _ _ P3 P4) as Q2.
  rewrite <- E1 in Q1. rewrite <- E2 in Q2. split; lra.
Qed.

(** The interpolation weight leans towards the nearer lattice line:
    [x + Fade x * (1 - 2x) <= 1/2]. *)
Lemma Fade_tilt (x : Q) : x + Fade x * (1 - 2 * x) <= 1 # 2.
Proof.
  unfold Fade. cbn [fmul fsub fadd of_Z exactQ].
  change (inject_Z 6) with 6. change (inject_Z 15) with 15.
  change (inject_Z 10) with 10.
  set (s := x - (1 # 2)).
  assert (E : (1 # 2)
              - (x + x * x * x * (x * (x * 6 - 15) + 10) * (1 - 2 * x))
              == 2 * (s * s)
                 * (6 * ((s * s - (5 # 12)) * (s * s - (5 # 12)))
                    + (5 # 6)))
    by (subst s; ring).
  assert (P1 : 0 <= 2 * (s * s)) by nra.
  assert (P2 : 0 <= 6 * ((s * s - (5 # 12)) * (s * s - (5 # 12)))
                    + (5 # 6)) by nra.
  pose proof (Qmult_le_0_compat _ _ P1 P2) as P. rewrite <- E in P. lra.
Qed.

Lemma Grad_bound (hash : Z) (a b A B : Q) :
  - A <= a <= A -> - B <= b <= B ->
  - (A + B) <= Grad hash a b <= A + B.
Proof.
  intros Ha Hb. unfold Grad. cbn [fadd fneg exactQ].
  destruct (Z.land hash 3 <? 2)%Z;
    destruct (Z.land (Z.land hash 3) 1 =? 0)%Z;
    destruct (Z.land (Z.land hash 3) 2 =? 0)%Z; lra.
Qed.

Lemma Lerp_mono (a b A B t : Q) :
  0 <= t <= 1 -> a <= A -> b <= B -> Lerp a b t <= Lerp A B t.
Proof.
  intros Ht Ha Hb. unfold Lerp. cbn [fadd fsub fmul exactQ].
  assert (P1 : 0 <= (1 - t) * (A - a))
    by (apply Qmult_le_0_compat; lra).
  assert (P2 : 0 <= t * (B - b)) by (apply Qmult_le_0_compat; lra).
  assert (E : A + t * (B - A) - (a + t * (b - a))
              == (1 - t) * (A - a) + t * (B - b)) by ring.
  lra.
Qed.

Lemma Lerp_scale (a b t : Q) : - Lerp a b t == Lerp (- a) (- b) t.
Proof. unfold Lerp. cbn [fadd fsub fmul exactQ]. ring. Qed.

(** The bilinear blend of four values bounded by the distances to their
    lattice corners. *)
Lemma blend_bound (x z u v g00 g10 g01 g11 : Q) :
  0 <= u <= 1 -> 0 <= v <= 1 ->
  x + u * (1 - 2 * x) <= 1 # 2 ->
  z + v * (1 - 2 * z) <= 1 # 2 ->
  g00 <= x + z -> g10 <= (1 - x) + z ->
  g01 <= x + (1 - z) -> g11 <= (1 - x) + (1 - z) ->
  Lerp (Lerp g00 g10 u) (Lerp g01 g11 u) v <= 1.
Proof.
  intros Hu Hv Tx Tz H00 H10 H01 H11.
  pose proof (Lerp_mono Hu H00 H10) as L0.
  pose proof (Lerp_mono Hu H01 H11) as L1.
  pose proof (Lerp_mono Hv L0 L1) as L.
  eapply Qle_trans; [exact L|].
  unfold Lerp. cbn [fadd fsub fmul exactQ].
  assert (E : x + z + u * (1 - x + z - (x + z))
              + v * (x + (1 - z) + u * (1 - x + (1 - z) - (x + (1 - z)))
                     - (x + z + u * (1 - x + z - (x + z))))
              == (x + u * (1 - 2 * x)) + (z + v * (1 - 2 * z))) by ring.
  rewrite E. lra.
Qed.

Lemma PerlinNoise_range (t : Terrain Q) (x z : Q) :
  - (1) <= PerlinNoise t x z <= 1.
Proof.
  unfold PerlinNoise.
  cbn [fsub ffloor of_Z exactQ].
  destruct (fraction_range x) as [X0 X1].
  destruct (fraction_range z) as [Z0 Z1].
  set (fx := x - inject_Z (Qfloor x)) in *.
  set (fz := z - inject_Z (Qfloor z)) in *.
  pose proof (@Fade_range fx ltac:(lra)) as Hu.
  pose proof (@Fade_range fz ltac:(lra)) as Hv.
  pose proof (Fade_tilt fx) as Tx. pose proof (Fade_tilt fz) as Tz.
  change (inject_Z 1) with 1.
  match goal with
  | |- _ <= Lerp (Lerp (Grad ?h00 _ _) (Grad ?h10 _ _) _)
              (Lerp (Grad ?h01 _ _) (Grad ?h11 _ _) _) _ <= _ =>
      pose proof (@Grad_bound h00 fx fz fx fz ltac:(lra) ltac:(lra)) as G00;
      pose proof (@Grad_bound h10 (fx - 1) fz (1 - fx) fz
                    ltac:(lra) ltac:(lra)) as G10;
      pose proof (@Grad_bound h01 fx (fz - 1) fx (1 - fz)
                    ltac:(lra) ltac:(lra)) as G01;
      pose proof (@Grad_bound h11 (fx - 1) (fz - 1) (1 - fx) (1 - fz)
                    ltac:(lra) ltac:(lra)) as G11;
      set (g00 := Grad h00 fx fz) in *;
      set (g10 := Grad h10 (fx - 1) fz) in *;
      set (g01 := Grad h01 fx (fz - 1)) in *;
      set (g11 := Grad h11 (fx - 1) (fz - 1)) in *
  end.
  split.
  - assert (H : - Lerp (Lerp g00 g10 (Fade fx)) (Lerp g01 g11 (Fade fx))
                    (Fade fz) <= 1); [|lra].
    assert (E : - Lerp (Lerp g00 g10 (Fade fx)) (Lerp g01 g11 (Fade fx))
                    (Fade fz)
                == Lerp (Lerp (- g00) (- g10) (Fade fx))
                     (Lerp (- g01) (- g11) (Fade fx)) (Fade fz))
      by (unfold Lerp; cbn [fadd fsub fmul exactQ]; ring).
    rewrite E.
    apply (@blend_bound fx fz); try assumption; lra.
  - apply (@blend_bound fx fz); try assumption; lra.
Qed.

Lemma fraction_at_integer (a : Q) (i : Z) :
  a == inject_Z i -> a - inject_Z (Qfloor a) == 0.
Proof.
  intros Ha.
  assert (Hf : Qfloor a = i) by (rewrite Ha; apply Qfloor_Z).
  rewrite Hf, Ha. ring.
Qed.

Lemma PerlinNoise_lattice (t : Terrain Q) (x z : Q) (i j : Z) :
  x == inject_Z i -> z == inject_Z j -> PerlinNoise t x z == 0.
Proof.
  intros Hx Hz. unfold PerlinNoise, Lerp.
  cbn [fmul fsub fadd of_Z ffloor to_int exactQ].
  pose proof (fraction_at_integer Hx) as Hfx.
  pose proof (fraction_at_integer Hz) as Hfz.
  set (fx := x - inject_Z (Qfloor x)) in *.
  set (fz := z - inject_Z (Qfloor z)) in *.
  rewrite (Fade_zero Hfx), (Fade_zero Hfz).
  match goal with
  | |- context [Grad ?h fx fz] => rewrite (@Grad_zero h fx fz Hfx Hfz)
  end.
  ring.
Qed.

(** X14.  In exact arithmetic [PerlinNoise] stays in [[-1, 1]], whatever the
    permutation table holds and wherever it is evaluated, and it
    vanishes at every point with integer coordinates. *)
Theorem PerlinNoise_bounded (t : Terrain Q) (x z : Q) :
  - (1) <= PerlinNoise t x z <= 1
  /\ forall i j : Z,
       x == inject_Z i -> z == inject_Z j -> PerlinNoise t x z == 0.
Proof.
  split; [apply PerlinNoise_range|].
  intros i j. apply PerlinNoise_lattice.
Qed.

(** *** The octave sum *)

Lemma octave_step_invariant (t : Terrain Q) (nx nz : Q)
  (s : Q * Q * Q * Q) :
  let '(sum, amp, _, ampSum) := s in
  0 < amp -> 0 <= ampSum -> - ampSum <= sum <= ampSum ->
  let '(sum', amp', _, ampSum') := octave_step t nx nz s in
  0 < amp' /\ 0 < ampSum' /\ - ampSum' <= sum' <= ampSum'.
Proof.
  destruct s as [[[sum amp] freq] ampSum]. intros Ha Hs Hb.
  unfold octave_step. cbn [fadd fmul of_ratio of_Z exactQ].
  pose proof (PerlinNoise_range t (nx * freq) (nz * freq)) as Hn.
  set (n := PerlinNoise t (nx * freq) (nz * freq)) in *.
  assert (P1 : 0 <= (1 - n) * amp) by (apply Qmult_le_0_compat; lra).
  assert (P2 : 0 <= (1 + n) * amp) by (apply Qmult_le_0_compat; lra).
  assert (E1 : (1 - n) * amp == amp - n * amp) by ring.
  assert (E2 : (1 + n) * amp == amp + n * amp) by ring.
  repeat split; lra.
Qed.

Lemma octaves_invariant (t : Terrain Q) (nx nz : Q) (n : nat)
  (s : Q * Q * Q * Q) :
  let '(sum, amp, _, ampSum) := s in
  0 < amp -> 0 <= ampSum -> - ampSum <= sum <= ampSum ->
  let '(sum', amp', _, ampSum') :=
    for_range (S n) (fun _ => octave_step t nx nz) s in
  0 < amp' /\ 0 < ampSum' /\ - ampSum' <= sum' <= ampSum'.
Proof.
  induction n as [|n IH].
  - pose proof (octave_step_invariant t nx nz s) as H.
    destruct s as [[[sum amp] freq] ampSum]. exact H.
  - rewrite for_range_S.
    destruct s as [[[sum amp] freq] ampSum]. intros Ha Hs Hb.
    specialize (IH Ha Hs Hb).
    pose proof (octave_step_invariant t nx nz
                  (for_range (S n) (fun _ => octave_step t nx nz)
                     (sum, amp, freq, ampSum))) as H.
    destruct (for_range (S n) (fun _ => octave_step t nx nz)
                (sum, amp, freq, ampSum)) as [[[sum1 amp1] freq1] ampSum1].
    destruct IH as (A1 & S1 & B1). apply H; lra.
Qed.

Lemma fractal_value_unit (t : Terrain Q) (width height : Z)
  (frequency : Q) (octaves : Z) (x z : nat) :
  (1 <= octaves)%Z ->
  0 <= fractal_value t width height frequency octaves x z <= 1.
Proof.
  intros Ho. unfold fractal_value.
  replace (Z.to_nat octaves) with (S (Z.to_nat (octaves - 1))) by lia.
  cbn [fdiv fadd fmul of_Z of_ratio exactQ].
  pose proof (octaves_invariant t
                (inject_Z (Z.of_nat x) / inject_Z width)
                (inject_Z (Z.of_nat z) / inject_Z height)
                (Z.to_nat (octaves - 1))
                (inject_Z 0, inject_Z 1, frequency, inject_Z 0)) as H.
  cbv beta iota in H.
  specialize (H ltac:(reflexivity) ltac:(apply Qle_refl)
                ltac:(split; apply Qle_refl || discriminate)).
  destruct (for_range (S (Z.to_nat (octaves - 1))) _ _)
    as [[[sum amp] freq] ampSum].
  destruct H as (_ & Hs & Hb).
  assert (Hd : - (1) <= sum / ampSum <= 1).
  { split.
    - apply Qle_shift_div_l; [exact Hs|]. lra.
    - apply Qle_shift_div_r; [exact Hs|]. lra. }
  change (inject_Z 1) with 1. lra.
Qed.

Lemma fractal_grid_unit (t : Terrain Q) (width height : Z)
  (frequency : Q) (octaves : Z) :
  (1 <= octaves)%Z ->
  unit_samples (fractal_grid t width height frequency octaves).
Proof.
  intros Ho s Hin. unfold fractal_grid in Hin.
  apply in_flat_map in Hin. destruct Hin as (z & _ & Hin).
  apply in_map_iff in Hin. destruct Hin as (x & <- & _).
  now apply fractal_value_unit.
Qed.

(** X15.  In exact arithmetic, for at least one octave, every sample that
    [GenerateProceduralHeightmap] stores lies in [[0, 1]], whether or
    not the grid was rescaled. *)
Theorem GenerateProceduralHeightmap_unit_samples (t : Terrain Q)
  (width height : Z) (frequency : Q) (octaves : Z) :
  (0 <= width)%Z -> (0 <= height)%Z -> (1 <= octaves)%Z ->
  unit_samples
    (mHeightmap
       (GenerateProceduralHeightmap width height frequency octaves t)).
Proof.
  intros Hw Hh Ho. unfold GenerateProceduralHeightmap.
  rewrite generate_cells_spec by assumption.
  pose proof (@fractal_grid_unit t width height frequency octaves Ho)
    as Hunit.
  set (vs := fractal_grid t width height frequency octaves) in *.
  destruct (fold_fmax_spec vs (of_Z 0)) as (_ & Hhi & _).
  destruct (fold_fmin_spec vs (of_Z 1)) as (_ & Hlo & _).
  set (hi := fold_left fmax vs (of_Z 0)) in *.
  set (lo := fold_left fmin vs (of_Z 1)) in *.
  cbn [fsub fdiv flt of_ratio exactQ].
  destruct (Exact.ltb (1 # 1000) (hi - lo)) eqn:E;
    cbn [mHeightmap set_heightmap]; [|exact Hunit].
  apply ExactFacts.ltb_lt in E.
  intros s Hin. apply in_map_iff in Hin. destruct Hin as (v & <- & Hv).
  specialize (Hhi v Hv). specialize (Hlo v Hv).
  split.
  - apply Qle_shift_div_l; lra.
  - apply Qle_shift_div_r; lra.
Qed.

Lemma GenerateProceduralHeightmap_unit_samples_witness :
  (0 <= 4)%Z /\ (0 <= 3)%Z /\ (1 <= 2)%Z
  /\ unit_samples
       (mHeightmap
          (GenerateProceduralHeightmap 4 3 (5 # 2) 2
             Samples.fresh_terrain_exact)).
Proof.
  assert (Hw : (0 <= 4)%Z) by lia.
  assert (Hh : (0 <= 3)%Z) by lia.
  assert (Ho : (1 <= 2)%Z) by lia.
  repeat split; try assumption;
    apply (@GenerateProceduralHeightmap_unit_samples
             Samples.fresh_terrain_exact 4 3 (5 # 2) 2 Hw Hh Ho);
    assumption.
Defined.

End NoiseFacts.

Module TerrainRangeFacts.
Import TR TRMore TRSpec TRMoreSpec GenSpec LoopFacts GenLoopFacts
  SampleFacts ExactSampleFacts NoiseFacts.

(** *** Loops that fill a fresh vector *)

Lemma fill_repeat {A : Type} (f : nat -> A) (d : A) (n : nat) :
  for_range n (fun i g => vec_set i (f i) g) (repeat d n)
  = map f (seq 0 n).
Proof.
  pose proof (fill_all f (repeat d n)) as H.
  rewrite repeat_length in H. exact H.
Qed.

Lemma fill_rows_repeat {A : Type} (f : nat -> nat -> A) (d : A)
  (w h : nat) :
  for_range h
    (fun z => for_range w (fun x g => vec_set (z * w + x) (f x z) g))
    (repeat d (h * w))
  = flat_map (fun z => map (fun x => f x z) (seq 0 w)) (seq 0 h).
Proof.
  rewrite fill_rows by (rewrite repeat_length; lia).
  rewrite skipn_all2 by (rewrite repeat_length; lia).
  apply app_nil_r.
Qed.

(** *** [LoadHeightmapDDS] *)

Lemma LoadHeightmapDDS_grid {F : Type} {SF : Scalar F}
  (descWidth descHeight : Z) (t : Terrain F) :
  0 <= descHeight ->
  let width := Int.wrap_uint descWidth in
  snd (LoadHeightmapDDS (Some (descWidth, descHeight)) t)
  = set_heightmap width descHeight
      (flat_map
         (fun z =>
            map (fun x =>
                   fadd
                     (fmul
                        (PerlinNoise t
                           (fmul (fdiv (of_Z (Z.of_nat x)) (of_Z width))
                              (of_Z 4))
                           (fmul (fdiv (of_Z (Z.of_nat z))
                                    (of_Z descHeight))
                              (of_Z 4)))
                        (of_ratio 1 2))
                     (of_ratio 1 2))
              (seq 0 (Z.to_nat width)))
         (seq 0 (Z.to_nat descHeight)))
      t.
Proof.
  intros Hh width. unfold LoadHeightmapDDS. cbn [snd]. fold width.
  assert (Hw : 0 <= width)
    by (subst width; unfold Int.wrap_uint; apply Z.mod_pos_bound; lia).
  replace (Z.to_nat (width * descHeight))
    with (Z.to_nat descHeight * Z.to_nat width)%nat
    by (rewrite Z2Nat.inj_mul by assumption; lia).
  f_equal.
  exact (fill_rows_repeat
           (fun x z =>
              fadd
                (fmul
                   (PerlinNoise t
                      (fmul (fdiv (of_Z (Z.of_nat x)) (of_Z width))
                         (of_Z 4))
                      (fmul (fdiv (of_Z (Z.of_nat z)) (of_Z descHeight))
                         (of_Z 4)))
                   (of_ratio 1 2))
                (of_ratio 1 2))
           (of_Z 0) (Z.to_nat width) (Z.to_nat descHeight)).
Qed.

(** X13.  [LoadHeightmapDDS] leaves the object alone when the texture cannot
    be created; otherwise it takes the dimensions of the texture and, in
    exact arithmetic, stores [width * height] samples of
    [PerlinNoise * 0.5 + 0.5], all of them in [[0, 1]]. *)
Theorem LoadHeightmapDDS_unit_samples (texture : option (Z * Z))
  (t : Terrain Q) :
  match texture with
  | None => LoadHeightmapDDS texture t = (false, t)
  | Some (descWidth, descHeight) =>
      0 <= descHeight ->
      let t' := snd (LoadHeightmapDDS texture t) in
      fst (LoadHeightmapDDS texture t) = true
      /\ mHeightmapWidth t' = Int.wrap_uint descWidth
      /\ mHeightmapHeight t' = descHeight
      /\ grid_consistent t'
      /\ unit_samples (mHeightmap t')
      /\ mPermutation t' = mPermutation t
      /\ mTerrainSize t' = mTerrainSize t
      /\ mMinHeight t' = mMinHeight t
      /\ mMaxHeight t' = mMaxHeight t
  end.
Proof.
  destruct texture as [[descWidth descHeight]|]; [|reflexivity].
  intros Hh t'. subst t'.
  rewrite LoadHeightmapDDS_grid by assumption. cbv zeta.
  assert (Hw : 0 <= Int.wrap_uint descWidth)
    by (unfold Int.wrap_uint; apply Z.mod_pos_bound; lia).
  cbn [mHeightmapWidth mHeightmapHeight mHeightmap mPermutation
         mTerrainSize mMinHeight mMaxHeight set_heightmap].
  split; [reflexivity|]. split; [reflexivity|]. split; [reflexivity|].
  split.
  - unfold grid_consistent.
    cbn [mHeightmapWidth mHeightmapHeight mHeightmap set_heightmap].
    split; [exact Hw|]. split; [exact Hh|].
    rewrite length_rows, Z2Nat.inj_mul by assumption. lia.
  - split; [|repeat split].
    intros s Hin. apply in_flat_map in Hin. destruct Hin as (z & _ & Hin).
    apply in_map_iff in Hin. destruct Hin as (x & <- & _).
    cbn [fadd fmul fdiv of_Z of_ratio exactQ].
    match goal with
    | |- (0 <= PerlinNoise t ?a ?b * _ + _ <= 1)%Q =>
        pose proof (PerlinNoise_range t a b) as Hn;
        set (n := PerlinNoise t a b) in *
    end.
    lra.
Qed.

Lemma LoadHeightmapDDS_unit_samples_witness :
  0 <= 3
  /\ unit_samples
       (mHeightmap
          (snd (LoadHeightmapDDS (Some (4, 3)) Samples.fresh_terrain_exact))).
Proof.
  assert (H : 0 <= 3) by lia.
  split; [exact H|].
  exact (proj1 (proj2 (proj2 (proj2 (proj2
           (@LoadHeightmapDDS_unit_samples (Some (4, 3))
              Samples.fresh_terrain_exact H)))))).
Defined.

(** *** [LoadHeightmap] *)

Lemma byte_val_range (b : Byte.byte) : 0 <= byte_val b <= 255.
Proof.
  unfold byte_val. pose proof (Byte.to_nat_bounded b). lia.
Qed.

Lemma raw_bytes_range (n : nat) (got : list Byte.byte) (i : nat) :
  0 <= nth i (raw_bytes n got) 0 <= 255.
Proof.
  destruct (Nat.lt_ge_cases i (length (raw_bytes n got))) as [Hi|Hi].
  - assert (Hin : In (nth i (raw_bytes n got) 0) (raw_bytes n got))
      by (apply nth_In; exact Hi).
    unfold raw_bytes in Hin at 2. apply in_app_or in Hin.
    destruct Hin as [Hin|Hin].
    + apply in_map_iff in Hin. destruct Hin as (b & <- & _).
      apply byte_val_range.
    + apply repeat_spec in Hin. rewrite Hin. lia.
  - rewrite nth_overflow by exact Hi. lia.
Qed.

Lemma ratio_unit (v m : Z) :
  0 <= v <= m -> 0 < m -> (0 <= inject_Z v / inject_Z m <= 1)%Q.
Proof.
  intros Hv Hm.
  assert (H0 : (0 <= inject_Z v)%Q)
    by (change 0%Q with (inject_Z 0); rewrite <- Zle_Qle; lia).
  assert (H1 : (inject_Z v <= inject_Z m)%Q) by (rewrite <- Zle_Qle; lia).
  assert (H2 : (0 < inject_Z m)%Q)
    by (change 0%Q with (inject_Z 0); rewrite <- Zlt_Qlt; lia).
  split.
  - apply Qle_shift_div_l; [exact H2|]. lra.
  - apply Qle_shift_div_r; [exact H2|]. lra.
Qed.

(** X12.  [LoadHeightmap] fails only when the file cannot be opened, and then
    leaves the object alone.  Otherwise, whatever the file holds and
    however long it is, for both sample widths: it reports success,
    reads no offset beyond the end of the file, and, in exact
    arithmetic, stores [width * height] samples that all lie in
    [[0, 1]]. *)
Theorem LoadHeightmap_unit_samples (file : option (list Byte.byte))
  (width height : Z) (is16Bit : bool) (t : Terrain Q) :
  match file with
  | None => LoadHeightmap file width height is16Bit t = (false, t, [])
  | Some data =>
      let '(ok, t', offsets) :=
        LoadHeightmap file width height is16Bit t in
      ok = true
      /\ mHeightmapWidth t' = width /\ mHeightmapHeight t' = height
      /\ length (mHeightmap t') = Z.to_nat (width * height)
      /\ unit_samples (mHeightmap t')
      /\ (forall o, In o offsets -> (o < length data)%nat)
  end.
Proof.
  destruct file as [data|]; [|reflexivity].
  unfold LoadHeightmap, istream_read.
  destruct is16Bit;
    cbn [mHeightmapWidth mHeightmapHeight mHeightmap set_heightmap];
    rewrite fill_repeat;
    (split; [reflexivity|]); (split; [reflexivity|]);
    (split; [reflexivity|]);
    (split; [now rewrite length_map, length_seq|]); split.
  - intros s Hin. apply in_map_iff in Hin. destruct Hin as (i & <- & _).
    cbn [fdiv of_Z exactQ]. apply ratio_unit; [|lia].
    unfold raw16.
    pose proof (raw_bytes_range (Z.to_nat (width * height) * 2)
                  (firstn (Z.to_nat (width * height) * 2) data) (2 * i)).
    pose proof (raw_bytes_range (Z.to_nat (width * height) * 2)
                  (firstn (Z.to_nat (width * height) * 2) data)
                  (2 * i + 1)).
    lia.
  - intros o Hin. apply in_seq in Hin. lia.
  - intros s Hin. apply in_map_iff in Hin. destruct Hin as (i & <- & _).
    cbn [fdiv of_Z exactQ]. apply ratio_unit; [|lia].
    unfold raw8. apply raw_bytes_range.
  - intros o Hin. apply in_seq in Hin. lia.
Qed.

(** *** The height returned by [GetHeight] *)

Lemma SampleHeight_unit (t : Terrain Q) (a b : Z) :
  grid_consistent t -> mHeightmap t <> [] ->
  unit_samples (mHeightmap t) ->
  exists h, snd (SampleHeight t a b) = Some h /\ (0 <= h <= 1)%Q.
Proof.
  intros Hc Hne Hu.
  destruct (SampleHeight_inside a b Hc Hne) as [Hs _].
  destruct (snd (SampleHeight t a b)) as [h|] eqn:E; [|congruence].
  exists h. split; [reflexivity|]. apply Hu.
  unfold SampleHeight in E. cbn [snd] in E.
  match type of E with
  | (if ?c then _ else _) = _ => destruct c; [discriminate|]
  end.
  eapply nth_error_In. exact E.
Qed.

(** A column left of the grid and its right neighbour, when the weight
    is not a fraction, are the same column. *)
Lemma column_of_int_min (t : Terrain Q) (b : Z) :
  SampleHeight t Int.int_min b
  = SampleHeight t (Int.wrap_int (Int.int_min + 1)) b.
Proof.
  unfold SampleHeight.
  change (Int.wrap_int (Int.int_min + 1)) with (- 2 ^ 31 + 1).
  change Int.int_min with (- 2 ^ 31).
  set (maxX := Int.wrap_int (Int.wrap_int (mHeightmapWidth t) - 1)).
  replace (Z.max 0 (Z.min (- 2 ^ 31) maxX)) with 0 by lia.
  replace (Z.max 0 (Z.min (- 2 ^ 31 + 1) maxX)) with 0 by lia.
  reflexivity.
Qed.

Lemma row_of_int_min (t : Terrain Q) (a : Z) :
  SampleHeight t a Int.int_min
  = SampleHeight t a (Int.wrap_int (Int.int_min + 1)).
Proof.
  unfold SampleHeight.
  change (Int.wrap_int (Int.int_min + 1)) with (- 2 ^ 31 + 1).
  change Int.int_min with (- 2 ^ 31).
  set (maxZ := Int.wrap_int (Int.wrap_int (mHeightmapHeight t) - 1)).
  replace (Z.max 0 (Z.min (- 2 ^ 31) maxZ)) with 0 by lia.
  replace (Z.max 0 (Z.min (- 2 ^ 31 + 1) maxZ)) with 0 by lia.
  reflexivity.
Qed.

(** The cell index and the weight [GetHeight] derives from a texel
    coordinate: the weight is a fraction, or the conversion to [int]
    overflowed and the index is [INT_MIN]. *)
Lemma cell_and_weight (u : Q) :
  let x0 := to_int (ffloor u) in
  (0 <= u - inject_Z x0 <= 1)%Q \/ x0 = Int.int_min.
Proof.
  cbn [to_int ffloor exactQ].
  unfold Exact.to_int, Exact.truncZ, Int.of_float_value.
  simpl Qnum. simpl Qden. rewrite Z.quot_1_r.
  destruct (Int.in_int (Qfloor u)); [left|right; reflexivity].
  destruct (fraction_range u). split; lra.
Qed.

Lemma interpolate_unit (h0 h1 f : Q) :
  (0 <= f <= 1)%Q \/ h0 = h1 ->
  (0 <= h0 <= 1)%Q -> (0 <= h1 <= 1)%Q ->
  (0 <= h0 + (h1 - h0) * f <= 1)%Q.
Proof.
  intros [Hf| ->] H0 H1.
  - assert (P1 : (0 <= (1 - f) * h0)%Q)
      by (apply Qmult_le_0_compat; lra).
    assert (P2 : (0 <= f * h1)%Q) by (apply Qmult_le_0_compat; lra).
    assert (P3 : (0 <= (1 - f) * (1 - h0))%Q)
      by (apply Qmult_le_0_compat; lra).
    assert (P4 : (0 <= f * (1 - h1))%Q)
      by (apply Qmult_le_0_compat; lra).
    assert (E1 : (h0 + (h1 - h0) * f == (1 - f) * h0 + f * h1)%Q) by ring.
    assert (E2 : (1 - (h0 + (h1 - h0) * f)
                  == (1 - f) * (1 - h0) + f * (1 - h1))%Q) by ring.
    split; lra.
  - assert (E : (h1 + (h1 - h1) * f == h1)%Q) by ring.
    rewrite E. exact H1.
Qed.

(** X16.  In exact arithmetic, for a terrain size other than zero, on a
    consistent grid whose samples lie in [[0, 1]] and for
    [mMinHeight <= mMaxHeight], [GetHeight] returns a height between
    [mMinHeight] and [mMaxHeight] for every world coordinate pair, also
    far outside the terrain and where the conversion of the texel
    coordinate to [int] overflows. *)
Theorem GetHeight_within_height_range (t : Terrain Q) (x z : Q) :
  ~ (mTerrainSize t == 0)%Q ->
  grid_consistent t -> mHeightmap t <> [] ->
  unit_samples (mHeightmap t) ->
  (mMinHeight t <= mMaxHeight t)%Q ->
  exists h,
    snd (GetHeight t x z) = Some h
    /\ (mMinHeight t <= h <= mMaxHeight t)%Q.
Proof.
  intros _ Hc Hne Hu Hmm. unfold GetHeight.
  destruct (mHeightmap t) as [|s0 g] eqn:Hg; [congruence|].
  rewrite <- Hg in Hu, Hne.
  set (u := fmul (fadd (fdiv x (mTerrainSize t)) (of_ratio 1 2))
              (of_Z (mHeightmapWidth t))).
  set (v := fmul (fadd (fdiv z (mTerrainSize t)) (of_ratio 1 2))
              (of_Z (mHeightmapHeight t))).
  pose proof (cell_and_weight u) as Hx.
  pose proof (cell_and_weight v) as Hz.
  cbv zeta in Hx, Hz.
  set (x0 := to_int (ffloor u)) in *. set (z0 := to_int (ffloor v)) in *.
  destruct (SampleHeight_unit x0 z0 Hc Hne Hu) as (h00 & E00 & R00).
  destruct (SampleHeight_unit (Int.wrap_int (x0 + 1)) z0 Hc Hne Hu)
    as (h10 & E10 & R10).
  destruct (SampleHeight_unit x0 (Int.wrap_int (z0 + 1)) Hc Hne Hu)
    as (h01 & E01 & R01).
  destruct (SampleHeight_unit (Int.wrap_int (x0 + 1))
              (Int.wrap_int (z0 + 1)) Hc Hne Hu) as (h11 & E11 & R11).
  rewrite (snd_rd_bind_some _ _ E00). cbv beta.
  rewrite (snd_rd_bind_some _ _ E10). cbv beta.
  rewrite (snd_rd_bind_some _ _ E01). cbv beta.
  rewrite (snd_rd_bind_some _ _ E11). cbv beta.
  cbn [rd_ret snd]. eexists. split; [reflexivity|].
  cbn [fadd fsub fmul of_Z exactQ].
  assert (Wx : ((0 <= u - inject_Z x0 <= 1)%Q \/ h00 = h10)
               /\ ((0 <= u - inject_Z x0 <= 1)%Q \/ h01 = h11)).
  { destruct Hx as [Hx|Hx]; [split; left; exact Hx|].
    split; right.
    - rewrite Hx in E00, E10. rewrite column_of_int_min in E00. congruence.
    - rewrite Hx in E01, E11. rewrite column_of_int_min in E01. congruence. }
  destruct Wx as [Wx0 Wx1].
  pose proof (interpolate_unit Wx0 R00 R10) as Rx0.
  pose proof (interpolate_unit Wx1 R01 R11) as Rx1.
  set (hx0 := (h00 + (h10 - h00) * (u - inject_Z x0))%Q) in *.
  set (hx1 := (h01 + (h11 - h01) * (u - inject_Z x0))%Q) in *.
  assert (Rh : (0 <= hx0 + (hx1 - hx0) * (v - inject_Z z0) <= 1)%Q).
  { destruct Hz as [Hz|Hz].
    - apply interpolate_unit; [left; exact Hz|assumption|assumption].
    - assert (E0 : h00 = h01)
        by (rewrite Hz in E00, E01; rewrite row_of_int_min in E00;
            congruence).
      assert (E1 : h10 = h11)
        by (rewrite Hz in E10, E11; rewrite row_of_int_min in E10;
            congruence).
      assert (E : (hx0 == hx1)%Q) by (subst hx0 hx1; rewrite E0, E1; ring).
      assert (E' : (hx0 + (hx1 - hx0) * (v - inject_Z z0) == hx0)%Q)
        by (rewrite E; ring).
      rewrite E'. exact Rx0. }
  set (h := (hx0 + (hx1 - hx0) * (v - inject_Z z0))%Q) in *.
  assert (P1 : (0 <= h * (mMaxHeight t - mMinHeight t))%Q)
    by (apply Qmult_le_0_compat; lra).
  assert (P2 : (0 <= (1 - h) * (mMaxHeight t - mMinHeight t))%Q)
    by (apply Qmult_le_0_compat; lra).
  assert (E2 : ((1 - h) * (mMaxHeight t - mMinHeight t)
                == (mMaxHeight t - mMinHeight t)
                   - h * (mMaxHeight t - mMinHeight t))%Q) by ring.
  split; lra.
Qed.

Lemma GetHeight_within_height_range_witness :
  ~ (mTerrainSize Samples.small_terrain_exact == 0)%Q
  /\ exists h,
      snd (GetHeight Samples.small_terrain_exact (1000 # 3) (- (77))%Q)
      = Some h
      /\ (0 <= h <= 150)%Q.
Proof.
  split; [discriminate|].
  refine (@GetHeight_within_height_range Samples.small_terrain_exact
            (1000 # 3) (- (77))%Q _ _ _ _ _).
  - discriminate.
  - vm_compute. repeat split; discriminate.
  - discriminate.
  - vm_compute. intros s Hin.
    repeat (destruct Hin as [<-|Hin]); try contradiction;
      split; discriminate.
  - discriminate.
Defined.

End TerrainRangeFacts.

Module PermutationFacts.
Import TR TRMore TRSpec TRMoreSpec LoopFacts.

Lemma nth_vec_set {A : Type} (a d : A) (v : list A) :
  forall i k,
    nth k (vec_set i a v) d
    = if (k =? i)%nat && (i <? length v)%nat then a else nth k v d.
Proof.
  induction v as [|b v IH]; intros [|i] [|k]; simpl; try reflexivity.
  - now rewrite andb_false_r.
  - rewrite IH. reflexivity.
Qed.

(** The table after [n] rounds of the constructor's copy loop. *)
Lemma copy_loop (base : list Z) (n k : nat) :
  (n <= 256)%nat ->
  nth k
    (for_range n
       (fun i perm =>
          vec_set (i + 256) (nth i base 0) (vec_set i (nth i base 0) perm))
       (repeat 0 512)) 0
  = if (k <? n)%nat then nth k base 0
    else if (256 <=? k)%nat && (k <? 256 + n)%nat
         then nth (k - 256) base 0
         else 0.
Proof.
  induction n as [|n IH]; intros Hn.
  - change (for_range 0 _ (repeat 0 512)) with (repeat 0 512).
    rewrite nth_repeat.
    destruct (Nat.ltb_spec k 0); [lia|].
    destruct (Nat.leb_spec 256 k); destruct (Nat.ltb_spec k (256 + 0));
      try lia; reflexivity.
  - rewrite for_range_S, !nth_vec_set, IH by lia.
    assert (Hlen : forall m,
               length
                 (for_range m
                    (fun i perm =>
                       vec_set (i + 256) (nth i base 0)
                         (vec_set i (nth i base 0) perm))
                    (repeat 0 512)) = 512%nat).
    { induction m as [|m IHm]; [apply repeat_length|].
      rewrite for_range_S, !vec_set_length. exact IHm. }
    rewrite vec_set_length, Hlen.
    destruct (Nat.eqb_spec k (n + 256)) as [E1|N1];
      destruct (Nat.eqb_spec k n) as [E2|N2];
      destruct (Nat.ltb_spec (n + 256) 512);
      destruct (Nat.ltb_spec n 512);
      destruct (Nat.ltb_spec k n);
      destruct (Nat.ltb_spec k (S n));
      destruct (Nat.leb_spec 256 k);
      destruct (Nat.ltb_spec k (256 + n));
      destruct (Nat.ltb_spec k (256 + S n));
      try lia; cbn [andb]; try reflexivity; subst; f_equal; lia.
Qed.

Lemma new_Terrain_table {F : Type} {SF : Scalar F}
  (terrainSize minHeight maxHeight : F) (base : list Z) (k : nat) :
  nth k (mPermutation (new_Terrain terrainSize minHeight maxHeight base)) 0
  = if (k <? 256)%nat then nth k base 0
    else if (k <? 512)%nat then nth (k - 256) base 0 else 0.
Proof.
  unfold new_Terrain. cbn [mPermutation].
  rewrite copy_loop by lia.
  destruct (Nat.ltb_spec k 256); [reflexivity|].
  destruct (Nat.leb_spec 256 k); [|lia]. reflexivity.
Qed.

Lemma new_Terrain_table_length {F : Type} {SF : Scalar F}
  (terrainSize minHeight maxHeight : F) (base : list Z) :
  length (mPermutation (new_Terrain terrainSize minHeight maxHeight base))
  = 512%nat.
Proof.
  unfold new_Terrain. cbn [mPermutation].
  generalize 256%nat at 1. intros m.
  induction m as [|m IHm]; [apply repeat_length|].
  rewrite for_range_S, !vec_set_length. exact IHm.
Qed.

Lemma land_255_range (a : Z) : 0 <= Z.land a 255 <= 255.
Proof.
  change 255 with (Z.ones 8) at 1 2. rewrite Z.land_ones by lia.
  pose proof (Z.mod_pos_bound a (2 ^ 8) ltac:(lia)). lia.
Qed.

Lemma base_entry_range (base : list Z) (k : nat) :
  shuffled base -> 0 <= nth k base 0 <= 255.
Proof.
  intros [Hlen Hall].
  destruct (Nat.lt_ge_cases k (length base)) as [Hk|Hk].
  - apply Hall. now apply nth_In.
  - rewrite nth_overflow by exact Hk. lia.
Qed.

(** X11.  The constructor stores the shuffled table twice, in entries
    [0..255] and [256..511]; with it, every index at which
    [PerlinNoise] reads [mPermutation] lies inside the 512 entries, for
    every argument pair and every interpretation of [float]. *)
Theorem PerlinNoise_reads_inside_table {F : Type} {SF : Scalar F}
  (terrainSize minHeight maxHeight : F) (base : list Z) :
  shuffled base ->
  let t := new_Terrain terrainSize minHeight maxHeight base in
  length (mPermutation t) = 512%nat
  /\ (forall i, (i < 256)%nat ->
                nth i (mPermutation t) 0 = nth i base 0
                /\ nth (i + 256) (mPermutation t) 0 = nth i base 0)
  /\ forall (x z : F) (i : Z),
       In i (PerlinNoise_lookups t x z) -> 0 <= i < 512.
Proof.
  intros Hb t. subst t.
  split; [apply new_Terrain_table_length|]. split.
  - intros i Hi. rewrite !new_Terrain_table.
    destruct (Nat.ltb_spec i 256); [|lia].
    destruct (Nat.ltb_spec (i + 256) 256); [lia|].
    destruct (Nat.ltb_spec (i + 256) 512); [|lia].
    split; [reflexivity|]. f_equal. lia.
  - intros x z i Hin. unfold PerlinNoise_lookups in Hin.
    pose proof (land_255_range (to_int (ffloor x))) as HX.
    pose proof (land_255_range (to_int (ffloor z))) as HZ.
    set (X := Z.land (to_int (ffloor x)) 255) in *.
    set (Zc := Z.land (to_int (ffloor z)) 255) in *.
    assert (HP : forall j, 0 <= j ->
                 0 <= perm_at
                        (new_Terrain terrainSize minHeight maxHeight base) j
                 <= 255).
    { intros j Hj. unfold perm_at. rewrite new_Terrain_table.
      destruct (Z.to_nat j <? 256)%nat;
        [apply base_entry_range; exact Hb|].
      destruct (Z.to_nat j <? 512)%nat;
        [apply base_entry_range; exact Hb|lia]. }
    pose proof (HP X ltac:(lia)) as HA.
    pose proof (HP (X + 1) ltac:(lia)) as HB.
    simpl in Hin.
    repeat (destruct Hin as [<-|Hin]); try contradiction; lia.
Qed.

Lemma PerlinNoise_reads_inside_table_witness :
  shuffled Samples.reversed_table
  /\ forall (x z : Q) (i : Z),
       In i (PerlinNoise_lookups Samples.fresh_terrain_exact x z) ->
       0 <= i < 512.
Proof.
  assert (H : shuffled Samples.reversed_table).
  { split; [reflexivity|].
    intros v Hin. vm_compute in Hin.
    repeat (destruct Hin as [<-|Hin]; [lia|]). contradiction. }
  split; [exact H|].
  exact (proj2 (proj2
           (@PerlinNoise_reads_inside_table Q _ (of_Z 512) (of_Z 0)
              (of_Z 150) Samples.reversed_table H))).
Defined.

End PermutationFacts.

Module GeoFacts.
Import QT Geo GeoSpec LoopFacts.

(** *** Loops that push to the back of a vector *)

Lemma push_loop {A : Type} (f : nat -> list A) (n : nat) (l : list A) :
  for_range n (fun i l => l ++ f i) l = l ++ flat_map f (seq 0 n).
Proof.
  induction n as [|n IH]; [simpl; now rewrite app_nil_r|].
  rewrite for_range_S, IH, seq_S, flat_map_app. simpl.
  now rewrite app_nil_r, app_assoc.
Qed.

Lemma push_rows {A : Type} (f : nat -> nat -> list A) (w h : nat)
  (l : list A) :
  for_range h (fun z => for_range w (fun x l => l ++ f x z)) l
  = l ++ flat_map (fun z => flat_map (fun x => f x z) (seq 0 w)) (seq 0 h).
Proof.
  induction h as [|h IH]; [simpl; now rewrite app_nil_r|].
  rewrite for_range_S, IH, push_loop, seq_S, flat_map_app. simpl.
  now rewrite app_nil_r, app_assoc.
Qed.

Lemma length_flat_map_const {A B : Type} (f : A -> list B) (c : nat)
  (l : list A) :
  (forall a, In a l -> List.length (f a) = c) ->
  List.length (flat_map f l) = (List.length l * c)%nat.
Proof.
  induction l as [|a l IH]; intros Hc; [reflexivity|].
  simpl. rewrite length_app.
  rewrite Hc by (left; reflexivity).
  rewrite IH by (intros; apply Hc; right; assumption). reflexivity.
Qed.

Lemma length_rows_const {A : Type} (f : nat -> nat -> list A)
  (c w h : nat) :
  (forall x z, List.length (f x z) = c) ->
  List.length
    (flat_map (fun z => flat_map (fun x => f x z) (seq 0 w)) (seq 0 h))
  = (h * (w * c))%nat.
Proof.
  intros Hc.
  rewrite (@length_flat_map_const _ _ _ (w * c)%nat).
  - now rewrite length_seq.
  - intros z _. rewrite (@length_flat_map_const _ _ _ c).
    + now rewrite length_seq.
    + intros x _. apply Hc.
Qed.

Lemma In_rows {A : Type} (f : nat -> nat -> list A) (w h : nat) (a : A) :
  In a (flat_map (fun z => flat_map (fun x => f x z) (seq 0 w)) (seq 0 h))
  -> exists x z, (x < w)%nat /\ (z < h)%nat /\ In a (f x z).
Proof.
  intros Hin. apply in_flat_map in Hin. destruct Hin as (z & Hz & Hin).
  apply in_flat_map in Hin. destruct Hin as (x & Hx & Hin).
  apply in_seq in Hz. apply in_seq in Hx.
  exists x, z. repeat split; try lia. exact Hin.
Qed.

(** *** One level *)

Lemma cell_indices_range (vtxStart g : Z) (x z : nat) (i : Z) :
  0 <= vtxStart -> 0 < g ->
  vtxStart + (g + 1) * (g + 1) < 2 ^ 32 ->
  Z.of_nat x < g -> Z.of_nat z < g ->
  In i (cell_indices vtxStart (Int.wrap_uint (g + 1)) x z) ->
  vtxStart <= i < vtxStart + (g + 1) * (g + 1).
Proof.
  intros Hv Hg Hfit Hx Hz Hin. unfold cell_indices in Hin.
  assert (Hrow : Z.of_nat z * (g + 1) + Z.of_nat x + g + 2
                 <= (g + 1) * (g + 1)) by nia.
  assert (Hpos : 0 <= Z.of_nat z * (g + 1)) by nia.
  rewrite (IntFacts.wrap_uint_small (n := g + 1)) in Hin by nia.
  rewrite (IntFacts.wrap_uint_small (n := Z.of_nat z * (g + 1))) in Hin
    by nia.
  rewrite (IntFacts.wrap_uint_small (n := Z.of_nat z + 1)) in Hin by nia.
  rewrite (IntFacts.wrap_uint_small (n := (Z.of_nat z + 1) * (g + 1)))
    in Hin by nia.
  rewrite (IntFacts.wrap_uint_small
             (n := vtxStart + Z.of_nat z * (g + 1))) in Hin by nia.
  rewrite (IntFacts.wrap_uint_small
             (n := vtxStart + (Z.of_nat z + 1) * (g + 1))) in Hin by nia.
  rewrite (IntFacts.wrap_uint_small
             (n := vtxStart + Z.of_nat z * (g + 1) + Z.of_nat x)) in Hin
    by nia.
  rewrite (IntFacts.wrap_uint_small
             (n := vtxStart + (Z.of_nat z + 1) * (g + 1) + Z.of_nat x))
    in Hin by nia.
  rewrite !IntFacts.wrap_uint_small in Hin by nia.
  simpl in Hin.
  repeat (destruct Hin as [<-|Hin]; [nia|]). contradiction.
Qed.

Lemma build_lod_spec {F : Type} {SF : Scalar F} (lod : nat)
  (verts : list (TerrainVertex F)) (inds : list Z) (args : SubmeshMap) :
  let g := nth lod kGrid 0 in
  0 < g ->
  Z.of_nat (List.length verts) + (g + 1) * (g + 1) < 2 ^ 32 ->
  Z.of_nat (List.length inds) + g * g * 6 < 2 ^ 32 ->
  exists newv newi,
    build_lod lod (verts, inds, args)
    = (verts ++ newv, inds ++ newi,
       map_assign (GetLODMeshName (Z.of_nat lod))
         (mkSubmesh (g * g * 6) (Z.of_nat (List.length inds)) 0) args)
    /\ Z.of_nat (List.length newv) = (g + 1) * (g + 1)
    /\ Z.of_nat (List.length newi) = g * g * 6
    /\ forall i, In i newi ->
                 Z.of_nat (List.length verts) <= i
                 < Z.of_nat (List.length verts) + (g + 1) * (g + 1).
Proof.
  intros g Hg Hv Hi. unfold build_lod. fold g.
  rewrite !push_rows.
  rewrite (IntFacts.wrap_uint_small (n := Z.of_nat (List.length verts)))
    by nia.
  rewrite (IntFacts.wrap_uint_small (n := Z.of_nat (List.length inds)))
    by nia.
  rewrite (IntFacts.wrap_uint_small (n := g * g)) by nia.
  rewrite (IntFacts.wrap_uint_small (n := g * g * 6)) by nia.
  eexists. eexists. split; [reflexivity|]. split; [|split].
  - rewrite (@length_rows_const _ _ 1%nat) by reflexivity. nia.
  - rewrite (@length_rows_const _ _ 6%nat) by reflexivity. nia.
  - intros i Hin. apply In_rows in Hin.
    destruct Hin as (x & z & Hx & Hz & Hin).
    apply (@cell_indices_range (Z.of_nat (List.length verts)) g x z i);
      try lia; exact Hin.
Qed.

Lemma kGrid_facts (n : nat) :
  (n < 5)%nat ->
  let g := nth n kGrid 0 in
  0 < g
  /\ vertices_before (S n) = vertices_before n + (g + 1) * (g + 1)
  /\ indices_before (S n) = indices_before n + g * g * 6
  /\ 0 <= vertices_before n /\ vertices_before (S n) < 2 ^ 32
  /\ 0 <= indices_before n /\ indices_before (S n) < 2 ^ 32.
Proof.
  intros Hn. destruct n as [|[|[|[|[|n]]]]]; try lia;
    vm_compute; repeat split; congruence.
Qed.

Lemma names_differ (lod n : nat) :
  (lod < n)%nat -> (n < 5)%nat ->
  String.eqb (GetLODMeshName (Z.of_nat lod)) (GetLODMeshName (Z.of_nat n))
  = false.
Proof.
  intros H1 H2.
  destruct n as [|[|[|[|[|n]]]]]; try lia;
    destruct lod as [|[|[|[|lod]]]]; try lia; reflexivity.
Qed.

Lemma lods_built_step {F : Type} {SF : Scalar F} (n : nat)
  (s : list (TerrainVertex F) * list Z * SubmeshMap) :
  (n < 5)%nat -> lods_built n s -> lods_built (S n) (build_lod n s).
Proof.
  intros Hn. destruct s as [[verts inds] args].
  unfold lods_built at 1. intros (Hv & Hi & Hall).
  destruct (kGrid_facts Hn) as (Hg & Ev & Ei & V0 & V1 & I0 & I1).
  cbv zeta in Hg, Ev, Ei.
  destruct (@build_lod_spec F SF n verts inds args Hg ltac:(lia)
              ltac:(lia)) as (newv & newi & -> & Lv & Li & Hnew).
  unfold lods_built. rewrite !length_app, !Nat2Z.inj_add.
  split; [lia|]. split; [lia|].
  intros lod Hlod.
  destruct (Nat.eq_dec lod n) as [->|Hne].
  - split.
    + unfold map_assign. rewrite String.eqb_refl. now rewrite Hi.
    + intros k Hk.
      rewrite app_nth2 by lia.
      assert (Hin : In (nth (Z.to_nat k - List.length inds) newi 0) newi)
        by (apply nth_In; lia).
      specialize (Hnew _ Hin). lia.
  - assert (Hlt : (lod < n)%nat) by lia.
    destruct (Hall lod Hlt) as [Ha Hk].
    destruct (kGrid_facts (n := lod) ltac:(lia))
      as (Hg' & _ & Ei' & _ & _ & I0' & _).
    cbv zeta in Hg', Ei'.
    assert (Hmono : indices_before (S lod) <= indices_before n).
    { clear - Hlt Hn.
      destruct n as [|[|[|[|[|n]]]]]; try lia;
        destruct lod as [|[|[|[|lod]]]]; try lia;
        vm_compute; congruence. }
    split.
    + unfold map_assign. rewrite names_differ by lia. exact Ha.
    + intros k Hkr. rewrite app_nth1 by lia. apply Hk. exact Hkr.
Qed.

Lemma lods_built_all {F : Type} {SF : Scalar F} (n : nat) :
  (n <= 5)%nat ->
  lods_built n
    (for_range n build_lod
       (@nil (TerrainVertex F), @nil Z, map_empty)).
Proof.
  induction n as [|n IH]; intros Hn.
  - simpl. repeat split; intros; lia.
  - rewrite for_range_S. apply lods_built_step; [lia|]. apply IH. lia.
Qed.

Lemma BuildGeometry_built {F : Type} {SF : Scalar F} :
  let geo := @BuildGeometry F SF in
  lods_built 5 (Vertices geo, Indices geo, DrawArgs geo).
Proof.
  intros geo. subst geo. unfold BuildGeometry.
  pose proof (@lods_built_all F SF 5 ltac:(lia)) as H.
  destruct (for_range 5 build_lod _) as [[verts inds] args].
  exact H.
Qed.

(** X18.  [BuildGeometry] puts the five grids (256, 128, 64, 32 and 16 cells a
    side) one after the other into one vertex and one index vector:
    88293 vertices and 523776 indices, with the byte sizes to match;
    [DrawArgs] holds, for each level, the submesh with [6 * grid^2]
    indices starting where the indices of the finer levels end and
    with base vertex 0; and every index of a level refers to a vertex
    of that level's own grid.  This holds for every interpretation of
    [float]. *)
Theorem BuildGeometry_submeshes {F : Type} {SF : Scalar F} :
  let geo := @BuildGeometry F SF in
  Z.of_nat (List.length (Vertices geo)) = 88293
  /\ Z.of_nat (List.length (Indices geo)) = 523776
  /\ VertexByteStride geo = 32
  /\ VertexBufferByteSize geo = 88293 * 32
  /\ IndexBufferByteSize geo = 523776 * 4
  /\ forall lod : nat,
       (lod < 5)%nat ->
       let g := nth lod kGrid 0 in
       DrawArgs geo (GetLODMeshName (Z.of_nat lod))
       = Some (mkSubmesh (g * g * 6) (indices_before lod) 0)
       /\ forall k,
            indices_before lod <= k < indices_before lod + g * g * 6 ->
            vertices_before lod <= nth (Z.to_nat k) (Indices geo) 0
            < vertices_before lod + (g + 1) * (g + 1).
Proof.
  intros geo.
  pose proof (@BuildGeometry_built F SF) as H. cbv zeta in H. fold geo in H.
  destruct H as (Hv & Hi & Hall).
  change (vertices_before 5) with 88293 in Hv.
  change (indices_before 5) with 523776 in Hi.
  assert (Hvb : VertexBufferByteSize geo
                = Int.wrap_uint
                    (Int.wrap_uint (Z.of_nat (List.length (Vertices geo)))
                     * sizeof_TerrainVertex)).
  { subst geo. unfold BuildGeometry.
    destruct (for_range 5 build_lod _) as [[verts inds] args].
    reflexivity. }
  assert (Hib : IndexBufferByteSize geo
                = Int.wrap_uint
                    (Int.wrap_uint (Z.of_nat (List.length (Indices geo)))
                     * sizeof_uint32)).
  { subst geo. unfold BuildGeometry.
    destruct (for_range 5 build_lod _) as [[verts inds] args].
    reflexivity. }
  assert (Hst : VertexByteStride geo = 32).
  { subst geo. unfold BuildGeometry.
    destruct (for_range 5 build_lod _) as [[verts inds] args].
    reflexivity. }
  rewrite Hvb, Hib, Hst, Hv, Hi.
  repeat split; try reflexivity; apply Hall; assumption.
Qed.

(** *** The draw loop *)

Lemma GetLODMeshName_effective {F : Type} {SF : Scalar F}
  (node : TerrainNode F) :
  GetLODMeshName (mesh_level node)
  = GetLODMeshName (Z.of_nat (effective_level node)).
Proof.
  unfold mesh_level, effective_level.
  destruct (Z.ltb_spec (LODLevel node) 4) as [H4|H4].
  - destruct (Z.ltb_spec (LODLevel node) 0) as [H0|H0].
    + replace (Z.max 0 (Z.min (LODLevel node) 4)) with 0 by lia.
      unfold GetLODMeshName.
      destruct (Z.ltb_spec (LODLevel node) 0); [|lia]. reflexivity.
    + replace (Z.max 0 (Z.min (LODLevel node) 4)) with (LODLevel node)
        by lia.
      now rewrite Z2Nat.id by lia.
  - replace (Z.max 0 (Z.min (LODLevel node) 4)) with 4 by lia.
    reflexivity.
Qed.

Lemma effective_level_range {F : Type} (node : TerrainNode F) :
  (effective_level node < 5)%nat.
Proof. unfold effective_level. lia. Qed.

(** X20.  For every list of nodes, whatever their [LODLevel] holds, the draw
    loop over the geometry of [BuildGeometry] issues one call per node,
    bound to the constant-buffer slot of the node's position in the
    list; the call draws the submesh of level [LODLevel] clamped to
    0..4, a key [DrawArgs] holds; it reads indices inside the index
    vector only, and every index it reads is a vertex of the vertex
    vector. *)
Theorem DrawTerrainNodes_in_bounds {F : Type} {SF : Scalar F}
  (objCBByteSize : Z) (mDrawNodes : list (TerrainNode F)) :
  let geo := @BuildGeometry F SF in
  let calls := DrawTerrainNodes geo objCBByteSize mDrawNodes in
  calls
  = map (fun inode =>
           let lod := effective_level (snd inode) in
           let g := nth lod kGrid 0 in
           mkDrawCall (Z.of_nat (fst inode) * objCBByteSize) (g * g * 6)
             (indices_before lod) 0)
        (combine (seq 0 (List.length mDrawNodes)) mDrawNodes)
  /\ Forall (draw_in_bounds geo) calls.
Proof.
  intros geo calls.
  pose proof (@BuildGeometry_built F SF) as Hb. cbv zeta in Hb. fold geo in Hb.
  destruct Hb as (Hv & Hi & Hall).
  assert (Hcalls :
            calls
            = map (fun inode =>
                     let lod := effective_level (snd inode) in
                     let g := nth lod kGrid 0 in
                     mkDrawCall (Z.of_nat (fst inode) * objCBByteSize)
                       (g * g * 6) (indices_before lod) 0)
                (combine (seq 0 (List.length mDrawNodes)) mDrawNodes)).
  { subst calls. unfold DrawTerrainNodes. apply map_ext.
    intros [i node]. cbn [fst snd]. cbv zeta.
    rewrite GetLODMeshName_effective. unfold map_index.
    destruct (Hall _ (effective_level_range node)) as [-> _].
    reflexivity. }
  split; [exact Hcalls|].
  rewrite Hcalls. apply Forall_forall. intros d Hin.
  apply in_map_iff in Hin. destruct Hin as ([i node] & <- & _).
  cbn [fst snd]. cbv zeta.
  pose proof (effective_level_range node) as Hr.
  destruct (Hall _ Hr) as [_ Hk].
  destruct (kGrid_facts Hr) as (Hg & Ev & Ei & V0 & V1 & I0 & I1).
  cbv zeta in Hg, Ev, Ei, Hk.
  set (lod := effective_level node) in *.
  set (g := nth lod kGrid 0) in *.
  assert (Htop : indices_before (S lod) <= 523776
                 /\ vertices_before (S lod) <= 88293).
  { clearbody lod. clear - Hr.
    destruct lod as [|[|[|[|[|lod]]]]]; try lia;
      vm_compute; split; congruence. }
  change (vertices_before 5) with 88293 in Hv.
  change (indices_before 5) with 523776 in Hi.
  unfold draw_in_bounds.
  cbn [drawStartIndex drawIndexCount drawBaseVertex].
  split; [lia|]. split; [lia|].
  intros k Hkr. specialize (Hk k Hkr). lia.
Qed.

End GeoFacts.

Module FrustumFacts.
Import QT QTSpec QTExactSpec QTExactFacts App AppSpec.
Local Open Scope Q_scope.

Lemma point_below_positive_vertex (b : BoundingBoxAABB Q)
  (pl : XMFLOAT4 Q) (p : XMFLOAT3 Q) :
  point_in_box p b ->
  plane_distance pl p <= plane_distance pl (positive_vertex b pl).
Proof.
  intros (X0 & X1 & Y0 & Y1 & Z0 & Z1).
  unfold plane_distance, positive_vertex.
  cbn [fadd fsub fmul fle of_Z exactQ f3x f3y f3z].
  pose proof (@axis_term_le (f4x pl) _ _ (f3x p) (conj X0 X1)) as Tx.
  pose proof (@axis_term_le (f4y pl) _ _ (f3y p) (conj Y0 Y1)) as Ty.
  pose proof (@axis_term_le (f4z pl) _ _ (f3z p) (conj Z0 Z1)) as Tz.
  lra.
Qed.

Lemma visible_point_keeps_box (b : BoundingBoxAABB Q) (planes : Frustum)
  (p : XMFLOAT3 Q) :
  point_in_box p b ->
  (forall i, (i < 6)%nat -> 0 <= plane_distance (planes i) p) ->
  Intersects b planes = true.
Proof.
  intros Hin Hp.
  destruct (Intersects b planes) eqn:E; [reflexivity|exfalso].
  apply Intersects_false_iff in E. destruct E as (i & Hi & Hd).
  pose proof (@point_below_positive_vertex b (planes i) p Hin).
  specialize (Hp i Hi). lra.
Qed.

(** X2.  In exact arithmetic, [Intersects] never rejects a box that holds a
    point on the non-negative side of all six planes: culling by it
    loses nothing that is inside the planes. *)
Theorem Intersects_keeps_box_with_visible_point (b : BoundingBoxAABB Q)
  (planes : Frustum) (p : XMFLOAT3 Q) :
  point_in_box p b ->
  (forall i, (i < 6)%nat -> 0 <= plane_distance (planes i) p) ->
  Intersects b planes = true.
Proof.
  intros Hin Hp.
  destruct (Intersects b planes) eqn:E; [reflexivity|exfalso].
  apply Intersects_false_iff in E. destruct E as (i & Hi & Hd).
  pose proof (@point_below_positive_vertex b (planes i) p Hin) as Hle.
  specialize (Hp i Hi).
  apply (Qlt_irrefl 0).
  eapply Qle_lt_trans; [exact Hp|].
  eapply Qle_lt_trans; [exact Hle|exact Hd].
Qed.

Lemma Intersects_keeps_box_with_visible_point_witness :
  Intersects (mkAABB (mkFloat3 0 50 0) (mkFloat3 256 60 256))
    (fun _ => mkFloat4 1 0 0 (-(100))) = true.
Proof.
  apply (@Intersects_keeps_box_with_visible_point
           (mkAABB (mkFloat3 0 50 0) (mkFloat3 256 60 256))
           (fun _ => mkFloat4 1 0 0 (-(100))) (mkFloat3 200 0 0)).
  - unfold point_in_box. simpl. repeat split; discriminate.
  - intros i _. vm_compute. discriminate.
Defined.

(** *** The planes of [ExtractFrustumPlanes] *)

Lemma scaled_distance (normalize : XMFLOAT4 Q -> XMFLOAT4 Q)
  (pl : XMFLOAT4 Q) (p : XMFLOAT3 Q) :
  positive_scaling normalize ->
  (0 <= plane_distance (normalize pl) p <-> 0 <= plane_distance pl p).
Proof.
  intros Hn. destruct (Hn pl) as (s & Hs & Ex & Ey & Ez & Ew).
  unfold plane_distance. cbn [fadd fmul exactQ].
  rewrite Ex, Ey, Ez, Ew.
  set (d := f4x pl * f3x p + f4y pl * f3y p + f4z pl * f3z p + f4w pl).
  assert (E : s * f4x pl * f3x p + s * f4y pl * f3y p
              + s * f4z pl * f3z p + s * f4w pl == s * d)
    by (subst d; ring).
  rewrite E. split; intros H.
  - destruct (Qlt_le_dec d 0) as [Hneg|Hpos]; [exfalso|exact Hpos].
    assert (P : 0 < s * (- d)) by (apply Qmult_lt_0_compat; lra).
    assert (E2 : s * (- d) == - (s * d)) by ring.
    lra.
  - apply Qmult_le_0_compat; lra.
Qed.

Lemma raw_plane_distances (M : XMFLOAT4X4 Q) (p : XMFLOAT3 Q) :
  plane_distance (plane_coefficients M 0) p == clip_w M p + clip_x M p
  /\ plane_distance (plane_coefficients M 1) p == clip_w M p - clip_x M p
  /\ plane_distance (plane_coefficients M 2) p == clip_w M p + clip_y M p
  /\ plane_distance (plane_coefficients M 3) p == clip_w M p - clip_y M p
  /\ plane_distance (plane_coefficients M 4) p == clip_z M p
  /\ plane_distance (plane_coefficients M 5) p == clip_w M p - clip_z M p.
Proof.
  unfold plane_distance, plane_coefficients, clip_x, clip_y, clip_z,
    clip_w.
  cbn [fadd fsub fmul exactQ f4x f4y f4z f4w].
  repeat split; ring.
Qed.

(** X21.  In exact arithmetic, and for an [XMPlaneNormalize] that scales by a
    positive factor: a point is on the non-negative side of all six
    planes [ExtractFrustumPlanes] derives from a matrix exactly when
    its clip coordinates under that matrix lie in the clip volume
    [-w <= x <= w], [-w <= y <= w], [0 <= z <= w]; hence a box that
    holds such a point passes [Intersects] with these planes. *)
Theorem ExtractFrustumPlanes_bound_clip_volume
  (XMPlaneNormalize : XMFLOAT4 Q -> XMFLOAT4 Q) (viewProj : XMFLOAT4X4 Q)
  (p : XMFLOAT3 Q) :
  positive_scaling XMPlaneNormalize ->
  let planes := ExtractFrustumPlanes XMPlaneNormalize viewProj in
  ((forall i, (i < 6)%nat -> 0 <= plane_distance (planes i) p)
   <-> in_clip_volume viewProj p)
  /\ forall b : BoundingBoxAABB Q,
       point_in_box p b -> in_clip_volume viewProj p ->
       Intersects b planes = true.
Proof.
  intros Hn planes.
  destruct (raw_plane_distances viewProj p)
    as (E0 & E1 & E2 & E3 & E4 & E5).
  assert (Hiff : (forall i, (i < 6)%nat -> 0 <= plane_distance (planes i) p)
                 <-> in_clip_volume viewProj p).
  { subst planes. unfold ExtractFrustumPlanes, in_clip_volume. split.
    - intros H.
      pose proof (proj1 (scaled_distance _ p Hn) (H 0%nat ltac:(lia))) as H0.
      pose proof (proj1 (scaled_distance _ p Hn) (H 1%nat ltac:(lia))) as H1.
      pose proof (proj1 (scaled_distance _ p Hn) (H 2%nat ltac:(lia))) as H2.
      pose proof (proj1 (scaled_distance _ p Hn) (H 3%nat ltac:(lia))) as H3.
      pose proof (proj1 (scaled_distance _ p Hn) (H 4%nat ltac:(lia))) as H4.
      pose proof (proj1 (scaled_distance _ p Hn) (H 5%nat ltac:(lia))) as H5.
      rewrite E0 in H0. rewrite E1 in H1. rewrite E2 in H2.
      rewrite E3 in H3. rewrite E4 in H4. rewrite E5 in H5.
      repeat split; lra.
    - intros (A & B & C & D & E & G) i Hi.
      apply (scaled_distance _ p Hn).
      destruct i as [|[|[|[|[|[|i]]]]]]; try lia.
      + rewrite E0. lra.
      + rewrite E1. lra.
      + rewrite E2. lra.
      + rewrite E3. lra.
      + rewrite E4. lra.
      + rewrite E5. lra. }
  split; [exact Hiff|].
  intros b Hin Hclip.
  apply (@visible_point_keeps_box b planes p Hin).
  apply Hiff. exact Hclip.
Qed.

Lemma ExtractFrustumPlanes_bound_clip_volume_witness :
  positive_scaling doubled
  /\ Intersects (mkAABB (mkFloat3 0 0 5) (mkFloat3 1 1 1))
       (ExtractFrustumPlanes doubled sample_matrix) = true.
Proof.
  assert (H : positive_scaling doubled).
  { intros pl. exists 2. split; [reflexivity|].
    unfold doubled. simpl. repeat split; reflexivity. }
  split; [exact H|].
  apply (proj2 (@ExtractFrustumPlanes_bound_clip_volume doubled
                  sample_matrix (mkFloat3 0 0 5) H)).
  - unfold point_in_box. simpl. repeat split; discriminate.
  - unfold in_clip_volume. vm_compute. repeat split; discriminate.
Defined.

End FrustumFacts.

Module AppFrameFacts.
Import QT QTSpec QTMoreSpec QTFacts QTMoreFacts App AppFrame AppFrameSpec.

Section Generic.
Context {F : Type} {SF : Scalar F} {SQ : ScalarSqrt F}.

Lemma width_skeleton (node : NodePtr F) :
  width (skeleton node) = width node.
Proof.
  induction node as [|d c0 IH0 c1 IH1 c2 IH2 c3 IH3]; [reflexivity|].
  simpl. now rewrite IH0, IH1, IH2, IH3.
Qed.

Lemma collected_le_width (node : NodePtr F) :
  forall here,
    (length (CollectVisibleNodes node here) <= width node)%nat.
Proof.
  induction node as [|d c0 IH0 c1 IH1 c2 IH2 c3 IH3]; intros here.
  - simpl. lia.
  - cbn [CollectVisibleNodes width].
    destruct (IsVisible d); [cbn [length]; lia|].
    destruct (IsLeaf d); [cbn [length]; lia|].
    rewrite !length_app.
    specialize (IH0 (here ++ [0%nat])).
    specialize (IH1 (here ++ [1%nat])).
    specialize (IH2 (here ++ [2%nat])).
    specialize (IH3 (here ++ [3%nat])).
    unfold Handle in *. lia.
Qed.

Lemma BuildTree_width (M : F) (D : Z) :
  forall fuel x z size depth total t total',
    BuildTree fuel M D x z size depth total = Some (t, total') ->
    Z.of_nat (width t) <= 4 ^ (Z.max 1 (D - depth) - 1).
Proof.
  induction fuel as [|fuel IH];
    intros x z size depth total t total' Hb; [discriminate|].
  cbn [BuildTree] in Hb.
  destruct (canSplit M D size depth) eqn:Hsplit; cbn [negb] in Hb.
  - unfold canSplit in Hsplit. apply andb_true_iff in Hsplit.
    destruct Hsplit as [_ Hdepth]. apply Z.ltb_lt in Hdepth.
    repeat match type of Hb with
           | obind (BuildTree fuel M D ?x ?z ?s ?d ?t) _ = _ =>
               let E := fresh "E" in
               destruct (BuildTree fuel M D x z s d t) as [[? ?]|] eqn:E;
               [apply IH in E; cbn [obind] in Hb|discriminate]
           end.
    inversion Hb; subst; clear Hb.
    cbn [width].
    replace (Z.max 1 (D - (depth + 1)) - 1) with (D - depth - 2) in *
      by lia.
    replace (Z.max 1 (D - depth) - 1) with (Z.succ (D - depth - 2))
      by lia.
    rewrite Z.pow_succ_r by lia.
    assert (0 < 4 ^ (D - depth - 2)) by (apply Z.pow_pos_nonneg; lia).
    lia.
  - inversion Hb; subst; clear Hb. simpl.
    assert (0 < 4 ^ (Z.max 1 (D - depth) - 1))
      by (apply Z.pow_pos_nonneg; lia).
    lia.
Qed.

Variable XMPlaneNormalize : XMFLOAT4 F -> XMFLOAT4 F.

Lemma run_frames_skeleton (terrainSize : F) frames :
  forall s,
    skeleton (mRoot (mQuadTree
                       (run_frames XMPlaneNormalize terrainSize frames s)))
    = skeleton (mRoot (mQuadTree s)).
Proof.
  unfold run_frames.
  induction frames as [|f frames IH]; intros s; [reflexivity|].
  cbn [fold_left]. rewrite IH.
  unfold TerrainApp_Update. cbn [mQuadTree].
  apply Update_skeleton.
Qed.

Lemma pointees_collected (node : NodePtr F) :
  length (pointees node (CollectVisibleNodes node []))
  = length (CollectVisibleNodes node []).
Proof.
  assert (H : forall hs,
             (forall h, In h hs -> exists d, node_at node h = Some d) ->
             length (pointees node hs) = length hs).
  { induction hs as [|h hs IH]; intros Hall; [reflexivity|].
    unfold pointees in *. cbn [flat_map]. rewrite length_app.
    destruct (Hall h ltac:(now left)) as (d & ->).
    rewrite IH by (intros; apply Hall; now right). reflexivity. }
  apply H. intros h Hin.
  destruct (collected_designates_visible _ _ Hin) as [(d & Hd & _) _].
  eauto.
Qed.

Lemma UpdatePerObjectCB_slots (terrainSize : F)
  (nodes : list (TerrainNode F)) :
  Z.of_nat (length nodes) <= Int.int_max ->
  map fst (UpdatePerObjectCB terrainSize nodes)
  = iota 0 (length nodes).
Proof.
  intros Hfit. unfold UpdatePerObjectCB, iota.
  rewrite map_map. cbn [fst].
  assert (H : forall (l : list (TerrainNode F)) k,
             Z.of_nat (k + length l) <= Int.int_max ->
             map (fun inode : nat * TerrainNode F =>
                    Int.wrap_int (Z.of_nat (fst inode)))
               (combine (seq k (length l)) l)
             = map Z.of_nat (seq k (length l))).
  { induction l as [|a l IH]; intros k Hk; [reflexivity|].
    cbn [length seq combine map fst]. cbn [length] in Hk.
    rewrite IH by lia. f_equal.
    apply IntFacts.wrap_int_small.
    unfold Int.int_min, Int.int_max in *. lia. }
  rewrite H by (simpl; lia).
  apply map_ext. intros k. lia.
Qed.

(** X22.  In a tree built by [Initialize] with at most five levels, after
    any run of frames every further frame lists at most 256 nodes,
    however the visibility flags of earlier frames were left: the
    slots [UpdatePerObjectCB] writes are 0, 1, 2, ... in list order,
    all below [maxObjects], each written level is at most 4, and
    [mIsTerrainVisible] tells whether the list is non-empty. *)
Theorem frames_fit_object_buffer (terrainSize minNodeSize : F)
  (maxLODLevels : Z) (q0 q : QuadTree F) (appTerrainSize : F)
  (s0 : AppState F) (frames : list (XMFLOAT3 F * XMFLOAT4X4 F))
  (eye : XMFLOAT3 F) (viewProj : XMFLOAT4X4 F) :
  Initialize terrainSize minNodeSize maxLODLevels q0 = Some q ->
  maxLODLevels <= 5 ->
  mQuadTree s0 = q ->
  let s :=
    TerrainApp_Update XMPlaneNormalize appTerrainSize eye viewProj
      (run_frames XMPlaneNormalize appTerrainSize frames s0) in
  Z.of_nat (length (mDrawNodes s)) <= maxObjects
  /\ map fst (objectWrites s) = iota 0 (length (mDrawNodes s))
  /\ (forall slot obj,
        In (slot, obj) (objectWrites s) ->
        0 <= slot < maxObjects /\ objLODLevel obj <= 4)
  /\ (mIsTerrainVisible s = true <-> mDrawNodes s <> []).
Proof.
  intros Hi HD Hs0 s.
  set (s1 := run_frames XMPlaneNormalize appTerrainSize frames s0) in *.
  assert (Hw : Z.of_nat (width (mRoot (mQuadTree s))) <= 256).
  { rewrite <- width_skeleton. subst s. unfold TerrainApp_Update.
    cbn [mQuadTree]. rewrite Update_skeleton. subst s1.
    rewrite run_frames_skeleton, Hs0, width_skeleton.
    unfold Initialize in Hi.
    destruct (match mLODDistances q0 with
              | [] => if maxLODLevels <? 0 then None
                      else Some (default_LODDistances minNodeSize
                                   maxLODLevels)
              | _ :: _ => Some (mLODDistances q0)
              end) as [dists|]; [|discriminate].
    cbn [obind] in Hi.
    destruct (BuildTree (S (Z.to_nat (maxLODLevels - 1))) minNodeSize
                maxLODLevels (of_Z 0) (of_Z 0) terrainSize 0 0)
      as [[root total]|] eqn:Eb; [|discriminate].
    cbn [obind] in Hi. inversion Hi; subst q; clear Hi.
    apply BuildTree_width in Eb. cbn [mRoot].
    rewrite Z.sub_0_r in Eb.
    assert (4 ^ (Z.max 1 maxLODLevels - 1) <= 4 ^ 4)
      by (apply Z.pow_le_mono_r; lia).
    change (4 ^ 4) with 256 in *. lia. }
  assert (Hlist : mDrawNodes s = GetVisibleNodes (mQuadTree s))
    by reflexivity.
  assert (Hlen : Z.of_nat (length (mDrawNodes s)) <= 256).
  { rewrite Hlist. unfold GetVisibleNodes.
    pose proof (collected_le_width (mRoot (mQuadTree s)) []).
    unfold Handle in *. lia. }
  assert (Hwrites : objectWrites s
                    = UpdatePerObjectCB appTerrainSize
                        (pointees (mRoot (mQuadTree s)) (mDrawNodes s)))
    by reflexivity.
  assert (Hpt : length (pointees (mRoot (mQuadTree s)) (mDrawNodes s))
                = length (mDrawNodes s)).
  { rewrite Hlist. unfold GetVisibleNodes. apply pointees_collected. }
  assert (Hslots : map fst (objectWrites s)
                   = iota 0 (length (mDrawNodes s))).
  { rewrite Hwrites, UpdatePerObjectCB_slots; rewrite Hpt;
      [reflexivity|].
    unfold Int.int_max, Handle in *. lia. }
  split; [exact Hlen|]. split; [exact Hslots|]. split.
  - intros slot obj Hin. split.
    + assert (Hs : In slot (map fst (objectWrites s)))
        by (apply in_map_iff; exists (slot, obj); split;
            [reflexivity|exact Hin]).
      rewrite Hslots in Hs. unfold iota in Hs.
      apply in_map_iff in Hs. destruct Hs as (k & <- & Hk).
      apply in_seq in Hk. unfold maxObjects, Handle in *. lia.
    + rewrite Hwrites in Hin. unfold UpdatePerObjectCB in Hin.
      apply in_map_iff in Hin. destruct Hin as ([i node] & E & _).
      inversion E; subst. unfold object_constants.
      cbn [objLODLevel snd].
      destruct (Z.ltb_spec (LODLevel node) 4); lia.
  - subst s. unfold TerrainApp_Update.
    cbn [mIsTerrainVisible mDrawNodes].
    destruct (GetVisibleNodes _); split; intros H;
      try discriminate; try reflexivity; congruence.
Qed.

End Generic.

Lemma frames_fit_object_buffer_witness :
  exists q,
    application_like = Some q
    /\ let s :=
         TerrainApp_Update plane_as_is (of_Z 512) camera_above_centre
           wide_matrix
           (run_frames plane_as_is (of_Z 512)
              [(camera_east, wide_matrix)] (fresh_app q)) in
       Z.of_nat (length (mDrawNodes s)) <= maxObjects.
Proof.
  destruct application_like as [q|] eqn:E; [|vm_compute in E; discriminate].
  exists q. split; [reflexivity|].
  exact (proj1 (@frames_fit_object_buffer _ _ _ plane_as_is (of_Z 512)
                  (of_Z 64) 5 new_QuadTree q (of_Z 512) (fresh_app q)
                  [(camera_east, wide_matrix)] camera_above_centre
                  wide_matrix E ltac:(lia) eq_refl)).
Defined.

End AppFrameFacts.

Module TexWindowFacts.
Import QT QTSpec QTExactSpec QTExactFacts App AppFrame.
Local Open Scope Q_scope.

(** Every node [BuildTree] builds has a non-negative size and a box
    centred on the node, half the size wide. *)
Lemma BuildTree_node_bounds (M : Q) (D : Z) :
  forall fuel x z size depth total t total',
    0 <= size ->
    BuildTree fuel M D x z size depth total = Some (t, total') ->
    forall h n,
      node_at t h = Some n ->
      0 <= Size n
      /\ f3x (Center (Bounds n)) = nodeX n
      /\ f3z (Center (Bounds n)) = nodeZ n
      /\ f3x (Extents (Bounds n)) = Size n * (1 # 2)
      /\ f3z (Extents (Bounds n)) = Size n * (1 # 2).
Proof.
  induction fuel as [|fuel IH];
    intros x z size depth total t total' Hs Hb h n Hn; [discriminate|].
  cbn [BuildTree] in Hb.
  destruct (canSplit M D size depth); cbn [negb] in Hb.
  - assert (Hh : 0 <= size * (1 # 2)) by lra.
    cbn [fadd fsub fmul of_ratio exactQ] in Hb.
    repeat match type of Hb with
           | obind (BuildTree fuel M D ?x ?z ?s ?d ?t) _ = _ =>
               let E := fresh "E" in
               destruct (BuildTree fuel M D x z s d t) as [[? ?]|] eqn:E;
               [cbn [obind] in Hb|discriminate]
           end.
    inversion Hb; subst; clear Hb.
    destruct h as [|i h].
    + unfold node_at in Hn. simpl in Hn. inversion Hn; subst n.
      simpl. repeat split; try reflexivity. exact Hs.
    + unfold node_at in Hn. cbn [subtree_at] in Hn.
      destruct i as [|[|[|[|i]]]]; cbn [child] in Hn.
      * exact (IH _ _ _ _ _ _ _ Hh E h n Hn).
      * exact (IH _ _ _ _ _ _ _ Hh E0 h n Hn).
      * exact (IH _ _ _ _ _ _ _ Hh E1 h n Hn).
      * exact (IH _ _ _ _ _ _ _ Hh E2 h n Hn).
      * rewrite subtree_at_Null in Hn. discriminate.
  - inversion Hb; subst; clear Hb.
    destruct h as [|i h].
    + unfold node_at in Hn. simpl in Hn. inversion Hn; subst n.
      simpl. repeat split; try reflexivity. exact Hs.
    + unfold node_at in Hn. cbn [subtree_at] in Hn.
      destruct i as [|[|[|[|i]]]]; cbn [child] in Hn;
        rewrite subtree_at_Null in Hn; discriminate.
Qed.

Lemma footprint_in_root (terrainSize minNodeSize : Q) (maxLODLevels : Z)
  (q0 q : QuadTree Q) (h : Handle) (n : TerrainNode Q) :
  0 <= terrainSize ->
  Initialize terrainSize minNodeSize maxLODLevels q0 = Some q ->
  node_at (mRoot q) h = Some n ->
  0 <= Size n
  /\ - (terrainSize * (1 # 2)) <= nodeX n - Size n * (1 # 2)
  /\ nodeX n + Size n * (1 # 2) <= terrainSize * (1 # 2)
  /\ - (terrainSize * (1 # 2)) <= nodeZ n - Size n * (1 # 2)
  /\ nodeZ n + Size n * (1 # 2) <= terrainSize * (1 # 2).
Proof.
  intros Hs Hi Hn.
  destruct (Initialize_root _ _ _ _ Hi) as ((total & Hb) & _).
  pose proof (BuildTree_nested _ _ _ _ _ _ _ Hs Hb) as Hnest.
  destruct (BuildTree_root _ _ _ _ _ _ _ _ Hb)
    as (leaf & c0 & c1 & c2 & c3 & Hr).
  assert (Hroot : node_at (mRoot q) []
                  = Some (set_IsLeaf leaf
                            (built_node maxLODLevels (of_Z 0) (of_Z 0)
                               terrainSize 0)))
    by (rewrite Hr; reflexivity).
  pose proof (@nested_along_handles [] (mRoot q) h _ n Hnest Hroot Hn)
    as Hin.
  destruct (BuildTree_node_bounds _ _ _ _ _ _ _ Hs Hb h Hn)
    as (S0 & Cx & Cz & Ex & Ez).
  unfold box_inside in Hin. cbv zeta in Hin.
  rewrite Cx, Cz, Ex, Ez in Hin. simpl in Hin.
  change (inject_Z 0) with 0 in Hin.
  split; [exact S0|]. lra.
Qed.

(** X23.  In exact arithmetic, for a positive terrain size, the texture
    window [UpdatePerObjectCB] computes for a node with the position
    and size of a node of the tree [Initialize] built lies inside the
    unit square, and it maps the texture coordinate [u] of a mesh
    vertex to the normalised coordinate [x / terrainSize + 0.5] of the
    world position [x = (u - 0.5) * Size + X] the world transform
    gives that vertex. *)
Theorem UpdatePerObjectCB_texture_window
  (terrainSize minNodeSize : Q) (maxLODLevels : Z) (q0 q : QuadTree Q)
  (h : Handle) (built drawn : TerrainNode Q) :
  0 < terrainSize ->
  Initialize terrainSize minNodeSize maxLODLevels q0 = Some q ->
  node_at (mRoot q) h = Some built ->
  nodeX drawn = nodeX built -> nodeZ drawn = nodeZ built ->
  Size drawn = Size built ->
  let oc := object_constants terrainSize drawn in
  (0 <= texScale oc <= 1
   /\ 0 <= fst (texTranslation oc)
   /\ fst (texTranslation oc) + texScale oc <= 1
   /\ 0 <= snd (texTranslation oc)
   /\ snd (texTranslation oc) + texScale oc <= 1)
  /\ forall u : Q,
       u * texScale oc + fst (texTranslation oc)
       == ((u - (1 # 2)) * worldScale oc + fst (worldTranslation oc))
          / terrainSize + (1 # 2)
       /\ u * texScale oc + snd (texTranslation oc)
          == ((u - (1 # 2)) * worldScale oc + snd (worldTranslation oc))
             / terrainSize + (1 # 2).
Proof.
  intros HT Hi Hn EX EZ ES oc.
  destruct (@footprint_in_root terrainSize minNodeSize maxLODLevels q0 q
              h built ltac:(lra) Hi Hn) as (S0 & X0 & X1 & Z0 & Z1).
  subst oc. unfold object_constants.
  cbn [texScale texTranslation worldScale worldTranslation fst snd].
  cbn [fadd fsub fmul fdiv of_ratio exactQ].
  rewrite EX, EZ, ES.
  set (X := nodeX built) in *. set (Zc := nodeZ built) in *.
  set (S := Size built) in *.
  assert (Hne : ~ terrainSize == 0) by lra.
  assert (Hr : 0 < / terrainSize) by (apply Qinv_lt_0_compat; exact HT).
  assert (Hone : terrainSize * / terrainSize == 1)
    by (apply Qmult_inv_r; exact Hne).
  unfold Qdiv. set (r := / terrainSize) in *.
  assert (A0 : 0 <= S * r) by (apply Qmult_le_0_compat; lra).
  assert (A1 : 0 <= (terrainSize - S) * r).
  { apply Qmult_le_0_compat; [|lra]. lra. }
  assert (B0 : 0 <= (X - S * (1 # 2) + terrainSize * (1 # 2)) * r)
    by (apply Qmult_le_0_compat; lra).
  assert (B1 : 0 <= (terrainSize * (1 # 2) - (X + S * (1 # 2))) * r)
    by (apply Qmult_le_0_compat; lra).
  assert (C0 : 0 <= (Zc - S * (1 # 2) + terrainSize * (1 # 2)) * r)
    by (apply Qmult_le_0_compat; lra).
  assert (C1 : 0 <= (terrainSize * (1 # 2) - (Zc + S * (1 # 2))) * r)
    by (apply Qmult_le_0_compat; lra).
  assert (E1 : (terrainSize - S) * r == 1 - S * r)
    by (rewrite <- Hone; ring).
  assert (E2 : (X - S * (1 # 2) + terrainSize * (1 # 2)) * r
               == X * r + (1 # 2) - S * r * (1 # 2))
    by (transitivity (X * r - S * r * (1 # 2)
                      + (1 # 2) * (terrainSize * r));
        [ring|rewrite Hone; ring]).
  assert (E3 : (terrainSize * (1 # 2) - (X + S * (1 # 2))) * r
               == 1 - (X * r + (1 # 2) - S * r * (1 # 2) + S * r))
    by (transitivity ((1 # 2) * (terrainSize * r) - X * r
                      - S * r * (1 # 2));
        [ring|rewrite Hone; ring]).
  assert (E4 : (Zc - S * (1 # 2) + terrainSize * (1 # 2)) * r
               == Zc * r + (1 # 2) - S * r * (1 # 2))
    by (transitivity (Zc * r - S * r * (1 # 2)
                      + (1 # 2) * (terrainSize * r));
        [ring|rewrite Hone; ring]).
  assert (E5 : (terrainSize * (1 # 2) - (Zc + S * (1 # 2))) * r
               == 1 - (Zc * r + (1 # 2) - S * r * (1 # 2) + S * r))
    by (transitivity ((1 # 2) * (terrainSize * r) - Zc * r
                      - S * r * (1 # 2));
        [ring|rewrite Hone; ring]).
  split.
  - repeat split; lra.
  - intros u. split; ring.
Qed.

Lemma UpdatePerObjectCB_texture_window_witness :
  exists q n,
    Initialize 512 64 5 new_QuadTree = Some q
    /\ node_at (mRoot q) [1; 2]%nat = Some n
    /\ 0 <= fst (texTranslation (object_constants 512 n))
    /\ fst (texTranslation (object_constants 512 n))
       + texScale (object_constants 512 n) <= 1.
Proof.
  eexists. eexists.
  split; [vm_compute; reflexivity|].
  split; [vm_compute; reflexivity|].
  match goal with
  | |- context [object_constants 512 ?n] =>
      pose proof (@UpdatePerObjectCB_texture_window 512 64 5 new_QuadTree
                    _ [1; 2]%nat n n ltac:(reflexivity)
                    ltac:(vm_compute; reflexivity)
                    ltac:(vm_compute; reflexivity)
                    eq_refl eq_refl eq_refl) as H
  end.
  cbv zeta in H. destruct H as [(_ & H0 & H1 & _) _].
  split; [exact H0|exact H1].
Defined.

End TexWindowFacts.

Module AppInputFacts.
Import AppInput AppInputSpec.

Lemma last_cons {A : Type} (l : list A) :
  forall a d, last (a :: l) d = last l a.
Proof.
  induction l as [|b l IH]; intros a d; [reflexivity|].
  change (last (a :: b :: l) d) with (last (b :: l) d).
  now rewrite !IH.
Qed.

Section Generic.
Context {F : Type} {SF : Scalar F}.
Variable Camera : Type.
Variable Walk : F -> Camera -> Camera.
Variable Strafe : F -> Camera -> Camera.
Variable SetPosition : F -> F -> F -> Camera -> Camera.
Variable GetPosition3f : Camera -> XMFLOAT3 F.

Lemma HandleKeyboard_latch (dt : F) (keys : Keys) (c : Camera)
  (wire latch : bool) :
  let '(_, wire', latch') :=
    HandleKeyboard Walk Strafe SetPosition GetPosition3f dt keys
      (c, wire, latch) in
  wire' = xorb wire (key1 keys && negb latch)
  /\ latch' = key1 keys.
Proof.
  unfold HandleKeyboard.
  destruct (key1 keys), latch, wire; simpl; split; reflexivity.
Qed.

(** X25.  Over any run of frames, [HandleKeyboard] flips [mUseWireframe]
    once for each time key 1 goes from up to down, however long it is
    held, whatever the other keys and the camera do; afterwards the
    latch tells whether the key was down in the last frame. *)
Theorem wireframe_toggles_once_per_press
  (frames : list (F * Keys)) (c : Camera) (wire latch : bool) :
  let '(_, wire', latch') :=
    handle_frames Walk Strafe SetPosition GetPosition3f frames
      (c, wire, latch) in
  wire'
  = xorb wire
      (Nat.odd (presses latch (map (fun f => key1 (snd f)) frames)))
  /\ latch' = last (map (fun f => key1 (snd f)) frames) latch.
Proof.
  unfold handle_frames.
  revert c wire latch.
  induction frames as [|f frames IH]; intros c wire latch.
  - simpl. now rewrite xorb_false_r.
  - cbn [fold_left map presses].
    pose proof (HandleKeyboard_latch (fst f) (snd f) c wire latch) as H.
    destruct (HandleKeyboard Walk Strafe SetPosition GetPosition3f
                (fst f) (snd f) (c, wire, latch))
      as [[c1 wire1] latch1].
    destruct H as [-> ->].
    specialize (IH c1 (xorb wire (key1 (snd f) && negb latch))
                  (key1 (snd f))).
    destruct (fold_left _ frames _) as [[c2 wire2] latch2].
    destruct IH as [-> ->]. split.
    + destruct (key1 (snd f) && negb latch).
      * change (1 + ?n)%nat with (S n). rewrite Nat.odd_succ.
        rewrite <- Nat.negb_odd.
        destruct wire, (Nat.odd (presses (key1 (snd f))
                                   (map (fun f0 => key1 (snd f0))
                                      frames)));
          reflexivity.
      * rewrite xorb_false_r. reflexivity.
    + now rewrite last_cons.
Qed.

End Generic.

End AppInputFacts.

Module AppTextureFacts.
Import TR TRSpec TRMoreSpec SampleFacts ExactSampleFacts LoopFacts
  GenLoopFacts TerrainRangeFacts AppTexture.

(** [GetHeight] at the world position of a texel, in exact
    arithmetic. *)
Lemma GetHeight_of_texel (t : Terrain Q) (x z : Q) (i j : Z) (s : Q) :
  grid_consistent t ->
  mHeightmapWidth t <= Int.int_max -> mHeightmapHeight t <= Int.int_max ->
  0 <= i < mHeightmapWidth t -> 0 <= j < mHeightmapHeight t ->
  ((x / mTerrainSize t + (1 # 2)) * inject_Z (mHeightmapWidth t)
   == inject_Z i)%Q ->
  ((z / mTerrainSize t + (1 # 2)) * inject_Z (mHeightmapHeight t)
   == inject_Z j)%Q ->
  nth_error (mHeightmap t) (Z.to_nat (j * mHeightmapWidth t + i)) = Some s ->
  exists r,
    snd (GetHeight t x z) = Some r
    /\ (r == mMinHeight t + s * (mMaxHeight t - mMinHeight t))%Q.
Proof.
  intros Hc Hw Hh Hi Hj Hu Hv Hs.
  assert (Hne : mHeightmap t <> []).
  { intros He. rewrite He in Hs. destruct (Z.to_nat _); discriminate. }
  unfold GetHeight.
  destruct (mHeightmap t) as [|s0 g] eqn:Hg; [congruence|].
  clear Hne. assert (Hne : mHeightmap t <> []) by (rewrite Hg; discriminate).
  cbn [fsub fadd fmul fdiv of_ratio of_Z ffloor to_int exactQ].
  assert (Hfu : Qfloor ((x / mTerrainSize t + (1 # 2))
                        * inject_Z (mHeightmapWidth t)) = i)
    by (rewrite Hu; apply Qfloor_Z).
  assert (Hfv : Qfloor ((z / mTerrainSize t + (1 # 2))
                        * inject_Z (mHeightmapHeight t)) = j)
    by (rewrite Hv; apply Qfloor_Z).
  rewrite Hfu, Hfv.
  rewrite !to_int_inject_Z by (unfold Int.int_min, Int.int_max in *; lia).
  assert (H00 : snd (SampleHeight t i j) = Some s)
    by (rewrite SampleHeight_at_texel by assumption; rewrite Hg; exact Hs).
  destruct (SampleHeight_inside (Int.wrap_int (i + 1)) j Hc Hne)
    as [H10 _].
  destruct (snd (SampleHeight t (Int.wrap_int (i + 1)) j))
    as [h10|] eqn:E10; [clear H10|congruence].
  destruct (SampleHeight_inside i (Int.wrap_int (j + 1)) Hc Hne)
    as [H01 _].
  destruct (snd (SampleHeight t i (Int.wrap_int (j + 1))))
    as [h01|] eqn:E01; [clear H01|congruence].
  destruct (SampleHeight_inside (Int.wrap_int (i + 1))
              (Int.wrap_int (j + 1)) Hc Hne) as [H11 _].
  destruct (snd (SampleHeight t (Int.wrap_int (i + 1))
                   (Int.wrap_int (j + 1))))
    as [h11|] eqn:E11; [clear H11|congruence].
  rewrite (snd_rd_bind_some _ _ H00). cbv beta.
  rewrite (snd_rd_bind_some _ _ E10). cbv beta.
  rewrite (snd_rd_bind_some _ _ E01). cbv beta.
  rewrite (snd_rd_bind_some _ _ E11). cbv beta.
  cbn [rd_ret snd]. eexists. split; [reflexivity|].
  rewrite Hu, Hv. ring.
Qed.

(** The world coordinate the loop derives from a column is the one
    [GetHeight] maps back to that column. *)
Lemma texel_coordinate (T : Q) (w : Z) (x : nat) :
  ~ (T == 0)%Q -> (0 < w)%Z ->
  (((inject_Z (Z.of_nat x) / inject_Z w * T - T * (1 # 2)) / T + (1 # 2))
   * inject_Z w == inject_Z (Z.of_nat x))%Q.
Proof.
  intros HT Hw.
  assert (Hw' : ~ (inject_Z w == 0)%Q).
  { intros E. assert (0 < inject_Z w)%Q
      by (change 0%Q with (inject_Z 0); rewrite <- Zlt_Qlt; lia).
    lra. }
  field. split; assumption.
Qed.

(** The value the loop stores for the texel [(x, z)]. *)
Lemma height_texel_value (t : Terrain Q) (x z : nat) (s : Q) :
  grid_consistent t ->
  ~ (mTerrainSize t == 0)%Q ->
  ~ (mMaxHeight t - mMinHeight t == 0)%Q ->
  mHeightmapWidth t <= Int.int_max -> mHeightmapHeight t <= Int.int_max ->
  Z.of_nat x < mHeightmapWidth t -> Z.of_nat z < mHeightmapHeight t ->
  nth_error (mHeightmap t)
    (Z.to_nat (Z.of_nat z * mHeightmapWidth t + Z.of_nat x)) = Some s ->
  exists r,
    snd (GetHeight t
           (inject_Z (Z.of_nat x) / inject_Z (mHeightmapWidth t)
            * mTerrainSize t - mTerrainSize t * (1 # 2))%Q
           (inject_Z (Z.of_nat z) / inject_Z (mHeightmapHeight t)
            * mTerrainSize t - mTerrainSize t * (1 # 2))%Q) = Some r
    /\ ((r - mMinHeight t) / (mMaxHeight t - mMinHeight t) == s)%Q.
Proof.
  intros Hc HT HR Hw Hh Hx Hz Hs.
  destruct (@GetHeight_of_texel t _ _ (Z.of_nat x) (Z.of_nat z) s Hc Hw Hh
              ltac:(lia) ltac:(lia)
              (@texel_coordinate (mTerrainSize t) (mHeightmapWidth t) x HT
                 ltac:(lia))
              (@texel_coordinate (mTerrainSize t) (mHeightmapHeight t) z HT
                 ltac:(lia))
              Hs) as (r & Hr & Er).
  exists r. split; [exact Hr|].
  rewrite Er. field. exact HR.
Qed.

Lemma height_texel_step (t : Terrain Q) (z x : nat) (data : list Q) :
  grid_consistent t ->
  ~ (mTerrainSize t == 0)%Q ->
  ~ (mMaxHeight t - mMinHeight t == 0)%Q ->
  mHeightmapWidth t <= Int.int_max -> mHeightmapHeight t <= Int.int_max ->
  mHeightmapWidth t * mHeightmapHeight t < 2 ^ 32 ->
  Z.of_nat x < mHeightmapWidth t -> Z.of_nat z < mHeightmapHeight t ->
  length data = length (mHeightmap t) ->
  exists v,
    height_texel t z x (Some data)
    = Some (vec_set (z * Z.to_nat (mHeightmapWidth t) + x) v data)
    /\ (v == nth (z * Z.to_nat (mHeightmapWidth t) + x) (mHeightmap t) 0)%Q
    /\ (z * Z.to_nat (mHeightmapWidth t) + x < length data)%nat.
Proof.
  intros Hc HT HR Hw Hh Hfit Hx Hz Hlen.
  pose proof Hc as (Hw0 & Hh0 & Hgrid).
  assert (Hidx : Z.of_nat z * mHeightmapWidth t + Z.of_nat x
                 < mHeightmapWidth t * mHeightmapHeight t) by nia.
  assert (Hnat : Z.to_nat (Z.of_nat z * mHeightmapWidth t + Z.of_nat x)
                 = (z * Z.to_nat (mHeightmapWidth t) + x)%nat) by nia.
  assert (Hin : (z * Z.to_nat (mHeightmapWidth t) + x
                 < length (mHeightmap t))%nat)
    by (rewrite Hgrid; nia).
  destruct (@height_texel_value t x z
              (nth (z * Z.to_nat (mHeightmapWidth t) + x) (mHeightmap t) 0%Q)
              Hc HT HR Hw Hh Hx Hz) as (r & Hr & Er).
  { rewrite Hnat. apply nth_error_nth'. exact Hin. }
  unfold height_texel. cbn [obind].
  cbn [fsub fmul fdiv of_Z of_ratio exactQ].
  rewrite Hr. cbn [obind].
  rewrite (IntFacts.wrap_uint_small
             (n := Z.of_nat z * mHeightmapWidth t)) by nia.
  rewrite IntFacts.wrap_uint_small by nia.
  destruct (Z.ltb_spec (Z.of_nat z * mHeightmapWidth t + Z.of_nat x)
              (Z.of_nat (length data))) as [_|Hge]; [|lia].
  rewrite Hnat. eexists. split; [reflexivity|].
  split; [exact Er|lia].
Qed.

Lemma row_loop (t : Terrain Q) (z : nat) :
  grid_consistent t ->
  ~ (mTerrainSize t == 0)%Q ->
  ~ (mMaxHeight t - mMinHeight t == 0)%Q ->
  mHeightmapWidth t <= Int.int_max -> mHeightmapHeight t <= Int.int_max ->
  mHeightmapWidth t * mHeightmapHeight t < 2 ^ 32 ->
  Z.of_nat z < mHeightmapHeight t ->
  forall (n : nat) (data : list Q),
    Z.of_nat n <= mHeightmapWidth t ->
    length data = length (mHeightmap t) ->
    exists data',
      for_range n (height_texel t z) (Some data) = Some data'
      /\ length data' = length (mHeightmap t)
      /\ forall j,
           let lo := (z * Z.to_nat (mHeightmapWidth t))%nat in
           ((lo <= j < lo + n)%nat ->
            (nth j data' 0 == nth j (mHeightmap t) 0)%Q)
           /\ (~ (lo <= j < lo + n)%nat -> nth j data' 0%Q = nth j data 0%Q).
Proof.
  intros Hc HT HR Hw Hh Hfit Hz.
  induction n as [|n IH]; intros data Hn Hlen.
  - exists data. split; [reflexivity|]. split; [exact Hlen|].
    intros j lo. split; [lia|reflexivity].
  - destruct (IH data ltac:(lia) Hlen) as (d1 & E1 & L1 & N1).
    rewrite for_range_S, E1.
    destruct (@height_texel_step t z n d1 Hc HT HR Hw Hh Hfit ltac:(lia)
                Hz L1) as (v & E2 & Ev & Hin).
    rewrite E2. eexists. split; [reflexivity|].
    split; [now rewrite vec_set_length|].
    intros j lo. subst lo.
    rewrite PermutationFacts.nth_vec_set.
    destruct (N1 j) as [Na Nb]. cbv zeta in Na, Nb.
    destruct (Nat.eqb_spec j (z * Z.to_nat (mHeightmapWidth t) + n))
      as [->|Hne].
    + destruct (Nat.ltb_spec (z * Z.to_nat (mHeightmapWidth t) + n)
                  (length d1)); [|lia].
      cbn [andb]. split; [intros _; exact Ev|lia].
    + cbn [andb]. split.
      * intros Hj. apply Na. lia.
      * intros Hj. apply Nb. lia.
Qed.

Lemma rows_loop (t : Terrain Q) :
  grid_consistent t ->
  ~ (mTerrainSize t == 0)%Q ->
  ~ (mMaxHeight t - mMinHeight t == 0)%Q ->
  mHeightmapWidth t <= Int.int_max -> mHeightmapHeight t <= Int.int_max ->
  mHeightmapWidth t * mHeightmapHeight t < 2 ^ 32 ->
  forall (k : nat) (data : list Q),
    Z.of_nat k <= mHeightmapHeight t ->
    length data = length (mHeightmap t) ->
    exists data',
      for_range k
        (fun z => for_range (Z.to_nat (mHeightmapWidth t))
                    (height_texel t z))
        (Some data) = Some data'
      /\ length data' = length (mHeightmap t)
      /\ forall j,
           (j < k * Z.to_nat (mHeightmapWidth t))%nat ->
           (nth j data' 0 == nth j (mHeightmap t) 0)%Q.
Proof.
  intros Hc HT HR Hw Hh Hfit.
  pose proof Hc as (Hw0 & Hh0 & Hgrid).
  induction k as [|k IH]; intros data Hk Hlen.
  - exists data. split; [reflexivity|]. split; [exact Hlen|].
    intros j Hj. lia.
  - destruct (IH data ltac:(lia) Hlen) as (d1 & E1 & L1 & N1).
    rewrite for_range_S, E1.
    destruct (@row_loop t k Hc HT HR Hw Hh Hfit ltac:(lia)
                (Z.to_nat (mHeightmapWidth t)) d1 ltac:(lia) L1)
      as (d2 & E2 & L2 & N2).
    rewrite E2. exists d2. split; [reflexivity|]. split; [exact L2|].
    intros j Hj. destruct (N2 j) as [Na Nb]. cbv zeta in Na, Nb.
    destruct (Nat.lt_ge_cases j (k * Z.to_nat (mHeightmapWidth t)))
      as [Hlt|Hge].
    + rewrite Nb by lia. apply N1. exact Hlt.
    + apply Na. lia.
Qed.

(** X24.  In exact arithmetic, on a consistent grid whose dimensions and
    whose product fit their integer types, with a non-zero terrain
    size and height range: the texture data
    [TerrainApp::BuildDescriptorHeaps] computes through [GetHeight]
    when the height texture is missing is the stored grid itself,
    sample for sample. *)
Theorem fallback_texture_is_the_grid (t : Terrain Q) :
  grid_consistent t ->
  ~ (mTerrainSize t == 0)%Q ->
  ~ (mMaxHeight t - mMinHeight t == 0)%Q ->
  mHeightmapWidth t <= Int.int_max -> mHeightmapHeight t <= Int.int_max ->
  mHeightmapWidth t * mHeightmapHeight t < 2 ^ 32 ->
  exists data,
    fallback_heightData t = Some data
    /\ length data = length (mHeightmap t)
    /\ forall j,
         (j < length (mHeightmap t))%nat ->
         (nth j data 0 == nth j (mHeightmap t) 0)%Q.
Proof.
  intros Hc HT HR Hw Hh Hfit.
  pose proof Hc as (Hw0 & Hh0 & Hgrid).
  unfold fallback_heightData.
  rewrite IntFacts.wrap_uint_small by nia.
  destruct (@rows_loop t Hc HT HR Hw Hh Hfit
              (Z.to_nat (mHeightmapHeight t))
              (repeat (of_Z 0)
                 (Z.to_nat (mHeightmapWidth t * mHeightmapHeight t)))
              ltac:(lia)
              ltac:(rewrite repeat_length; symmetry; exact Hgrid))
    as (data & E & L & N).
  exists data. split; [exact E|]. split; [exact L|].
  intros j Hj. apply N. rewrite Hgrid in Hj. nia.
Qed.

Lemma fallback_texture_is_the_grid_witness :
  exists data,
    fallback_heightData Samples.small_terrain_exact = Some data
    /\ length data = 4%nat
    /\ (nth 1 data 0 == 64 # 255)%Q.
Proof.
  destruct (@fallback_texture_is_the_grid Samples.small_terrain_exact)
    as (data & E & L & N).
  - vm_compute. repeat split; discriminate.
  - vm_compute. discriminate.
  - vm_compute. discriminate.
  - vm_compute. discriminate.
  - vm_compute. discriminate.
  - vm_compute. reflexivity.
  - exists data. split; [exact E|]. split; [exact L|].
    rewrite (N 1%nat) by (vm_compute; lia). vm_compute. reflexivity.
Defined.

End AppTextureFacts.

Module FlatFacts.
Import TR TRSpec TRMoreSpec FlatSpec SampleFacts ExactSampleFacts.

Lemma SampleHeight_member (t : Terrain Q) (a b : Z) :
  grid_consistent t -> mHeightmap t <> [] ->
  exists h, snd (SampleHeight t a b) = Some h /\ In h (mHeightmap t).
Proof.
  intros Hc Hne.
  destruct (SampleHeight_inside a b Hc Hne) as [Hs _].
  destruct (snd (SampleHeight t a b)) as [h|] eqn:E; [|congruence].
  exists h. split; [reflexivity|].
  unfold SampleHeight in E. cbn [snd] in E.
  match type of E with
  | (if ?c then _ else _) = _ => destruct c; [discriminate|]
  end.
  eapply nth_error_In. exact E.
Qed.

Lemma GetHeight_flat (t : Terrain Q) (c x z : Q) :
  ~ (mTerrainSize t == 0)%Q ->
  grid_consistent t -> mHeightmap t <> [] ->
  flat_grid c (mHeightmap t) ->
  exists r,
    snd (GetHeight t x z) = Some r
    /\ (r == mMinHeight t + c * (mMaxHeight t - mMinHeight t))%Q.
Proof.
  intros _ Hc Hne Hflat. unfold GetHeight.
  destruct (mHeightmap t) as [|s0 g] eqn:Hg; [congruence|].
  rewrite <- Hg in Hflat, Hne.
  set (x0 := to_int _). set (z0 := to_int _).
  destruct (SampleHeight_member x0 z0 Hc Hne) as (h00 & E00 & I00).
  destruct (SampleHeight_member (Int.wrap_int (x0 + 1)) z0 Hc Hne)
    as (h10 & E10 & I10).
  destruct (SampleHeight_member x0 (Int.wrap_int (z0 + 1)) Hc Hne)
    as (h01 & E01 & I01).
  destruct (SampleHeight_member (Int.wrap_int (x0 + 1))
              (Int.wrap_int (z0 + 1)) Hc Hne) as (h11 & E11 & I11).
  rewrite (snd_rd_bind_some _ _ E00). cbv beta.
  rewrite (snd_rd_bind_some _ _ E10). cbv beta.
  rewrite (snd_rd_bind_some _ _ E01). cbv beta.
  rewrite (snd_rd_bind_some _ _ E11). cbv beta.
  cbn [rd_ret snd]. eexists. split; [reflexivity|].
  cbn [fadd fsub fmul exactQ].
  rewrite (Hflat _ I00), (Hflat _ I10), (Hflat _ I01), (Hflat _ I11).
  ring.
Qed.

(** X17.  In exact arithmetic, for a terrain size other than zero, on a
    consistent grid all of whose samples are equal, [GetHeight] returns
    the same height everywhere and [GetNormal] hands
    [XMVector3Normalize] a vector along the y axis: its x and z
    components are zero and its y component is twice the texel step
    [terrainSize / width]. *)
Theorem GetNormal_of_flat_grid
  (XMVector3Normalize : XMFLOAT3 Q -> XMFLOAT3 Q) (t : Terrain Q)
  (c x z : Q) :
  ~ (mTerrainSize t == 0)%Q ->
  grid_consistent t -> mHeightmap t <> [] ->
  flat_grid c (mHeightmap t) ->
  (exists r,
      snd (GetHeight t x z) = Some r
      /\ (r == mMinHeight t + c * (mMaxHeight t - mMinHeight t))%Q)
  /\ exists dx dz,
       snd (GetNormal XMVector3Normalize t x z)
       = Some (XMVector3Normalize
                 (mkFloat3 dx
                    (2 * (mTerrainSize t / inject_Z (mHeightmapWidth t)))%Q
                    dz))
       /\ (dx == 0)%Q /\ (dz == 0)%Q.
Proof.
  intros HT Hc Hne Hflat.
  split; [now apply GetHeight_flat|].
  unfold GetNormal. cbn [fadd fsub fmul fdiv of_Z exactQ].
  set (step := (mTerrainSize t / inject_Z (mHeightmapWidth t))%Q).
  destruct (@GetHeight_flat t c (x - step)%Q z HT Hc Hne Hflat)
    as (hL & EL & RL).
  destruct (@GetHeight_flat t c (x + step)%Q z HT Hc Hne Hflat)
    as (hR & ER & RR).
  destruct (@GetHeight_flat t c x (z - step)%Q HT Hc Hne Hflat)
    as (hD & ED & RD).
  destruct (@GetHeight_flat t c x (z + step)%Q HT Hc Hne Hflat)
    as (hU & EU & RU).
  rewrite (snd_rd_bind_some _ _ EL). cbv beta.
  rewrite (snd_rd_bind_some _ _ ER). cbv beta.
  rewrite (snd_rd_bind_some _ _ ED). cbv beta.
  rewrite (snd_rd_bind_some _ _ EU). cbv beta.
  cbn [rd_ret snd]. exists (hL - hR)%Q, (hD - hU)%Q.
  split; [reflexivity|]. split; lra.
Qed.

Lemma GetNormal_of_flat_grid_witness :
  ~ (mTerrainSize
       (set_heightmap 2 2 [1 # 4; 1 # 4; 1 # 4; 1 # 4]%Q
          Samples.fresh_terrain_exact) == 0)%Q
  /\ exists dx dz,
      snd (GetNormal as_is
             (set_heightmap 2 2 [1 # 4; 1 # 4; 1 # 4; 1 # 4]%Q
                Samples.fresh_terrain_exact) 10%Q (- (20))%Q)
      = Some (mkFloat3 dx (2 * (512 / 2))%Q dz)
      /\ (dx == 0)%Q /\ (dz == 0)%Q.
Proof.
  split; [discriminate|].
  refine (proj2 (@GetNormal_of_flat_grid as_is
                   (set_heightmap 2 2 [1 # 4; 1 # 4; 1 # 4; 1 # 4]%Q
                      Samples.fresh_terrain_exact)
                   (1 # 4)%Q 10%Q (- (20))%Q _ _ _ _)).
  - discriminate.
  - vm_compute. repeat split; discriminate.
  - discriminate.
  - intros s Hin. simpl in Hin.
    repeat (destruct Hin as [<-|Hin]; [reflexivity|]). contradiction.
Defined.

End FlatFacts.

Module GridFacts.
Import Geo GeoSpec GridSpec GeoFacts LoopFacts.

Lemma nth_flat_map_const {A B : Type} (f : A -> list B) (c : nat)
  (a0 : A) (d : B) :
  forall (l : list A) (i k : nat),
    (forall a, length (f a) = c) ->
    (i < length l)%nat -> (k < c)%nat ->
    nth (i * c + k) (flat_map f l) d = nth k (f (nth i l a0)) d.
Proof.
  induction l as [|a l IH]; intros i k Hc Hi Hk; [simpl in Hi; lia|].
  cbn [flat_map]. destruct i as [|i].
  - simpl. apply app_nth1. rewrite Hc. exact Hk.
  - rewrite app_nth2 by (rewrite Hc; simpl; lia).
    rewrite Hc. replace (S i * c + k - c)%nat with (i * c + k)%nat
      by (simpl; lia).
    simpl in Hi. cbn [nth]. apply IH; [exact Hc|lia|exact Hk].
Qed.

Lemma nth_rows {A : Type} (f : nat -> nat -> list A) (c w h : nat)
  (d : A) (x z k : nat) :
  (forall x z, length (f x z) = c) ->
  (x < w)%nat -> (z < h)%nat -> (k < c)%nat ->
  nth ((z * w + x) * c + k)
    (flat_map (fun z => flat_map (fun x => f x z) (seq 0 w)) (seq 0 h)) d
  = nth k (f x z) d.
Proof.
  intros Hc Hx Hz Hk.
  replace ((z * w + x) * c + k)%nat with (z * (w * c) + (x * c + k))%nat
    by lia.
  rewrite (@nth_flat_map_const _ _ _ (w * c)%nat 0%nat).
  - rewrite seq_nth by lia. cbn [Nat.add].
    rewrite (@nth_flat_map_const _ _ _ c 0%nat).
    + rewrite seq_nth by lia. reflexivity.
    + intros a. apply Hc.
    + rewrite length_seq. exact Hx.
    + exact Hk.
  - intros a. rewrite (@length_flat_map_const _ _ _ c).
    + now rewrite length_seq.
    + intros b _. apply Hc.
  - rewrite length_seq. exact Hz.
  - nia.
Qed.

Lemma nth_level {A : Type} (f : nat -> list A) (d : A) (n lod j : nat) :
  (lod < n)%nat -> (j < length (f lod))%nat ->
  nth (length (flat_map f (seq 0 lod)) + j) (flat_map f (seq 0 n)) d
  = nth j (f lod) d.
Proof.
  intros Hlod Hj.
  replace n with (lod + S (n - S lod))%nat by lia.
  rewrite seq_app, flat_map_app. cbn [Nat.add seq flat_map].
  rewrite app_nth2 by lia.
  replace (length (flat_map f (seq 0 lod)) + j
           - length (flat_map f (seq 0 lod)))%nat with j by lia.
  apply app_nth1. exact Hj.
Qed.

Section Generic.
Context {F : Type} {SF : Scalar F}.

Lemma level_vertices_length (lod : nat) :
  (lod < 5)%nat ->
  Z.of_nat (length (@level_vertices F SF lod))
  = (nth lod kGrid 0 + 1) * (nth lod kGrid 0 + 1).
Proof.
  intros Hlod. unfold level_vertices.
  rewrite (@length_rows_const _ _ 1%nat) by reflexivity.
  destruct (kGrid_facts Hlod) as (Hg & _). cbv zeta in Hg. nia.
Qed.

Lemma level_indices_length (lod : nat) :
  (lod < 5)%nat ->
  Z.of_nat (length (level_indices lod))
  = nth lod kGrid 0 * nth lod kGrid 0 * 6.
Proof.
  intros Hlod. unfold level_indices.
  rewrite (@length_rows_const _ _ 6%nat) by reflexivity.
  destruct (kGrid_facts Hlod) as (Hg & _). cbv zeta in Hg. nia.
Qed.

Lemma levels_length (n : nat) :
  (n <= 5)%nat ->
  Z.of_nat (length (flat_map (@level_vertices F SF) (seq 0 n)))
  = vertices_before n
  /\ Z.of_nat (length (flat_map level_indices (seq 0 n)))
     = indices_before n.
Proof.
  induction n as [|n IH]; intros Hn; [split; reflexivity|].
  destruct (IH ltac:(lia)) as [Hv Hi].
  destruct (@kGrid_facts n ltac:(lia)) as (_ & Ev & Ei & _).
  cbv zeta in Ev, Ei.
  rewrite seq_S, !flat_map_app. cbn [Nat.add flat_map].
  rewrite !app_nil_r, !length_app, !Nat2Z.inj_add.
  rewrite level_vertices_length, level_indices_length by lia.
  lia.
Qed.

(** The vectors after [n] rounds of the level loop. *)
Lemma levels_content (n : nat) :
  (n <= 5)%nat ->
  exists args,
    for_range n build_lod (@nil (TerrainVertex F), @nil Z, map_empty)
    = (flat_map (@level_vertices F SF) (seq 0 n),
       flat_map level_indices (seq 0 n), args).
Proof.
  induction n as [|n IH]; intros Hn; [eexists; reflexivity|].
  destruct (IH ltac:(lia)) as (args & E).
  rewrite for_range_S, E.
  destruct (@levels_length n ltac:(lia)) as [Hv Hi].
  destruct (@kGrid_facts n ltac:(lia))
    as (Hg & Ev & Ei & V0 & V1 & I0 & I1).
  cbv zeta in Hg, Ev, Ei.
  unfold build_lod. rewrite !push_rows.
  rewrite Hv.
  rewrite (IntFacts.wrap_uint_small (n := vertices_before n)) by nia.
  rewrite (IntFacts.wrap_uint_small (n := nth n kGrid 0 + 1)) by nia.
  eexists.
  rewrite seq_S, !flat_map_app. cbn [Nat.add flat_map].
  rewrite !app_nil_r. reflexivity.
Qed.

Lemma BuildGeometry_content :
  Vertices (@BuildGeometry F SF)
  = flat_map (@level_vertices F SF) (seq 0 5)
  /\ Indices (@BuildGeometry F SF) = flat_map level_indices (seq 0 5).
Proof.
  unfold BuildGeometry.
  destruct (@levels_content 5 ltac:(lia)) as (args & ->).
  split; reflexivity.
Qed.

Lemma cell_indices_points (lod x z : nat) :
  (lod < 5)%nat ->
  Z.of_nat x < nth lod kGrid 0 -> Z.of_nat z < nth lod kGrid 0 ->
  cell_indices (vertices_before lod) (nth lod kGrid 0 + 1) x z
  = [grid_point lod x z; grid_point lod x (S z);
     grid_point lod (S x) z; grid_point lod (S x) z;
     grid_point lod x (S z); grid_point lod (S x) (S z)].
Proof.
  intros Hlod Hx Hz.
  destruct (kGrid_facts Hlod) as (Hg & Ev & _ & V0 & V1 & _).
  cbv zeta in Hg, Ev.
  unfold cell_indices, grid_point.
  set (g := nth lod kGrid 0) in *.
  set (V := vertices_before lod) in *.
  assert (Hrow : Z.of_nat z * (g + 1) + Z.of_nat x + g + 2
                 <= (g + 1) * (g + 1)) by nia.
  rewrite (IntFacts.wrap_uint_small (n := Z.of_nat z * (g + 1))) by nia.
  rewrite (IntFacts.wrap_uint_small (n := Z.of_nat z + 1)) by nia.
  rewrite (IntFacts.wrap_uint_small (n := (Z.of_nat z + 1) * (g + 1)))
    by nia.
  rewrite (IntFacts.wrap_uint_small (n := V + Z.of_nat z * (g + 1)))
    by nia.
  rewrite (IntFacts.wrap_uint_small
             (n := V + (Z.of_nat z + 1) * (g + 1))) by nia.
  rewrite (IntFacts.wrap_uint_small
             (n := V + Z.of_nat z * (g + 1) + Z.of_nat x)) by nia.
  rewrite (IntFacts.wrap_uint_small
             (n := V + (Z.of_nat z + 1) * (g + 1) + Z.of_nat x)) by nia.
  rewrite !IntFacts.wrap_uint_small by nia.
  rewrite !Nat2Z.inj_succ.
  repeat (f_equal; try lia).
Qed.

(** X19.  Each level of [BuildGeometry] is a regular grid, for every
    interpretation of [float]: the grid point [(x, z)] of the level,
    with texture coordinate [(x / grid, z / grid)] and position
    [(u - 0.5, 0, w - 0.5)], sits at index
    [start + z * (grid + 1) + x] of the vertex vector, and the six
    indices stored for the cell [(x, z)] name its corners
    [(x,z), (x,z+1), (x+1,z)] and [(x+1,z), (x,z+1), (x+1,z+1)]: two
    triangles that cover the cell. *)
Theorem BuildGeometry_triangulates_grids (lod x z : nat) :
  (lod < 5)%nat ->
  let geo := @BuildGeometry F SF in
  let g := nth lod kGrid 0 in
  (Z.of_nat x <= g -> Z.of_nat z <= g ->
   nth_error (Vertices geo) (Z.to_nat (grid_point lod x z))
   = Some (grid_vertex (fdiv (of_Z 1) (of_Z g)) x z))
  /\ (Z.of_nat x < g -> Z.of_nat z < g ->
      let first :=
        indices_before lod + 6 * (Z.of_nat z * g + Z.of_nat x) in
      map (fun k => nth (Z.to_nat (first + k)) (Indices geo) 0)
        [0; 1; 2; 3; 4; 5]
      = [grid_point lod x z; grid_point lod x (S z);
         grid_point lod (S x) z; grid_point lod (S x) z;
         grid_point lod x (S z); grid_point lod (S x) (S z)]).
Proof.
  intros Hlod geo g. subst geo.
  destruct BuildGeometry_content as [-> ->].
  destruct (kGrid_facts Hlod) as (Hg & Ev & Ei & V0 & V1 & I0 & I1).
  cbv zeta in Hg, Ev, Ei. fold g in Hg, Ev, Ei.
  destruct (@levels_length lod ltac:(lia)) as [Lv Li].
  pose proof (level_vertices_length Hlod) as LV. fold g in LV.
  pose proof (level_indices_length Hlod) as LI. fold g in LI.
  split.
  - intros Hx Hz.
    set (j := (z * (Z.to_nat g + 1) + x)%nat).
    assert (Hj : (j < length (@level_vertices F SF lod))%nat)
      by (subst j; nia).
    assert (Hpos : Z.to_nat (grid_point lod x z)
                   = (length (flat_map (@level_vertices F SF)
                                (seq 0 lod)) + j)%nat)
      by (unfold grid_point; fold g; subst j; nia).
    rewrite Hpos.
    assert (Hlen : (length (flat_map (@level_vertices F SF) (seq 0 lod))
                    + j
                    < length (flat_map (@level_vertices F SF)
                                (seq 0 5)))%nat).
    { destruct (@levels_length 5 ltac:(lia)) as [L5 _].
      assert (vertices_before (S lod) <= vertices_before 5).
      { clear - Hlod. destruct lod as [|[|[|[|[|lod]]]]]; try lia;
          vm_compute; congruence. }
      nia. }
    rewrite (nth_error_nth' _
               (grid_vertex (fdiv (of_Z 1) (of_Z g)) x z) Hlen).
    f_equal. rewrite nth_level by (try exact Hj; lia).
    unfold level_vertices. fold g. subst j.
    replace (z * (Z.to_nat g + 1) + x)%nat
      with ((z * (Z.to_nat g + 1) + x) * 1 + 0)%nat by lia.
    rewrite (@nth_rows _ _ 1%nat) by (try reflexivity; lia).
    reflexivity.
  - intros Hx Hz first.
    rewrite <- (@cell_indices_points lod x z Hlod Hx Hz). fold g.
    assert (Hk : forall k : nat,
               (k < 6)%nat ->
               nth (Z.to_nat (first + Z.of_nat k))
                 (flat_map level_indices (seq 0 5)) 0
               = nth k
                   (cell_indices (vertices_before lod) (g + 1) x z) 0).
    { intros k Hk.
      set (j := ((z * Z.to_nat g + x) * 6 + k)%nat).
      assert (Hj : (j < length (level_indices lod))%nat)
        by (subst j; nia).
      assert (Hpos : Z.to_nat (first + Z.of_nat k)
                     = (length (flat_map level_indices (seq 0 lod))
                        + j)%nat)
        by (subst first j; nia).
      rewrite Hpos, nth_level by (try exact Hj; lia).
      unfold level_indices. fold g. subst j.
      apply (@nth_rows _ _ 6%nat); try reflexivity; lia. }
    cbn [map].
    pose proof (Hk 0%nat ltac:(lia)) as K0.
    pose proof (Hk 1%nat ltac:(lia)) as K1.
    pose proof (Hk 2%nat ltac:(lia)) as K2.
    pose proof (Hk 3%nat ltac:(lia)) as K3.
    pose proof (Hk 4%nat ltac:(lia)) as K4.
    pose proof (Hk 5%nat ltac:(lia)) as K5.
    change (Z.of_nat 0) with 0 in K0. change (Z.of_nat 1) with 1 in K1.
    change (Z.of_nat 2) with 2 in K2. change (Z.of_nat 3) with 3 in K3.
    change (Z.of_nat 4) with 4 in K4. change (Z.of_nat 5) with 5 in K5.
    rewrite K0, K1, K2, K3, K4, K5.
    reflexivity.
Qed.

End Generic.

Lemma BuildGeometry_triangulates_grids_witness :
  (2 < 5)%nat
  /\ nth_error (Vertices (@BuildGeometry Q exactQ))
       (Z.to_nat (grid_point 2 3 5))
     = Some (grid_vertex (fdiv (of_Z 1) (of_Z 64)) 3 5).
Proof.
  assert (H : (2 < 5)%nat) by lia.
  split; [exact H|].
  apply (proj1 (@BuildGeometry_triangulates_grids Q exactQ 2 3 5 H));
    vm_compute; discriminate.
Defined.

End GridFacts.

Module AnyStateFacts.
Import QT QTSpec QTFacts.

Section Generic.
Context {F : Type} {SF : Scalar F} {SQ : ScalarSqrt F}.

(** Whatever flags earlier frames left in the subtree, what
    [CollectVisibleNodes] finds after [UpdateNode] includes every
    draw target of that [UpdateNode]. *)
Lemma selected_are_collected (q : QuadTree F) cam pl node :
  forall st here,
    incl (map (app here) (draw_targets cam pl node))
      (CollectVisibleNodes (fst (UpdateNode q cam pl node st)) here)
    /\ (length (draw_targets cam pl node)
        <= length (CollectVisibleNodes
                     (fst (UpdateNode q cam pl node st)) here))%nat.
Proof.
  induction node as [|d c0 IH0 c1 IH1 c2 IH2 c3 IH3]; intros st here.
  - split; [intros h []|simpl; lia].
  - simpl UpdateNode. simpl draw_targets.
    destruct (Intersects (Bounds d) pl) eqn:Hi; simpl.
    + change (ShouldSubdivide
                (set_LODLevel (CalculateLOD q (set_IsVisible true d) cam)
                   (set_IsVisible true d)) cam)
        with (ShouldSubdivide d cam).
      destruct (negb (IsLeaf d) && ShouldSubdivide d cam) eqn:Hdesc.
      * apply andb_true_iff in Hdesc. destruct Hdesc as [Hleaf _].
        apply negb_true_iff in Hleaf.
        specialize (IH0 st).
        destruct (UpdateNode q cam pl c0 st) as [c0' s0].
        specialize (IH1 s0).
        destruct (UpdateNode q cam pl c1 s0) as [c1' s1].
        specialize (IH2 s1).
        destruct (UpdateNode q cam pl c2 s1) as [c2' s2].
        specialize (IH3 s2).
        destruct (UpdateNode q cam pl c3 s2) as [c3' s3].
        cbn [fst] in *. cbn [CollectVisibleNodes IsVisible IsLeaf
                               set_IsVisible set_LODLevel].
        rewrite Hleaf.
        destruct (IH0 (here ++ [0%nat])) as [I0 L0].
        destruct (IH1 (here ++ [1%nat])) as [I1 L1].
        destruct (IH2 (here ++ [2%nat])) as [I2 L2].
        destruct (IH3 (here ++ [3%nat])) as [I3 L3].
        split.
        -- rewrite !map_app, !map_map.
           assert (E : forall i (l : list Handle),
                      map (fun x => here ++ i :: x) l
                      = map (app (here ++ [i])) l)
             by (intros i l; apply map_ext; intros h;
                 now rewrite <- app_assoc).
           rewrite !E.
           repeat apply incl_app.
           ++ apply incl_appl. exact I0.
           ++ apply incl_appr, incl_appl. exact I1.
           ++ apply incl_appr, incl_appr, incl_appl. exact I2.
           ++ apply incl_appr, incl_appr, incl_appr. exact I3.
        -- rewrite !length_app, !length_map.
           unfold Handle in *. lia.
      * simpl. rewrite app_nil_r. split; [apply incl_refl|lia].
    + split; [intros h []|lia].
Qed.

(** X8.  For every tree state, also one with flags of earlier frames: the
    list [GetVisibleNodes] returns after [Update] holds every node
    that [Update] selected, [GetVisibleNodeCount] is the number of
    selected nodes (when it fits [int]), and so the list is at least
    as long as the count says. *)
Theorem Update_lists_every_selected_node (q : QuadTree F)
  (cameraPos : XMFLOAT3 F) (frustumPlanes : Frustum) :
  let q' := Update cameraPos frustumPlanes q in
  let selected := draw_targets cameraPos frustumPlanes (mRoot q) in
  incl selected (GetVisibleNodes q')
  /\ (Z.of_nat (length selected) <= Int.int_max ->
      GetVisibleNodeCount q' = Z.of_nat (length selected)
      /\ GetVisibleNodeCount q'
         <= Z.of_nat (length (GetVisibleNodes q'))).
Proof.
  intros q' selected. subst q' selected.
  unfold Update, GetVisibleNodes, GetVisibleNodeCount.
  pose proof (selected_are_collected q cameraPos frustumPlanes (mRoot q)
                {| visibleNodeCount := 0; nextObjectCBIndex := 0 |} [])
    as [Hincl Hlen].
  destruct (UpdateNode q cameraPos frustumPlanes (mRoot q)
              {| visibleNodeCount := 0; nextObjectCBIndex := 0 |})
    as [root st] eqn:Hu.
  cbn [fst mRoot mVisibleNodeCount] in *.
  split.
  - intros h Hin. apply Hincl.
    apply in_map_iff. exists h. split; [reflexivity|exact Hin].
  - intros Hfit.
    pose proof (UpdateNode_slots _ _ _ _ _ Hu) as Hs.
    cbv zeta in Hs. cbn [visibleNodeCount nextObjectCBIndex] in Hs.
    unfold Int.int_max, Handle in *.
    destruct Hs as (A & _ & _); [lia..|].
    split; lia.
Qed.

End Generic.

End AnyStateFacts.

Module ShaderFacts.
Import TR Shader ShaderSpec.
Local Open Scope Q_scope.

Lemma saturate_range (x : Q) : 0 <= saturate x <= 1.
Proof.
  unfold saturate, fmin, fmax. cbn [flt of_Z exactQ].
  change (inject_Z 0) with 0. change (inject_Z 1) with 1.
  destruct (Exact.ltb x 0) eqn:E0.
  - destruct (Exact.ltb 1 0) eqn:E1.
    + apply ExactFacts.ltb_lt in E1. lra.
    + lra.
  - apply ExactFacts.ltb_ge in E0.
    destruct (Exact.ltb 1 x) eqn:E1.
    + lra.
    + apply ExactFacts.ltb_ge in E1. lra.
Qed.

(** X26.  In exact arithmetic, with the constants [UpdateTerrainCB] takes
    from a terrain with [minHeight <= maxHeight], the height the vertex
    shader fetches lies between [minHeight] and [maxHeight] whatever the
    texture unit returns and for every texture coordinate, and the
    vector [NormalFromHeight] normalises has the y component
    [2 * (terrainSize / width)], the one [Terrain::GetNormal] uses. *)
Theorem shader_height_within_range (SampleLevel : Q * Q -> Q)
  (normalize : XMFLOAT3 Q -> XMFLOAT3 Q) (t : Terrain Q) (uv : Q * Q) :
  mMinHeight t <= mMaxHeight t ->
  let cb := UpdateTerrainCB t in
  (mMinHeight t <= FetchHeightWorld SampleLevel cb uv <= mMaxHeight t)
  /\ exists dx y dz,
       NormalFromHeight SampleLevel normalize cb uv
       = normalize (mkFloat3 dx y dz)
       /\ y == 2 * (mTerrainSize t / inject_Z (mHeightmapWidth t)).
Proof.
  intros Hmm cb. subst cb. split.
  - unfold FetchHeightWorld, HeightRange, UpdateTerrainCB.
    cbn [gMinHeight gMaxHeight fadd fsub fmul exactQ].
    pose proof (saturate_range (FetchHeight01 SampleLevel uv)) as Hs.
    set (h := saturate (FetchHeight01 SampleLevel uv)) in *.
    assert (P1 : 0 <= h * (mMaxHeight t - mMinHeight t))
      by (apply Qmult_le_0_compat; lra).
    assert (P2 : 0 <= (1 - h) * (mMaxHeight t - mMinHeight t))
      by (apply Qmult_le_0_compat; lra).
    assert (E : (1 - h) * (mMaxHeight t - mMinHeight t)
                == (mMaxHeight t - mMinHeight t)
                   - h * (mMaxHeight t - mMinHeight t)) by ring.
    split; lra.
  - unfold NormalFromHeight. eexists. eexists. eexists.
    split; [reflexivity|].
    unfold UpdateTerrainCB.
    cbn [gTerrainSize gHeightMapSize fst fmul fdiv of_Z exactQ].
    change (inject_Z 2) with 2. unfold Qdiv. ring.
Qed.

Lemma shader_height_within_range_witness :
  0 <= FetchHeightWorld overdriven
         (UpdateTerrainCB Samples.small_terrain_exact) (7, - (2)) <= 150.
Proof.
  refine (proj1 (@shader_height_within_range overdriven (fun v => v)
                   Samples.small_terrain_exact (7, - (2)) _)).
  discriminate.
Defined.

End ShaderFacts.

Module B32Facts.
Import B32Spec.

Lemma same_value_refl (a : B32.t) : same_value a a.
Proof. now left. Qed.

Lemma same_value_sym (a b : B32.t) : same_value a b -> same_value b a.
Proof. intros [->|[Ha Hb]]; [now left|right; now split]. Qed.








(** A finite number minus itself is [+0]. *)
Lemma sub_diag (a : B32.t) :
  finite a = true -> B32.sub a a = S754_zero false.
Proof.
  destruct a as [s|s| |s m e]; try discriminate; intros _.
  - destruct s; reflexivity.
  - unfold B32.sub, SFsub. rewrite Z.sub_diag. reflexivity.
Qed.







End B32Facts.

Module Sample32Facts.
Import TR TRSpec SampleFacts ExactSampleFacts B32Spec B32Facts Sample32Spec.





(** For the application's terrain size 512 and 256 texels along an
    axis, the world coordinate [2 * i - 256] of every texel [i] is
    computed as the texel [i] with weight zero. *)
Example application_texels_are_computed_exactly :
  forallb
    (fun i =>
       let x : B32.t := of_Z (2 * Z.of_nat i - 256) in
       Z.eqb (grid_index (of_Z 512) 256 x) (Z.of_nat i)
       && is_zero (grid_weight (of_Z 512) 256 x))
    (seq 0 256) = true.
Proof. vm_compute. reflexivity. Qed.

(** With a terrain size of zero the computed texel coordinate is a NaN
    (0 / 0) or an infinity, never a texel with weight zero, and
    [GetHeight] returns a NaN even on a flat grid. *)
Example zero_terrain_size_gives_nan :
  is_nan (grid_weight (mTerrainSize sizeless_terrain) 2 (of_Z 0)) = true
  /\ is_zero (grid_weight (mTerrainSize sizeless_terrain) 2 (of_Z 1))
     = false
  /\ snd (GetHeight sizeless_terrain (of_Z 0) (of_Z 0)) = Some S754_nan
  /\ snd (GetHeight sizeless_terrain (of_Z 1) (of_Z 1)) = Some S754_nan.
Proof. repeat split; vm_compute; reflexivity. Qed.




End Sample32Facts.

Module Gen32Facts.
Import TR GenSpec GenLoopFacts B32Spec B32Facts Gen32Spec.

Section Generic.
Context {F : Type} {SF : Scalar F}.



End Generic.












End Gen32Facts.

Module Tiling32Facts.
Import QT QTSpec TilingSpec TilingFacts B32Spec B32Facts Tiling32Spec.
Import Binary32Samples.

(** Depth, size and leaf flag of every node [BuildTree] builds, for any
    interpretation of [float]. *)
Lemma BuildTree_nodes {F : Type} {SF : Scalar F} (M : F) (D : Z) :
  forall fuel x z size dn total t total',
    BuildTree fuel M D x z size (Z.of_nat dn) total = Some (t, total') ->
    forall k n,
      In (k, n) (nodes_from dn t) ->
      (dn <= k)%nat
      /\ (k = dn \/ Z.of_nat k <= D - 1)
      /\ Size n = halved (k - dn) size
      /\ IsLeaf n = negb (canSplit M D (Size n) (Z.of_nat k)).
Proof.
  induction fuel as [|fuel IH];
    intros x z size dn total t total' Hb k n Hin; [discriminate|].
  cbn [BuildTree] in Hb.
  destruct (canSplit M D size (Z.of_nat dn)) eqn:Hsplit; cbn [negb] in Hb.
  - assert (Hdepth : Z.of_nat dn < D - 1).
    { unfold canSplit in Hsplit. apply andb_true_iff in Hsplit.
      destruct Hsplit as [_ Hdepth]. now apply Z.ltb_lt in Hdepth. }
    replace (Z.of_nat dn + 1) with (Z.of_nat (S dn)) in Hb by lia.
    repeat match type of Hb with
           | obind (BuildTree fuel M D ?x ?z ?s ?d ?t) _ = _ =>
               let E := fresh "E" in
               destruct (BuildTree fuel M D x z s d t) as [[? ?]|] eqn:E;
               [cbn [obind] in Hb|discriminate]
           end.
    inversion Hb; subst; clear Hb.
    cbn [nodes_from] in Hin. destruct Hin as [Hroot|Hin].
    + inversion Hroot; subst k n. cbn [Size set_IsLeaf built_node IsLeaf].
      rewrite Nat.sub_diag, Hsplit. cbn [halved negb].
      repeat split; try reflexivity; try lia.
    + assert (Hchild :
                (S dn <= k)%nat
                /\ (k = S dn \/ Z.of_nat k <= D - 1)
                /\ Size n = halved (k - S dn) (fmul size (of_ratio 1 2))
                /\ IsLeaf n = negb (canSplit M D (Size n) (Z.of_nat k))).
      { rewrite !in_app_iff in Hin.
        destruct Hin as [Hin|[Hin|[Hin|Hin]]];
          [eapply (IH _ _ _ _ _ _ _ E)
          |eapply (IH _ _ _ _ _ _ _ E0)
          |eapply (IH _ _ _ _ _ _ _ E1)
          |eapply (IH _ _ _ _ _ _ _ E2)]; exact Hin. }
      destruct Hchild as (Hk & HkD & Hs & Hleaf).
      split; [lia|]. split; [right; lia|]. split; [|exact Hleaf].
      replace (k - dn)%nat with (S (k - S dn)) by lia. exact Hs.
  - inversion Hb; subst; clear Hb.
    cbn [nodes_from] in Hin. rewrite !app_nil_r in Hin.
    destruct Hin as [Hroot|[]].
    inversion Hroot; subst k n. cbn [Size set_IsLeaf built_node IsLeaf].
    rewrite Nat.sub_diag, Hsplit. cbn [halved negb].
    repeat split; try reflexivity; try lia.
Qed.

Lemma in_square_Qeq (px pz cx cz size cx' cz' size' : Q) :
  (cx == cx')%Q -> (cz == cz')%Q -> (size == size')%Q ->
  in_square (F := Q) px pz cx cz size = in_square px pz cx' cz' size'.
Proof.
  intros Ex Ez Es.
  destruct (in_square px pz cx cz size) eqn:E;
    destruct (in_square px pz cx' cz' size') eqn:E'; try reflexivity;
    exfalso;
    repeat match goal with
           | H : in_square _ _ _ _ _ = true |- _ =>
               apply in_square_true in H
           | H : in_square _ _ _ _ _ = false |- _ =>
               apply in_square_false in H
           end;
    rewrite Ex, Ez, Es in *; tauto.
Qed.

Lemma exact_covering_app (px pz : Q) l1 l2 :
  exact_covering px pz (l1 ++ l2)
  = (exact_covering px pz l1 + exact_covering px pz l2)%nat.
Proof. unfold exact_covering. now rewrite filter_app, length_app. Qed.

Lemma exact_node_footprint (px pz : Q) (n : TerrainNode B32.t)
  (n' : TerrainNode Q) :
  exact_node n n' = true ->
  IsLeaf n && exact_footprint px pz n = IsLeaf n' && in_footprint px pz n'.
Proof.
  unfold exact_node, represents, exact_footprint, in_footprint.
  rewrite !andb_true_iff.
  intros [[[Hl [Fx Ex]] [Fz Ez]] [Fs Es]].
  apply Bool.eqb_prop in Hl. apply Qeq_bool_eq in Ex, Ez, Es.
  rewrite Hl, Fx, Fz, Fs. cbn [andb]. f_equal.
  apply in_square_Qeq; assumption.
Qed.

(** Where nothing was rounded, the binary32 leaves cover a point as
    often as the exact ones. *)
Lemma no_rounding_covering (px pz : Q) :
  forall (t : NodePtr B32.t) (t' : NodePtr Q) (d : nat),
    no_rounding t t' = true ->
    exact_covering px pz (nodes_from d t) = covering px pz (nodes_from d t').
Proof.
  induction t as [|n c0 IH0 c1 IH1 c2 IH2 c3 IH3];
    intros [|n' c0' c1' c2' c3'] d H; try discriminate H; [reflexivity|].
  cbn [no_rounding] in H. rewrite !andb_true_iff in H.
  destruct H as [[[[Hn H0] H1] H2] H3].
  cbn [nodes_from].
  match goal with
  | |- exact_covering _ _ (?a :: ?l) = covering _ _ (?a' :: ?l') =>
      change (exact_covering px pz ([a] ++ l) = covering px pz ([a'] ++ l'))
  end.
  rewrite !exact_covering_app, !covering_app.
  rewrite (IH0 _ _ H0), (IH1 _ _ H1), (IH2 _ _ H2), (IH3 _ _ H3).
  f_equal. unfold exact_covering, covering. cbn [filter snd].
  rewrite (exact_node_footprint px pz _ _ Hn).
  destruct (IsLeaf n' && in_footprint px pz n'); reflexivity.
Qed.

(** The leaves of the tree built in exact arithmetic tile the root
    square. *)
Lemma exact_root_tiles (terrainSize minNodeSize : Q) (maxLODLevels : Z) :
  1 <= maxLODLevels ->
  exists q,
    Initialize terrainSize minNodeSize maxLODLevels new_QuadTree = Some q
    /\ forall px pz,
        covering px pz (nodes_from 0 (mRoot q))
        = indicator (in_square px pz 0%Q 0%Q terrainSize).
Proof.
  intros HD. unfold Initialize. cbn [mLODDistances new_QuadTree].
  destruct (Z.ltb_spec maxLODLevels 0) as [Hneg|_]; [lia|]. cbn [obind].
  destruct (@BuildTree_spec minNodeSize maxLODLevels
              (S (Z.to_nat (maxLODLevels - 1))) 0%Q 0%Q terrainSize 0%nat
              0%Z)
    as (t & total & E & _ & Hcover); [simpl; lia|simpl; lia|].
  change (Z.of_nat 0) with 0%Z in E.
  change (of_Z 0) with 0%Q. rewrite E. cbn [obind].
  eexists. split; [reflexivity|]. exact Hcover.
Qed.

(** C3 (as amended).  In binary32, for at least one level
    ([maxLODLevels >= 1]), [Initialize] returns a tree in which every
    node at depth [k] has [k <= maxLODLevels - 1] and the size
    [terrainSize * 0.5 * ... * 0.5] ([k] factors, as computed), and is a
    leaf exactly when its size is not above the minimum node size or
    its depth is [maxLODLevels - 1].  When no operation of the build has
    rounded (the centres and sizes of the nodes are those of exact
    arithmetic), every rational point lies in exactly one leaf footprint
    if it lies in the root square, and in none otherwise. *)
Theorem Initialize_leaves_binary32 (terrainSize minNodeSize : B32.t)
  (maxLODLevels : Z) (q0 : QuadTree B32.t) :
  1 <= maxLODLevels ->
  exists q,
    Initialize terrainSize minNodeSize maxLODLevels q0 = Some q
    /\ (forall k n,
          In (k, n) (nodes_from 0 (mRoot q)) ->
          Z.of_nat k <= maxLODLevels - 1
          /\ Size n = halved k terrainSize
          /\ (IsLeaf n = true <->
              (flt minNodeSize (Size n) = false
               \/ Z.of_nat k = maxLODLevels - 1)))
    /\ (no_rounding (mRoot q)
          (exact_root terrainSize minNodeSize maxLODLevels) = true ->
        forall px pz : Q,
          exact_covering px pz (nodes_from 0 (mRoot q))
          = indicator (in_square px pz 0%Q 0%Q (to_Q terrainSize))).
Proof.
  intros HD.
  destruct (Initialize terrainSize minNodeSize maxLODLevels q0)
    as [q|] eqn:Einit;
    [|exfalso; revert Einit; apply Initialize_returns; left; lia].
  exists q. split; [reflexivity|].
  assert (Hroot :
            exists total total',
              BuildTree (S (Z.to_nat (maxLODLevels - 1))) minNodeSize
                maxLODLevels (of_Z 0) (of_Z 0) terrainSize (Z.of_nat 0)
                total
              = Some (mRoot q, total')).
  { unfold Initialize in Einit.
    destruct (match mLODDistances q0 with
              | [] => _
              | _ :: _ => _
              end) as [dists|]; [cbn [obind] in Einit|discriminate].
    destruct (BuildTree (S (Z.to_nat (maxLODLevels - 1))) minNodeSize
                maxLODLevels (of_Z 0) (of_Z 0) terrainSize 0 0)
      as [[root total]|] eqn:E; [cbn [obind] in Einit|discriminate].
    inversion Einit; subst q. cbn [mRoot]. exists 0, total. exact E. }
  destruct Hroot as (total & total' & Hbuild).
  split.
  - intros k n Hin.
    destruct (@BuildTree_nodes B32.t binary32 minNodeSize maxLODLevels
                _ _ _ _ 0%nat _ _ _ Hbuild k n Hin)
      as (_ & HkD & Hs & Hleaf).
    assert (Hk : Z.of_nat k <= maxLODLevels - 1)
      by (destruct HkD as [->|HkD]; simpl; lia).
    split; [exact Hk|]. rewrite Nat.sub_0_r in Hs. split; [exact Hs|].
    rewrite Hleaf. unfold canSplit.
    rewrite negb_true_iff, andb_false_iff, Z.ltb_ge. split.
    + intros [Hsize|Hdepth]; [now left|right; lia].
    + intros [Hsize|Hdepth]; [now left|right; lia].
  - intros Hexact px pz.
    destruct (@exact_root_tiles (to_Q terrainSize) (to_Q minNodeSize)
                maxLODLevels HD) as (qe & Ee & Htile).
    unfold exact_root in Hexact. rewrite Ee in Hexact.
    rewrite (no_rounding_covering px pz _ _ 0 Hexact). apply Htile.
Qed.

Lemma Initialize_leaves_binary32_witness :
  1 <= 5
  /\ forall px pz : Q,
      exact_covering px pz (nodes_from 0 (mRoot application_tree))
      = indicator (in_square px pz 0%Q 0%Q (to_Q (of_Z 512))).
Proof.
  split; [lia|].
  destruct (@Initialize_leaves_binary32 (of_Z 512)
              (fdiv (of_Z 512) (of_Z 8)) 5 new_QuadTree ltac:(lia))
    as (q & E & _ & Htile).
  unfold application_tree. rewrite E. cbn [built].
  apply Htile.
  vm_compute in E. injection E as <-. vm_compute. reflexivity.
Defined.

(** C3 as stated fails in binary32, in four ways.  Without a level
    ([maxLODLevels = 0]) the root is a leaf of size 512 above the
    minimum 64 and of depth 0, not -1.  For a NaN terrain size and two
    levels the root is a leaf although its size is not at or below the
    minimum and its depth is not 1.  For the terrain size [2^-149] the
    halved size underflows to zero, so the leaves do not have the size
    [terrainSize / 2].  And for [Initialize(16777215, 1, 3)] a centre
    rounds (6291455.625 to 6291455.5), so the point (4194303.7, 1) lies
    in two leaf footprints and the point (8388607.4, 1) of the root
    square in none. *)
Lemma leaves_claim_fails_in_binary32 :
  ~ (forall (terrainSize minNodeSize : B32.t) (maxLODLevels : Z)
            (q0 q : QuadTree B32.t),
        Initialize terrainSize minNodeSize maxLODLevels q0 = Some q ->
        forall k n,
          In (k, n) (nodes_from 0 (mRoot q)) ->
          (IsLeaf n = true <->
           (fle (Size n) minNodeSize = true
            \/ Z.of_nat k = maxLODLevels - 1)))
  /\ ~ (forall (terrainSize minNodeSize : B32.t) (maxLODLevels : Z)
               (q0 q : QuadTree B32.t),
           1 <= maxLODLevels ->
           Initialize terrainSize minNodeSize maxLODLevels q0 = Some q ->
           forall k n,
             In (k, n) (nodes_from 0 (mRoot q)) ->
             (IsLeaf n = true <->
              (fle (Size n) minNodeSize = true
               \/ Z.of_nat k = maxLODLevels - 1)))
  /\ ~ (forall (terrainSize minNodeSize : B32.t) (maxLODLevels : Z)
               (q0 q : QuadTree B32.t),
           1 <= maxLODLevels -> finite terrainSize = true ->
           Initialize terrainSize minNodeSize maxLODLevels q0 = Some q ->
           forall k n,
             In (k, n) (nodes_from 0 (mRoot q)) ->
             IsLeaf n = true ->
             (to_Q (Size n) * pow2 k == to_Q terrainSize)%Q)
  /\ ~ (forall (terrainSize minNodeSize : B32.t) (maxLODLevels : Z)
               (q0 q : QuadTree B32.t),
           1 <= maxLODLevels ->
           finite terrainSize = true -> finite minNodeSize = true ->
           Initialize terrainSize minNodeSize maxLODLevels q0 = Some q ->
           forall px pz : Q,
             exact_covering px pz (nodes_from 0 (mRoot q))
             = indicator (in_square px pz 0%Q 0%Q (to_Q terrainSize))).
Proof.
  split; [|split; [|split]].
  - intros H.
    specialize (H (of_Z 512) (of_Z 64) 0%Z new_QuadTree _ eq_refl 0%nat _
                  (or_introl eq_refl)).
    destruct H as [H _]. specialize (H eq_refl).
    destruct H as [H|H]; vm_compute in H; discriminate H.
  - intros H.
    specialize (H S754_nan (of_Z 64) 2%Z new_QuadTree _ ltac:(lia) eq_refl
                  0%nat _ (or_introl eq_refl)).
    destruct H as [H _]. specialize (H eq_refl).
    destruct H as [H|H]; vm_compute in H; discriminate H.
  - intros H.
    specialize (H smallest_positive (of_Z 0) 2%Z new_QuadTree _
                  ltac:(lia) eq_refl eq_refl 1%nat _
                  (or_intror (or_introl eq_refl)) eq_refl).
    vm_compute in H. discriminate H.
  - intros H.
    specialize (H (of_Z 16777215) (of_Z 1) 3%Z new_QuadTree _
                  ltac:(lia) eq_refl eq_refl eq_refl).
    pose proof (H (41943037 # 10) 1%Q) as H2.
    vm_compute in H2. discriminate H2.
Qed.

(** The same build with the point of the root square that no leaf
    covers. *)
Example rounded_centre_leaves_a_gap :
  exact_covering (83886074 # 10) 1%Q
    (nodes_from 0
       (mRoot (built (Initialize (of_Z 16777215) (of_Z 1) 3 new_QuadTree))))
  = 0%nat
  /\ in_square (F := Q) (83886074 # 10) 1%Q 0%Q 0%Q (to_Q (of_Z 16777215))
     = true.
Proof. split; vm_compute; reflexivity. Qed.

End Tiling32Facts.
